(** * Media extractors of the annotation platform: a shallow embedding

    The development follows [cvat/apps/engine/media_extractors.py].
    Python integers are [Z], lists and restartable iterables are [list],
    dictionaries are [gmap], byte strings are lists of [byte], exceptions
    are values of [exn] carried by [result], and methods that mutate
    [self] pass the object explicitly.  Functions of libraries outside the
    module are parameters of the definitions that call them. *)

From Stdlib Require Import ZArith List String Ascii Lia Bool DecimalString.
From Stdlib Require Import Strings.Byte Floats.SpecFloat.
From stdpp Require Import base option list gmap strings fin_maps.

Open Scope Z_scope.

(** ** Exceptions and the state-and-exception monad *)

Inductive exn : Type :=
| AssertionError
| StopIteration
| TypeError
| AttributeError
| IndexError
| ValueError (msg : string)
| FileExistsError
| StructError
| ValidationError (msg : string)
| Exception (msg : string)
| LibraryError (msg : string).

Inductive result (A : Type) : Type :=
| Ok (a : A)
| Raise (e : exn).
Arguments Ok {A} a.
Arguments Raise {A} e.

(** A method body: it receives the object, returns the object as it is
    when the body ends, and either a value or the exception that left it. *)
Definition M (S A : Type) : Type := S -> S * result A.

Definition ret {S A} (a : A) : M S A := fun s => (s, Ok a).
Definition raise {S A} (e : exn) : M S A := fun s => (s, Raise e).
Definition bind {S A B} (c : M S A) (k : A -> M S B) : M S B :=
  fun s => match c s with
           | (s', Ok a) => k a s'
           | (s', Raise e) => (s', Raise e)
           end.
Definition get {S} : M S S := fun s => (s, Ok s).
Definition modify {S} (f : S -> S) : M S unit := fun s => (f s, Ok tt).

Declare Scope py_scope.
Delimit Scope py_scope with py.
Notation "'do' x <- c ; k" := (bind c (fun x => k))
  (at level 10, x name, c at level 100, k at level 200) : py_scope.
Notation "c ;; k" := (bind c (fun _ => k))
  (at level 100, k at level 200, right associativity) : py_scope.

(** ** RandomAccessIterator *)

Module RandomAccessIterator.
Section WithItem.
Context {T : Type}.

(** [iterable] is the restartable source: every [iter(self.iterable)]
    yields the same sequence.  [iterator] is the live iterator, given by
    the items it has still to yield. *)
Record t : Type := Build {
  iterable : list T;
  iterator : option (list T);
  pos : Z
}.

Definition __init__ (iterable : list T) : t :=
  {| iterable := iterable; iterator := None; pos := -1 |}.

Definition close (self : t) : t :=
  {| iterable := iterable self; iterator := None; pos := -1 |}.

Definition reset (self : t) : t :=
  let self := close self in
  {| iterable := iterable self; iterator := Some (iterable self); pos := pos self |}.

(** [v = next(self.iterator); self.pos += 1] *)
Definition next_item : M t T := fun self =>
  match iterator self with
  | None => (self, Raise TypeError)
  | Some [] => (self, Raise StopIteration)
  | Some (x :: rest) =>
      ({| iterable := iterable self; iterator := Some rest; pos := pos self + 1 |}, Ok x)
  end.

(** [while self.pos < idx: ...].  Each turn moves [pos] one step towards
    [idx], so [idx - pos] turns are enough ([while_pos_fuel]). *)
Fixpoint while_pos (fuel : nat) (idx : Z) (v : option T) : M t (option T) := fun self =>
  match fuel with
  | O => (self, Ok v)
  | S fuel' =>
      if pos self <? idx then
        match next_item self with
        | (self', Ok x) => while_pos fuel' idx (Some x) self'
        | (self', Raise e) => (self', Raise e)
        end
      else (self, Ok v)
  end.

Definition __getitem__ (idx : Z) : M t (option T) := fun self =>
  if 0 <=? idx then
    let self :=
      if match iterator self with None => true | Some _ => false end || (idx <=? pos self)
      then reset self else self in
    while_pos (Z.to_nat (idx - pos self)) idx None self
  else (self, Raise AssertionError).

Definition __next__ : M t (option T) := fun self =>
  __getitem__ (pos self + 1) self.

(** The calls a client can make, and a run of them from a state. *)
Inductive call : Type :=
| Getitem (idx : Z)
| Next
| Reset
| Close.

Definition step (self : t) (c : call) : t :=
  match c with
  | Getitem idx => fst (__getitem__ idx self)
  | Next => fst (__next__ self)
  | Reset => reset self
  | Close => close self
  end.

Definition run (self : t) (cs : list call) : t := fold_left step cs self.

End WithItem.
Arguments t T : clear implicits.
End RandomAccessIterator.

(** ** CachingMediaIterator *)

(** [class Sized(Protocol)] *)
Class Sized (T : Type) : Type := get_size : T -> Z.

Module CachingMediaIterator.
Section WithMedia.
Context {T : Type} `{Sized T}.

Record _CacheItem : Type := CacheItem {
  value : option T;
  size : Z
}.

Record t : Type := Build {
  base : RandomAccessIterator.t T;
  max_cache_entries : Z;
  max_cache_memory : Z;
  _get_object_size_callback : option (T -> Z);
  used_cache_memory : Z;
  _cache : gmap Z _CacheItem
}.

Definition __init__ (iterable : list T) (max_cache_memory max_cache_entries : Z)
    (object_size_callback : option (T -> Z)) : t :=
  {| base := RandomAccessIterator.__init__ iterable;
     max_cache_entries := max_cache_entries;
     max_cache_memory := max_cache_memory;
     _get_object_size_callback := object_size_callback;
     used_cache_memory := 0;
     _cache := ∅ |}.

Definition set_base (self : t) (b : RandomAccessIterator.t T) : t :=
  {| base := b;
     max_cache_entries := max_cache_entries self;
     max_cache_memory := max_cache_memory self;
     _get_object_size_callback := _get_object_size_callback self;
     used_cache_memory := used_cache_memory self;
     _cache := _cache self |}.

Definition set_cache (self : t) (c : gmap Z _CacheItem) : t :=
  {| base := base self;
     max_cache_entries := max_cache_entries self;
     max_cache_memory := max_cache_memory self;
     _get_object_size_callback := _get_object_size_callback self;
     used_cache_memory := used_cache_memory self;
     _cache := c |}.

(** The base class method, run on the embedded base object. *)
Definition super_getitem (idx : Z) : M t (option T) := fun self =>
  let '(b, r) := RandomAccessIterator.__getitem__ idx (base self) in
  (set_base self b, r).

(** [obj] is [None] only if the base [__getitem__] returned [None], which
    it never does ([getitem_not_None]); [None] has no [get_size]. *)
Definition _get_object_size (obj : option T) : M t Z := fun self =>
  match obj with
  | None => (self, Raise AttributeError)
  | Some o =>
      match _get_object_size_callback self with
      | Some callback => (self, Ok (callback o))
      | None => (self, Ok (get_size o))
      end
  end.

(** [min(self._cache.keys())] *)
Definition min_key (c : gmap Z _CacheItem) : option Z :=
  foldr (fun k acc => Some (match acc with Some m => Z.min k m | None => k end))
        None (fst <$> map_to_list c).

Definition cache_len (self : t) : Z := Z.of_nat (base.size (_cache self)).

(** The eviction loop.  Each turn removes one entry and an empty cache
    ends the loop with the [ValueError] of [min], so one turn more than
    there are entries is enough ([evict_fuel]). *)
Fixpoint evict (fuel : nat) (value_size : Z) : M t unit := fun self =>
  match fuel with
  | O => (self, Ok tt)
  | S fuel' =>
      if (cache_len self + 1 >? max_cache_entries self)
         || (used_cache_memory self + value_size >? max_cache_memory self)
      then
        match min_key (_cache self) with
        | None => (self, Raise (ValueError "min() arg is an empty sequence"))
        | Some k => evict fuel' value_size (set_cache self (delete k (_cache self)))
        end
      else (self, Ok tt)
  end.

Definition __getitem__ (idx : Z) : M t (option T) := fun self =>
  match _cache self !! idx with
  | Some cache_item => (self, Ok (value cache_item))
  | None =>
      (do v <- super_getitem idx;
       do value_size <- _get_object_size v;
       do c <- get;
       evict (S (base.size (_cache c))) value_size;;
       do c <- get;
       (if used_cache_memory c + value_size <=? max_cache_memory c
        then modify (fun c => set_cache c (<[idx := CacheItem v value_size]> (_cache c)))
        else ret tt);;
       ret v)%py self
  end.

(** The sum of the sizes of the entries held. *)
Definition cached_bytes (self : t) : Z :=
  map_fold (fun _ item acc => size item + acc) 0 (_cache self).

Definition run (self : t) (idxs : list Z) : t :=
  fold_left (fun s i => fst (__getitem__ i s)) idxs self.

End WithMedia.
Arguments t T : clear implicits.
Arguments _CacheItem T : clear implicits.
End CachingMediaIterator.

(** ** Python's [range] *)

Record py_range : Type := Range {
  range_start : Z;
  range_stop : Z;
  range_step : Z
}.

Definition range (start stop step : Z) : result py_range :=
  if step =? 0 then Raise (ValueError "range() arg 3 must not be zero")
  else Ok (Range start stop step).

(** [len(range(start, stop, step))] *)
Definition range_len (r : py_range) : Z :=
  let '(lo, hi, step) :=
    if 0 <? range_step r
    then (range_start r, range_stop r, range_step r)
    else (range_stop r, range_start r, - range_step r) in
  if lo <? hi then (hi - lo - 1) / step + 1 else 0.

(** The numbers a [range] yields, in order. *)
Definition range_items (r : py_range) : list Z :=
  (fun k => range_start r + Z.of_nat k * range_step r)
    <$> seq 0 (Z.to_nat (range_len r)).

(** ** ImageListReader *)

Inductive DimensionType : Type := DIM_2D | DIM_3D.

Inductive SortingMethod : Type := LEXICOGRAPHICAL | NATURAL | PREDEFINED | RANDOM.

(** [sorted(images)] on strings: insertion in code point order. *)
Fixpoint insert_sorted (x : string) (l : list string) : list string :=
  match l with
  | [] => [x]
  | y :: l' => if String.leb x y then x :: l else y :: insert_sorted x l'
  end.

Definition sorted (images : list string) : list string :=
  foldr insert_sorted [] images.

Module ImageListReader.
Section WithLibraries.
(** [natsort.os_sorted], and the order one call of [random.shuffle] leaves. *)
Variable os_sorted : list string -> list string.
Variable shuffle : list string -> list string.

Definition sort (images : list string) (sorting_method : SortingMethod) : list string :=
  match sorting_method with
  | LEXICOGRAPHICAL => sorted images
  | NATURAL => os_sorted images
  | PREDEFINED => images
  | RANDOM => shuffle images
  end.

Record t : Type := Build {
  _source_path : list string;
  _step : Z;
  _start : Z;
  _stop : Z;
  _dimension : DimensionType;
  _sorting_method : SortingMethod
}.

Definition __init__ (source_path : list string) (step start : Z) (stop : option Z)
    (dimension : DimensionType) (sorting_method : SortingMethod) : result t :=
  match source_path with
  | [] => Raise (Exception "No image found")
  | _ :: _ =>
      let len := Z.of_nat (length source_path) in
      (* [if not stop]: [None] and [0] are both false *)
      let stop :=
        match stop with
        | None => len - 1
        | Some stop => if stop =? 0 then len - 1 else Z.min (len - 1) stop
        end in
      let step := Z.max step 1 in
      if stop >=? start then
        Ok {| _source_path := sort source_path sorting_method;
              _step := step;
              _start := start;
              _stop := stop;
              _dimension := dimension;
              _sorting_method := sorting_method |}
      else Raise AssertionError
  end.

Definition frame_range (self : t) : result py_range :=
  range (_start self) (_stop self + 1) (_step self).

Definition __len__ (self : t) : result Z :=
  match frame_range self with
  | Ok r => Ok (range_len r)
  | Raise e => Raise e
  end.

End WithLibraries.
End ImageListReader.

(** The last index as the specification words it: the default when no
    [stop] is supplied, the clamp when it is larger. *)
Definition stop_as_specified (len : Z) (stop : option Z) : Z :=
  match stop with
  | None => len - 1
  | Some stop => Z.min (len - 1) stop
  end.

(** The last index [ImageListReader.__init__] keeps. *)
Definition stop_in_effect (len : Z) (stop : option Z) : Z :=
  match stop with
  | None => len - 1
  | Some stop => if stop =? 0 then len - 1 else Z.min (len - 1) stop
  end.

(** ** The keyframe index and VideoReaderWithManifest *)

(** An entry of the video manifest: [entry.get('number')], [entry.get('pts')]. *)
Record ManifestEntry : Type := Entry {
  number : Z;
  pts : Z
}.

(** [bisect(a, x, key=lambda entry: entry.get('number'))], the
    [bisect_right] of the standard library.  The interval [lo, hi) shrinks
    at every turn, so [hi - lo] turns are enough ([bisect_loop_spec]). *)
Fixpoint bisect_loop (fuel : nat) (a : list ManifestEntry) (x lo hi : Z) : result Z :=
  match fuel with
  | O => Ok lo
  | S fuel' =>
      if lo <? hi then
        let mid := (lo + hi) / 2 in
        match a !! Z.to_nat mid with
        | None => Raise IndexError
        | Some e =>
            if x <? number e
            then bisect_loop fuel' a x lo mid
            else bisect_loop fuel' a x (mid + 1) hi
        end
      else Ok lo
  end.

Definition bisect (a : list ManifestEntry) (x : Z) : result Z :=
  bisect_loop (length a) a x 0 (Z.of_nat (length a)).

Module VideoReaderWithManifest.

Record t : Type := Build {
  source_path : string;
  manifest : list ManifestEntry;
  allow_threading : bool
}.

(** [self.manifest[i]] for an index that is not negative. *)
Definition manifest_getitem (self : t) (i : Z) : result ManifestEntry :=
  match manifest self !! Z.to_nat i with
  | Some e => Ok e
  | None => Raise IndexError
  end.

Definition _get_nearest_left_key_frame (self : t) (frame_id : Z) : result (Z * Z) :=
  match bisect (manifest self) frame_id with
  | Raise e => Raise e
  | Ok nearest_left_keyframe_pos =>
      if negb (nearest_left_keyframe_pos =? 0) then
        match manifest_getitem self (nearest_left_keyframe_pos - 1) with
        | Ok e => Ok (number e, pts e)
        | Raise e => Raise e
        end
      else Ok (0, 0)
  end.

End VideoReaderWithManifest.

(** The index is ordered by frame number, ascending. *)
Fixpoint is_ascending (a : list ManifestEntry) : bool :=
  match a with
  | e1 :: (e2 :: _) as rest => (number e1 <=? number e2) && is_ascending rest
  | _ => true
  end.

(** ** Video frames and the decoded stream *)

(** [av.VideoFrame]: the fields the module reads or assigns; [frame_image]
    stands for the pixel data. *)
Record VideoFrame : Type := Frame {
  frame_width : Z;
  frame_height : Z;
  frame_pts : option Z;
  frame_time_base : option (Z * Z);
  frame_image : N
}.

(** What [av.open] gives for a source: the frames the decoder yields for
    the video stream, in order, and the stream's [rotate] metadata.  An
    absent or empty [rotate] is [None]. *)
Record Video : Type := {
  video_frames : list VideoFrame;
  video_rotate : option Z
}.

(** The [frame_filter] argument of [iterate_frames]. *)
Inductive FrameFilter : Type :=
| FilterTrue
| FilterFalse
| FilterIds (ids : list Z).

(** The iterators built for the filter: [itertools.count(start, step)],
    cut by [takewhile(lambda x: x <= stop, ...)] when [bound] is given, or
    the iterator of a list. *)
Inductive filter_iter : Type :=
| FCount (n step : Z) (bound : option Z)
| FList (ids : list Z).

(** [next(frame_filter_iter, None)] *)
Definition filter_next (it : filter_iter) : option (Z * filter_iter) :=
  match it with
  | FCount n step None => Some (n, FCount (n + step) step None)
  | FCount n step (Some stop) =>
      if n <=? stop then Some (n, FCount (n + step) step (Some stop)) else None
  | FList [] => None
  | FList (x :: ids) => Some (x, FList ids)
  end.

(** ** VideoReader *)

Module VideoReader.
Section WithLibraries.
(** [av.open(source)], and [rotate_image] applied to a frame: the frame
    made from the rotated array. *)
Variable av_open : string -> result Video.
Variable rotate_image : VideoFrame -> Z -> VideoFrame.

Record t : Type := Build {
  _source_path : list string;
  _step : Z;
  _start : Z;
  _stop : option Z;
  _dimension : DimensionType;
  allow_threading : bool;
  _frame_count : option Z;
  _frame_size : option (Z * Z)
}.

Definition __init__ (source_path : list string) (step start : Z) (stop : option Z)
    (dimension : DimensionType) (allow_threading : bool) : t :=
  {| _source_path := source_path; _step := step; _start := start; _stop := stop;
     _dimension := dimension; allow_threading := allow_threading;
     _frame_count := None; _frame_size := None |}.

Definition set_frame_size (self : t) (size : option (Z * Z)) : t :=
  {| _source_path := _source_path self; _step := _step self; _start := _start self;
     _stop := _stop self; _dimension := _dimension self;
     allow_threading := allow_threading self;
     _frame_count := _frame_count self; _frame_size := size |}.

Definition set_frame_count (self : t) (count : option Z) : t :=
  {| _source_path := _source_path self; _step := _step self; _start := _start self;
     _stop := _stop self; _dimension := _dimension self;
     allow_threading := allow_threading self;
     _frame_count := count; _frame_size := _frame_size self |}.

(** [self._source_path[0]] *)
Definition source_path_0 : M t string := fun self =>
  match _source_path self with
  | p :: _ => (self, Ok p)
  | [] => (self, Raise IndexError)
  end.

(** The iterator [iterate_frames] walks for a filter. *)
Definition make_filter (self : t) (frame_filter : FrameFilter) : filter_iter :=
  match frame_filter with
  | FilterTrue =>
      match _stop self with
      | None => FCount (_start self) (_step self) None
      | Some stop =>
          if stop =? 0 then FCount (_start self) (_step self) None
          else FCount (_start self) (_step self) (Some stop)
      end
  | FilterFalse => FCount 0 1 None
  | FilterIds [] => FCount 0 1 None
  | FilterIds (x :: ids) => FList (x :: ids)
  end.

(** The frame as it is yielded: turned back when the stream is rotated,
    with its timestamp kept. *)
Definition exposed_frame (video : Video) (frame : VideoFrame) : VideoFrame :=
  match video_rotate video with
  | Some angle =>
      let rotated := rotate_image frame (360 - angle) in
      {| frame_width := frame_width rotated; frame_height := frame_height rotated;
         frame_pts := frame_pts frame; frame_time_base := frame_time_base rotated;
         frame_image := frame_image rotated |}
  | None => frame
  end.

(** The loop over [zip(stream_decoder, frame_counter)], run to its end:
    the tuples yielded, with [_frame_size] as the loop leaves it. *)
Fixpoint decode_loop (video : Video) (path : string) (frames : list VideoFrame)
    (frame_number next_frame_filter_frame : Z) (it : filter_iter)
    : M t (list (VideoFrame * string * option Z)) := fun self =>
  match frames with
  | [] => (self, Ok [])
  | frame :: frames' =>
      if frame_number =? next_frame_filter_frame then
        let frame := exposed_frame video frame in
        let self :=
          match _frame_size self with
          | None => set_frame_size self (Some (frame_width frame, frame_height frame))
          | Some _ => self
          end in
        let yielded := (frame, path, frame_pts frame) in
        match filter_next it with
        | None => (self, Ok [yielded])
        | Some (next, it') =>
            match decode_loop video path frames' (frame_number + 1) next it' self with
            | (self', Ok rest) => (self', Ok (yielded :: rest))
            | (self', Raise e) => (self', Raise e)
            end
        end
      else decode_loop video path frames' (frame_number + 1) next_frame_filter_frame it self
  end.

(** [iterate_frames(frame_filter=...)] without a [video_stream], consumed
    to the end. *)
Definition iterate_frames (frame_filter : FrameFilter)
    : M t (list (VideoFrame * string * option Z)) :=
  (do self <- get;
   match filter_next (make_filter self frame_filter) with
   | None => ret []
   | Some (next_frame_filter_frame, it) =>
       do path <- source_path_0;
       match av_open path with
       | Raise e => raise e
       | Ok video =>
           decode_loop video path (video_frames video) 0 next_frame_filter_frame it
       end
   end)%py.

Definition __iter__ : M t (list (VideoFrame * string * option Z)) :=
  iterate_frames FilterTrue.

Definition get_frame_count : M t Z :=
  (do self <- get;
   match _frame_count self with
   | Some count => ret count
   | None =>
       do yielded <- iterate_frames FilterFalse;
       let frame_count := Z.of_nat (length yielded) in
       modify (fun self => set_frame_count self (Some frame_count));;
       ret frame_count
   end)%py.

(** [next(frame_iter)] on [iter(self)]: the first tuple; the iterator is
    closed after it, and the tuples after the first change nothing of the
    object. *)
Definition get_image_size (i : Z) : M t (Z * Z) :=
  (do self <- get;
   match _frame_size self with
   | Some size => ret size
   | None =>
       do yielded <- __iter__;
       match yielded with
       | [] => raise StopIteration
       | (frame, _, _) :: _ =>
           let size := (frame_width frame, frame_height frame) in
           modify (fun self => set_frame_size self (Some size));;
           ret size
       end
   end)%py.

End WithLibraries.

(** The calls of a client, each made in the world of its moment: what
    [av.open] gives then. *)
Inductive call : Type :=
| GetFrameCount
| IterateFrames (frame_filter : FrameFilter)
| GetImageSize (i : Z).

Definition step (rotate_image : VideoFrame -> Z -> VideoFrame)
    (self : t) (c : (string -> result Video) * call) : t :=
  match c with
  | (av_open, GetFrameCount) => fst (get_frame_count av_open rotate_image self)
  | (av_open, IterateFrames f) => fst (iterate_frames av_open rotate_image f self)
  | (av_open, GetImageSize i) => fst (get_image_size av_open rotate_image i self)
  end.

Definition run (rotate_image : VideoFrame -> Z -> VideoFrame)
    (self : t) (cs : list ((string -> result Video) * call)) : t :=
  fold_left (step rotate_image) cs self.

End VideoReader.

(** ** Images, media and the world of the chunk writers *)

(** [str(n)] *)
Definition str_of_Z (n : Z) : string := NilZero.string_of_int (Z.to_int n).

Fixpoint zeros (n : nat) : string :=
  match n with
  | O => EmptyString
  | S n' => String "0" (zeros n')
  end.

(** ['{:06d}'.format(idx)] for an index of [enumerate] *)
Definition format_06d (idx : nat) : string :=
  let digits := str_of_Z (Z.of_nat idx) in
  (zeros (6 - String.length digits) ++ digits)%string.

(** [s.replace('.', '')] *)
Fixpoint remove_dots (s : string) : string :=
  match s with
  | EmptyString => EmptyString
  | String c s' => if Ascii.eqb c "." then remove_dots s' else String c (remove_dots s')
  end.

(** [PIL.Image.Image]: [img_orientation] is the EXIF tag 274 when present,
    [img_pixels] stands for the pixel data. *)
Record PilImage : Type := {
  img_format : option string;
  img_orientation : option Z;
  img_mode : string;
  img_width : Z;
  img_height : Z;
  img_pixels : N
}.

Definition NORMAL_HORIZONTAL : Z := 1.

Definition has_exif_rotation (img : PilImage) : bool :=
  negb (default NORMAL_HORIZONTAL (img_orientation img) =? NORMAL_HORIZONTAL).

(** The first component of a tuple a writer is given. *)
Inductive Media : Type :=
| MImage (img : PilImage)
| MBytesIO (buf : list byte)
| MFile (content : list byte)
| MStr (p : string)
| MFrame (frame : VideoFrame).

(** A file on disk: raw bytes, or a zip archive given by its entries
    [(arcname, data)] in the order written. *)
Inductive FileContent : Type :=
| RawFile (data : list byte)
| ZipArchive (entries : list (string * list byte)).

(** What a writer does to an output container of the video library. *)
Inductive av_event (Packet : Type) : Type :=
| AvOpen (path format : string)
| AvAddStream (codec_name : string) (rate : Z) (pix_fmt : string) (width height : Z)
    (options : list (string * string))
| AvMux (packet : Packet)
| AvCloseStream
| AvClose (path : string).
Arguments AvOpen {Packet} path format.
Arguments AvAddStream {Packet} codec_name rate pix_fmt width height options.
Arguments AvMux {Packet} packet.
Arguments AvCloseStream {Packet}.
Arguments AvClose {Packet} path.

(** The world a writer acts on: the files, and the calls made on output
    containers in the order made.  The container library turns these calls
    into the video file: it opens the file when encoding starts, with the
    first packet muxed, so a container closed with nothing muxed has
    written nothing. *)
Record World (Packet : Type) : Type := {
  files : gmap string FileContent;
  av_log : list (av_event Packet)
}.
Arguments files {Packet} w.
Arguments av_log {Packet} w.

Definition is_mux {Packet} (ev : av_event Packet) : bool :=
  match ev with AvMux _ => true | _ => false end.

(** The packets muxed, in order: what has been written through output
    containers. *)
Definition av_written {Packet} (log : list (av_event Packet)) : list (av_event Packet) :=
  List.filter is_mux log.

(** The functions of the imaging, path, point cloud and codec libraries the
    writers call. *)
Record Libraries (Packet : Type) : Type := {
  (** [ImageOps.exif_transpose] *)
  exif_transpose : PilImage -> PilImage;
  (** [image.save(output, format=..., ...)]: the bytes written *)
  pil_save : PilImage -> string -> list (string * string) -> result (list byte);
  (** [os.path.splitext] *)
  splitext : string -> string * string;
  (** the bytes of a zip archive, as [ZipFile.write] reads a file *)
  zip_bytes : list (string * list byte) -> list byte;
  (** [ValidateDimension.get_pcd_properties] and [int] of its WIDTH and HEIGHT *)
  pcd_width_height : list byte -> result (Z * Z);
  (** [IChunkWriter._compress_image] *)
  compress_image : Media -> Z -> result (Z * Z * list byte);
  (** [Image.open(image_buf).size] *)
  image_open_size : list byte -> result (Z * Z);
  (** whether [av.codec.Codec('libopenh264', 'w')] finds the codec *)
  has_libopenh264 : bool;
  (** [stream.encode(frame)] after the frames encoded so far; [None] is
      the flush *)
  encode : list VideoFrame -> option VideoFrame -> list Packet
}.
Arguments exif_transpose {Packet} l.
Arguments pil_save {Packet} l.
Arguments splitext {Packet} l.
Arguments zip_bytes {Packet} l.
Arguments pcd_width_height {Packet} l.
Arguments compress_image {Packet} l.
Arguments image_open_size {Packet} l.
Arguments has_libopenh264 {Packet} l.
Arguments encode {Packet} l.

Section ChunkWriters.
Context {Packet : Type} (lib : Libraries Packet).
Local Abbreviation W := (World Packet).

Definition set_files (w : W) (fs : gmap string FileContent) : W :=
  {| files := fs; av_log := av_log w |}.

Definition emit (ev : av_event Packet) : M W unit :=
  modify (fun w => {| files := files w; av_log := av_log w ++ [ev] |}).

(** Lift a result of a library call. *)
Definition lift {A} (r : result A) : M W A :=
  match r with
  | Ok a => ret a
  | Raise e => raise e
  end.

(** [open(path, "rb").read()] *)
Definition read_file (path : string) : M W (list byte) := fun w =>
  match files w !! path with
  | Some (RawFile data) => (w, Ok data)
  | Some (ZipArchive entries) => (w, Ok (zip_bytes lib entries))
  | None => (w, Raise (LibraryError "FileNotFoundError"))
  end.

(** [zipfile.ZipFile(chunk_path, 'x')]: exclusive creation. *)
Definition zip_create (chunk_path : string) : M W unit := fun w =>
  match files w !! chunk_path with
  | Some _ => (w, Raise FileExistsError)
  | None => (set_files w (<[chunk_path := ZipArchive []]> (files w)), Ok tt)
  end.

(** [zip_chunk.writestr(arcname, data)] *)
Definition zip_writestr (chunk_path arcname : string) (data : list byte) : M W unit :=
  fun w =>
  match files w !! chunk_path with
  | Some (ZipArchive entries) =>
      (set_files w (<[chunk_path := ZipArchive (entries ++ [(arcname, data)])]> (files w)),
       Ok tt)
  | _ => (w, Raise (ValueError "Attempt to write to ZIP archive that was already closed"))
  end.

End ChunkWriters.

(** ** ZipChunkWriter and ZipCompressedChunkWriter *)

Module ZipChunkWriter.
Section WithLibraries.
Context {Packet : Type} (lib : Libraries Packet).
Local Abbreviation W := (World Packet).

(** [IChunkWriter.__init__(quality, dimension)] *)
Record t : Type := Build {
  _image_quality : Z;
  _dimension : DimensionType
}.

Definition IMAGE_EXT : string := "jpeg".
Definition POINT_CLOUD_EXT : string := "pcd".

(** What the loop body writes for a frame. *)
Inductive Output : Type :=
| OutBytesIO (data : list byte)
| OutFile (content : list byte)
| OutPath (path : string).

Definition _write_pcd_file (image : Media) : M W (list byte * string * Z * Z) :=
  (do data <- match image with
              | MStr path => read_file lib path
              | MBytesIO buf => ret buf
              | MFile content => ret content
              | _ => raise AttributeError
              end;
   do wh <- lift (pcd_width_height lib data);
   ret (data, POINT_CLOUD_EXT, fst wh, snd wh))%py.

(** The branch of the loop body that chooses the output and the extension
    for one frame. *)
Definition frame_output (self : t) (image : Media) (path : string)
    : M W (Output * string) :=
  let ext := remove_dots (snd (splitext lib path)) in
  match _dimension self with
  | DIM_2D =>
      match image with
      | MImage img =>
          if has_exif_rotation img || bool_decide (img_format img = Some "TIFF"%string) then
            let rot_image := exif_transpose lib img in
            (do data <-
               lift (if bool_decide (img_format img = Some "TIFF"%string)
                     then pil_save lib rot_image "TIFF" [("compression", "tiff_lzw")]%string
                     else pil_save lib rot_image
                            (match img_format img with
                             | Some f => if bool_decide (f = ""%string) then IMAGE_EXT else f
                             | None => IMAGE_EXT
                             end)
                            [("quality", "100"); ("subsampling", "0")]%string);
             ret (OutBytesIO data, ext))%py
          else ret (OutPath path, ext)
      | MBytesIO buf => ret (OutBytesIO buf, ext)
      | MFile content => ret (OutFile content, ext)
      | MStr _ | MFrame _ => ret (OutPath path, ext)
      end
  | DIM_3D =>
      (do r <- match image with
               | MBytesIO _ => _write_pcd_file image
               | _ => _write_pcd_file (MStr path)
               end;
       let '(data, pcd_ext, _, _) := r in
       ret (OutBytesIO data, pcd_ext))%py
  end.

(** The loop over [enumerate(images)]. *)
Fixpoint write_frames (self : t) (chunk_path : string)
    (idx : nat) (images : list (Media * string * string)) : M W unit :=
  match images with
  | [] => ret tt
  | (image, path, _) :: images' =>
      (do oe <- frame_output self image path;
       let arcname := (format_06d idx ++ "." ++ snd oe)%string in
       match fst oe with
       | OutBytesIO data => zip_writestr chunk_path arcname data
       | OutPath filename =>
           do data <- read_file lib filename;
           zip_writestr chunk_path arcname data
       | OutFile _ => raise TypeError
       end;;
       write_frames self chunk_path (S idx) images')%py
  end.

(** The archive is closed when the [with] block is left, by the end of the
    loop or by an exception. *)
Definition save_as_chunk (self : t) (images : list (Media * string * string))
    (chunk_path : string) : M W (list (Z * Z)) :=
  (zip_create chunk_path;;
   write_frames self chunk_path 0 images;;
   (* return empty list because ZipChunkWriter write files as is *)
   ret [])%py.

End WithLibraries.
End ZipChunkWriter.

Module ZipCompressedChunkWriter.
Section WithLibraries.
Context {Packet : Type} (lib : Libraries Packet).
Local Abbreviation W := (World Packet).

(** The loop over [enumerate(images)]. *)
Fixpoint compress_frames_loop (self : ZipChunkWriter.t)
    (compress_frames : bool) (chunk_path : string) (idx : nat)
    (images : list (Media * string * string)) (image_sizes : list (Z * Z))
    : M W (list (Z * Z)) :=
  match images with
  | [] => ret image_sizes
  | (image, path, _) :: images' =>
      (do r <-
         match ZipChunkWriter._dimension self with
         | DIM_2D =>
             if compress_frames then
               do whb <- lift (compress_image lib image (ZipChunkWriter._image_quality self));
               ret (snd whb, ZipChunkWriter.IMAGE_EXT, fst (fst whb), snd (fst whb))
             else
               match image with
               | MBytesIO data | MFile data =>
                   do wh <- lift (image_open_size lib data);
                   ret (data, ZipChunkWriter.IMAGE_EXT, fst wh, snd wh)
               | _ => raise AssertionError
               end
         | DIM_3D =>
             match image with
             | MBytesIO _ => ZipChunkWriter._write_pcd_file lib image
             | _ => ZipChunkWriter._write_pcd_file lib (MStr path)
             end
         end;
       let '(image_buf, extension, w, h) := r in
       zip_writestr chunk_path (format_06d idx ++ "." ++ extension)%string image_buf;;
       compress_frames_loop self compress_frames chunk_path (S idx)
         images' (image_sizes ++ [(w, h)]))%py
  end.

Definition save_as_chunk (self : ZipChunkWriter.t)
    (images : list (Media * string * string)) (chunk_path : string)
    (compress_frames : bool) (zip_compress_level : Z) : M W (list (Z * Z)) :=
  (zip_create chunk_path;;
   compress_frames_loop self compress_frames chunk_path 0 images [])%py.

End WithLibraries.
End ZipCompressedChunkWriter.

(** ** Mpeg4ChunkWriter and Mpeg4CompressedChunkWriter *)

(** [round(n / d)] for [0 < d]: the nearest integer, a tie going to the
    even one. *)
Definition py_round_div (n d : Z) : Z :=
  let q := n / d in
  let r := n mod d in
  if 2 * r <? d then q
  else if d <? 2 * r then q + 1
  else if Z.even q then q else q + 1.

Module Mpeg4ChunkWriter.
Section WithLibraries.
Context {Packet : Type} (lib : Libraries Packet).
Local Abbreviation W := (World Packet).

Definition FORMAT : string := "mp4".
Definition MAX_MBS_PER_FRAME : Z := 36864.

Record t : Type := Build {
  _image_quality : Z;
  _dimension : DimensionType;
  _output_fps : Z;
  _codec_name : string;
  _codec_opts : list (string * string)
}.

Definition __init__ (quality : Z) : t :=
  (* translate inversed range [1:100] to [0:51] *)
  let quality := py_round_div (51 * (100 - quality)) 99 in
  if has_libopenh264 lib then
    {| _image_quality := quality; _dimension := DIM_2D; _output_fps := 25;
       _codec_name := "libopenh264";
       _codec_opts := [("profile", "constrained_baseline");
                       ("qmin", str_of_Z quality);
                       ("qmax", str_of_Z quality);
                       ("rc_mode", "buffer")]%string |}
  else
    {| _image_quality := quality; _dimension := DIM_2D; _output_fps := 25;
       _codec_name := "libx264";
       _codec_opts := [("crf", str_of_Z quality); ("preset", "ultrafast")]%string |}.

Definition resolution_error : exn :=
  ValidationError
    "The video codec being used does not support such high video resolution, refer https://github.com/cvat-ai/cvat/issues/7425".

Definition _add_video_stream (self : t) (w h rate : Z) (options : list (string * string))
    : M W unit :=
  (* x264 requires width and height must be divisible by 2 for yuv420p *)
  let h := if negb (h mod 2 =? 0) then h + 1 else h in
  let w := if negb (w mod 2 =? 0) then w + 1 else w in
  (* libopenh264 has 4K limitations *)
  if h * w >? Z.shiftl MAX_MBS_PER_FRAME 8 then raise resolution_error
  else emit (AvAddStream (_codec_name self) rate "yuv420p" w h options).

(** [_peek_first_frame]: the first tuple, if any, and the iterator that
    yields it again before the rest. *)
Definition _peek_first_frame {A} (frame_iter : list A) : option A * list (option A) :=
  match frame_iter with
  | [] => (None, [None])
  | first :: rest => (Some first, Some first :: (Some <$> rest))
  end.

(** [for packet in packets: container.mux(packet)] *)
Fixpoint mux_all (packets : list Packet) : M W unit :=
  match packets with
  | [] => ret tt
  | packet :: packets' => (emit (AvMux packet);; mux_all packets')%py
  end.

(** [_encode_images]: [encoded] are the frames the stream has been given. *)
Fixpoint encode_frames (images : list (option (VideoFrame * string * option Z)))
    (encoded : list VideoFrame) : M W unit :=
  match images with
  | [] =>
      (* Flush streams *)
      mux_all (encode lib encoded None)
  | None :: _ => raise TypeError
  | Some (frame, _, _) :: images' =>
      (* let libav set the correct pts and time_base *)
      let frame :=
        {| frame_width := frame_width frame; frame_height := frame_height frame;
           frame_pts := None; frame_time_base := None;
           frame_image := frame_image frame |} in
      (mux_all (encode lib encoded (Some frame));;
       encode_frames images' (encoded ++ [frame]))%py
  end.

(** [with ... as resource: body]: the exit action runs on every way out of
    the body. *)
Definition with_exit {A} (body : M W A) (on_exit : M W unit) : M W A := fun w =>
  match body w with
  | (w', r) =>
      match on_exit w' with
      | (w'', Ok _) => (w'', r)
      | (w'', Raise e) => (w'', Raise e)
      end
  end.

(** The part of [save_as_chunk] inside [with av.open(...)], for the
    dimensions given to the stream. *)
Definition write_container (self : t)
    (images : list (option (VideoFrame * string * option Z)))
    (chunk_path : string) (w h : Z) : M W unit :=
  (emit (AvOpen chunk_path FORMAT);;
   with_exit
     (_add_video_stream self w h (_output_fps self) (_codec_opts self);;
      with_exit (encode_frames images []) (emit AvCloseStream))
     (emit (AvClose chunk_path)))%py.

Definition save_as_chunk (self : t) (images : list (VideoFrame * string * option Z))
    (chunk_path : string) : M W (list (Z * Z)) :=
  let '(first_frame, images) := _peek_first_frame images in
  match first_frame with
  | None => raise (Exception "no images to save")
  | Some (frame, _, _) =>
      let input_w := frame_width frame in
      let input_h := frame_height frame in
      (write_container self images chunk_path input_w input_h;;
       ret [(input_w, input_h)])%py
  end.

End WithLibraries.
End Mpeg4ChunkWriter.

Module Mpeg4CompressedChunkWriter.
Section WithLibraries.
Context {Packet : Type} (lib : Libraries Packet).
Local Abbreviation W := (World Packet).

Definition __init__ (quality : Z) : Mpeg4ChunkWriter.t :=
  let self := Mpeg4ChunkWriter.__init__ lib quality in
  if bool_decide (Mpeg4ChunkWriter._codec_name self = "libx264"%string) then
    {| Mpeg4ChunkWriter._image_quality := Mpeg4ChunkWriter._image_quality self;
       Mpeg4ChunkWriter._dimension := Mpeg4ChunkWriter._dimension self;
       Mpeg4ChunkWriter._output_fps := Mpeg4ChunkWriter._output_fps self;
       Mpeg4ChunkWriter._codec_name := Mpeg4ChunkWriter._codec_name self;
       Mpeg4ChunkWriter._codec_opts :=
         [("profile", "baseline"); ("coder", "0");
          ("crf", str_of_Z (Mpeg4ChunkWriter._image_quality self));
          ("wpredp", "0"); ("flags", "-loop")]%string |}
  else self.

(** [while input_h / downscale_factor >= 1080: downscale_factor *= 2].
    The factor doubles at every turn, so [input_h] turns are enough
    ([downscale_ends]). *)
Fixpoint downscale (fuel : nat) (input_h downscale_factor : Z) : Z :=
  match fuel with
  | O => downscale_factor
  | S fuel' =>
      if 1080 * downscale_factor <=? input_h
      then downscale fuel' input_h (downscale_factor * 2)
      else downscale_factor
  end.

Definition save_as_chunk (self : Mpeg4ChunkWriter.t)
    (images : list (VideoFrame * string * option Z)) (chunk_path : string)
    : M W (list (Z * Z)) :=
  let '(first_frame, images) := Mpeg4ChunkWriter._peek_first_frame images in
  match first_frame with
  | None => raise (Exception "no images to save")
  | Some (frame, _, _) =>
      let input_w := frame_width frame in
      let input_h := frame_height frame in
      let downscale_factor := downscale (Z.to_nat input_h) input_h 1 in
      let output_h := input_h / downscale_factor in
      let output_w := input_w / downscale_factor in
      (Mpeg4ChunkWriter.write_container lib self images chunk_path output_w output_h;;
       ret [(input_w, input_h)])%py
  end.

End WithLibraries.
End Mpeg4CompressedChunkWriter.

(** ** Strings *)

(** [s.startswith(prefix)] *)
Fixpoint startswith (s prefix : string) : bool :=
  match prefix with
  | EmptyString => true
  | String a prefix' =>
      match s with
      | EmptyString => false
      | String b s' => Ascii.eqb a b && startswith s' prefix'
      end
  end.

(** ** Point clouds: [ValidateDimension.convert_bin_to_pcd] *)

(** A Python [float] is an IEEE 754 binary64 number and the records hold
    binary32 numbers.  The numbers are values of [spec_float], after the
    specification of the standard library.  A NaN is kept apart from the
    numbers, with its sign and the bits of its fraction, and is converted
    as the casts between the C types [float] and [double] convert it: the
    sign and the leading bits of the fraction are kept, and the quiet bit
    is set. *)

Definition byte_val (b : byte) : Z := Z.of_N (Byte.to_N b).

Definition byte_of_Z (z : Z) : byte :=
  default x00 (Byte.of_N (Z.to_N (z mod 256))).

(** Little-endian integers. *)
Fixpoint le_to_Z (bs : list byte) : Z :=
  match bs with
  | [] => 0
  | b :: bs' => byte_val b + 256 * le_to_Z bs'
  end.

Fixpoint Z_to_le (n : nat) (z : Z) : list byte :=
  match n with
  | O => []
  | S n' => byte_of_Z z :: Z_to_le n' (z / 256)
  end.

(** The fields of a binary32 pattern: sign, biased exponent, fraction. *)
Definition f32_sign (bits : Z) : bool := 1 <=? bits / 2 ^ 31.
Definition f32_exponent (bits : Z) : Z := (bits / 2 ^ 23) mod 256.
Definition f32_fraction (bits : Z) : Z := bits mod 2 ^ 23.

Definition f32_is_nan (bits : Z) : bool :=
  (f32_exponent bits =? 255) && negb (f32_fraction bits =? 0).

(** The value of a binary32 pattern that is not a NaN. *)
Definition decode_f32 (bits : Z) : spec_float :=
  let s := f32_sign bits in
  let ex := f32_exponent bits in
  let fr := f32_fraction bits in
  if ex =? 255 then (if fr =? 0 then S754_infinity s else S754_nan)
  else if ex =? 0 then
    match fr with
    | Zpos m => S754_finite s m (-149)
    | _ => S754_zero s
    end
  else
    match fr + 2 ^ 23 with
    | Zpos m => S754_finite s m (ex - 150)
    | _ => S754_nan
    end.

(** The pattern of a binary32 number.  A NaN does not come here: it is
    written from its sign and fraction ([bits32_of_float]). *)
Definition encode_f32 (x : spec_float) : Z :=
  let sign (s : bool) := if s then 2 ^ 31 else 0 in
  match x with
  | S754_zero s => sign s
  | S754_infinity s => sign s + 255 * 2 ^ 23
  | S754_nan => 255 * 2 ^ 23 + 2 ^ 22
  | S754_finite s m e =>
      if Zpos m <? 2 ^ 23 then sign s + Zpos m
      else sign s + (e + 150) * 2 ^ 23 + (Zpos m - 2 ^ 23)
  end.

(** The conversion of a number to the format of precision [prec] and
    largest exponent [emax], rounding to nearest, ties to even. *)
Definition convert_float (prec emax : Z) (x : spec_float) : spec_float :=
  match x with
  | S754_finite s m e => binary_normalize prec emax (cond_Zopp s (Zpos m)) e s
  | _ => x
  end.

(** binary32 to binary64, and back. *)
Definition float_of_f32 : spec_float -> spec_float := convert_float 53 1024.
Definition f32_of_float : spec_float -> spec_float := convert_float 24 128.

(** A Python [float]: a number, or a NaN with its sign and the 52 bits of
    its fraction. *)
Inductive pyfloat : Type :=
| Number (x : spec_float)
| NaN (sign : bool) (fraction : Z).

(** The [float] of a binary32 pattern, as the cast of a C [float] to a
    [double] gives it: the fraction of a NaN moves to the leading 23 of
    the 52 bits, with the quiet bit set. *)
Definition float_of_bits32 (bits : Z) : pyfloat :=
  if f32_is_nan bits
  then NaN (f32_sign bits) (Z.shiftl (Z.lor (f32_fraction bits) (2 ^ 22)) 29)
  else Number (float_of_f32 (decode_f32 bits)).

(** The binary32 pattern of a [float], as [astype('float32')] gives it:
    the leading 23 bits of the fraction of a NaN are kept, with the quiet
    bit set. *)
Definition bits32_of_float (x : pyfloat) : Z :=
  match x with
  | NaN sign fraction =>
      (if sign then 2 ^ 31 else 0) + 255 * 2 ^ 23
      + Z.lor (Z.shiftr fraction 29) (2 ^ 22)
  | Number x => encode_f32 (f32_of_float x)
  end.

(** One ['f'] of [struct.unpack], on the four bytes of the field. *)
Definition unpack_f (field : list byte) : pyfloat :=
  float_of_bits32 (le_to_Z field).

(** One item of [astype('float32').tobytes()]. *)
Definition pack_f32 (x : pyfloat) : list byte :=
  Z_to_le 4 (bits32_of_float x).

(** [struct.unpack("ffff", byte)]: the buffer must hold 16 bytes. *)
Definition unpack_ffff (buffer : list byte) : result (list pyfloat) :=
  match buffer with
  | [b0; b1; b2; b3; b4; b5; b6; b7; b8; b9; b10; b11; b12; b13; b14; b15] =>
      Ok [unpack_f [b0; b1; b2; b3]; unpack_f [b4; b5; b6; b7];
          unpack_f [b8; b9; b10; b11]; unpack_f [b12; b13; b14; b15]]
  | _ => Raise StructError
  end.

(** The reading loop: [byte = f.read(16)] while it is not empty.  Every
    turn takes bytes off the file, so as many turns as the file has bytes
    are enough ([read_records_complete]). *)
Fixpoint read_records (fuel : nat) (f : list byte) (list_pcd : list (list pyfloat))
    : result (list (list pyfloat)) :=
  match fuel with
  | O => Ok list_pcd
  | S fuel' =>
      match take 16 f with
      | [] => Ok list_pcd
      | byte =>
          match unpack_ffff byte with
          | Ok xyzi => read_records fuel' (drop 16 f) (list_pcd ++ [xyzi])
          | Raise e => Raise e
          end
      end
  end.

(** [np_pcd.astype('float32').tobytes()] *)
Definition tobytes_float32 (np_pcd : list (list pyfloat)) : list byte :=
  concat ((fun row => concat (pack_f32 <$> row)) <$> np_pcd).

Definition newline : string := String (Ascii.ascii_of_nat 10) EmptyString.

(** [write_header]: the lines, each followed by a newline. *)
Definition write_header (width height : Z) : string :=
  String.concat ""
    ((fun line => (line ++ newline)%string) <$>
     ["VERSION 0.7";
      "FIELDS x y z intensity";
      "SIZE 4 4 4 4";
      "TYPE F F F F";
      "COUNT 1 1 1 1";
      "WIDTH " ++ str_of_Z width;
      "HEIGHT " ++ str_of_Z height;
      "VIEWPOINT 0 0 0 1 0 0 0";
      "POINTS " ++ str_of_Z (width * height);
      "DATA binary"]%string).

(** [path.replace(".bin", ".pcd")] *)
Fixpoint replace_bin (path : string) : string :=
  match path with
  | String "." (String "b" (String "i" (String "n" rest))) =>
      String "." (String "p" (String "c" (String "d" (replace_bin rest))))
  | String c rest => String c (replace_bin rest)
  | EmptyString => EmptyString
  end.

(** *** The disk

    The disk is given by its files, each under its path.  A directory is
    there exactly when a file lies in it or below it: the disk holds no
    empty directory.  Paths are taken as they are written, with [/]
    between their parts. *)

(** The directories a path goes through: for [a/b/c] these are [a] and
    [a/b]. *)
Fixpoint ancestors (p : string) : list string :=
  match p with
  | EmptyString => []
  | String c rest =>
      (if Ascii.eqb c "/" then [EmptyString] else []) ++ (String c <$> ancestors rest)
  end.

(** The directory a path lies in; it is empty for a bare name. *)
Definition parent (p : string) : string := List.last (ancestors p) EmptyString.

(** The name of a path inside its directory is empty: the path ends with
    [/]. *)
Fixpoint ends_with_slash (p : string) : bool :=
  match p with
  | EmptyString => false
  | String c EmptyString => Ascii.eqb c "/"
  | String _ rest => ends_with_slash rest
  end.

Definition dir_exists (disk : gmap string (list byte)) (d : string) : bool :=
  existsb (fun k => startswith k (d ++ "/")) (fst <$> map_to_list disk).

(** The [OSError] of [open] for a path it can neither read nor create. *)
Definition open_error (disk : gmap string (list byte)) (p : string) : exn :=
  if dir_exists disk p || ends_with_slash p then LibraryError "IsADirectoryError"
  else if existsb (fun a => bool_decide (is_Some (disk !! a))) (ancestors p)
  then LibraryError "NotADirectoryError"
  else LibraryError "FileNotFoundError".

(** [open(p, "w")] succeeds: the file is there, or it can be created in
    the directory it lies in. *)
Definition writable (disk : gmap string (list byte)) (p : string) : bool :=
  bool_decide (is_Some (disk !! p))
  || (String.eqb (parent p) "" || dir_exists disk (parent p))
     && negb (dir_exists disk p) && negb (ends_with_slash p).

(** [convert_bin_to_pcd] on a disk of raw files. *)
Definition convert_bin_to_pcd (path : string) (delete_source : bool)
    : M (gmap string (list byte)) string := fun disk =>
  match disk !! path with
  | None => (disk, Raise (open_error disk path))
  | Some f =>
      match read_records (length f) f [] with
      | Raise e => (disk, Raise e)
      | Ok np_pcd =>
          let pcd_filename := replace_bin path in
          if writable disk pcd_filename then
            (* open(pcd_filename, "w") *)
            let disk :=
              <[pcd_filename :=
                  list_byte_of_string (write_header (Z.of_nat (length np_pcd)) 1)]> disk in
            (* open(pcd_filename, "ab") *)
            let disk :=
              <[pcd_filename :=
                  default [] (disk !! pcd_filename) ++ tobytes_float32 np_pcd]> disk in
            let disk := if delete_source then delete path disk else disk in
            (disk, Ok pcd_filename)
          else (disk, Raise (open_error disk pcd_filename))
      end
  end.

(** A NaN whose quiet bit, bit 22 of the pattern, is not set. *)
Definition is_signalling_nan (bits : Z) : bool :=
  f32_is_nan bits && negb (Z.testbit bits 22).

(** A field as the conversion writes it: a signalling NaN with its quiet
    bit set, any other field as it is. *)
Definition quieten (field : list byte) : list byte :=
  if is_signalling_nan (le_to_Z field)
  then Z_to_le 4 (le_to_Z field + 2 ^ 22)
  else field.

(** The four fields of a record, each as the conversion writes it. *)
Definition quieten_record (record : list byte) : list byte :=
  quieten (take 4 record) ++ quieten (take 4 (drop 4 record)) ++
  quieten (take 4 (drop 8 record)) ++ quieten (take 4 (drop 12 record)).

(** A record of 16 bytes. *)
Definition is_complete_record (record : list byte) : bool :=
  (length record =? 16)%nat.

(** None of the four fields of the record is a signalling NaN. *)
Definition is_plain_record (record : list byte) : bool :=
  negb (is_signalling_nan (le_to_Z (take 4 record))) &&
  negb (is_signalling_nan (le_to_Z (take 4 (drop 4 record)))) &&
  negb (is_signalling_nan (le_to_Z (take 4 (drop 8 record)))) &&
  negb (is_signalling_nan (le_to_Z (take 4 (drop 12 record)))).

(** The header the specification gives for [n] points, line by line. *)
Definition pcd_header_text (n : Z) : string :=
  String.concat newline
    ["VERSION 0.7";
     "FIELDS x y z intensity";
     "SIZE 4 4 4 4";
     "TYPE F F F F";
     "COUNT 1 1 1 1";
     "WIDTH " ++ str_of_Z n;
     "HEIGHT 1";
     "VIEWPOINT 0 0 0 1 0 0 0";
     "POINTS " ++ str_of_Z n;
     "DATA binary";
     ""]%string.

(** ** ImageListReader: iteration, paths and filtering *)

(** [l[i]] on a Python list: a negative index counts from the end. *)
Definition list_getitem {A : Type} (l : list A) (i : Z) : result A :=
  let j := if i <? 0 then i + Z.of_nat (length l) else i in
  if j <? 0 then Raise IndexError
  else match l !! Z.to_nat j with
       | Some x => Ok x
       | None => Raise IndexError
       end.

Module ImageListReaderMethods.
Section WithLibraries.
Variable os_sorted : list string -> list string.
Variable shuffle : list string -> list string.

Definition get_path (self : ImageListReader.t) (i : Z) : result string :=
  list_getitem (ImageListReader._source_path self) i.

Definition get_image (self : ImageListReader.t) (i : Z) : result string :=
  list_getitem (ImageListReader._source_path self) i.

(** The generator of [__iter__] run to its end over the indices [idxs]:
    the tuples it yields, and the exception that ended it, if one did. *)
Fixpoint yield_images (self : ImageListReader.t) (idxs : list Z)
    : list (string * string * Z) * option exn :=
  match idxs with
  | [] => ([], None)
  | i :: rest =>
      match get_image self i with
      | Raise e => ([], Some e)
      | Ok image =>
          match get_path self i with
          | Raise e => ([], Some e)
          | Ok path =>
              let '(yielded, e) := yield_images self rest in
              ((image, path, i) :: yielded, e)
          end
      end
  end.

Definition __iter__ (self : ImageListReader.t) : list (string * string * Z) * option exn :=
  match ImageListReader.frame_range self with
  | Raise e => ([], Some e)
  | Ok r => yield_images self (range_items r)
  end.

Definition __contains__ (self : ImageListReader.t) (media_file : string) : bool :=
  bool_decide (media_file ∈ ImageListReader._source_path self).

(** [filter] rebuilds the reader over the paths the callback accepts, with
    the limits the reader has.  An exception of [__init__] leaves the
    reader as it was. *)
Definition filter (callback : string -> bool) (self : ImageListReader.t)
    : result ImageListReader.t :=
  ImageListReader.__init__ os_sorted shuffle
    (List.filter callback (ImageListReader._source_path self))
    (ImageListReader._step self) (ImageListReader._start self)
    (Some (ImageListReader._stop self))
    (ImageListReader._dimension self) (ImageListReader._sorting_method self).

(** [[self.get_path(idx) for idx, _ in enumerate(self._source_path)]] *)
Fixpoint paths_from (self : ImageListReader.t) (idx : Z) (n : nat) : result (list string) :=
  match n with
  | O => Ok []
  | S n' =>
      match get_path self idx with
      | Raise e => Raise e
      | Ok path =>
          match paths_from self (idx + 1) n' with
          | Raise e => Raise e
          | Ok paths => Ok (path :: paths)
          end
      end
  end.

Definition absolute_source_paths (self : ImageListReader.t) : result (list string) :=
  paths_from self 0 (length (ImageListReader._source_path self)).

End WithLibraries.
End ImageListReaderMethods.

(** ** VideoReaderWithManifest: iteration *)

Module VideoReaderWithManifestMethods.
Section WithLibraries.
Variable av_open : string -> result Video.
(** [container.seek(offset=timestamp, stream=video_stream)]: the frames
    the decoder yields for the opened video after the seek. *)
Variable seek : Video -> Z -> list VideoFrame.
Variable rotate_image : VideoFrame -> Z -> VideoFrame.

(** The frame as it is yielded: the frame made from the rotated array when
    the stream is rotated; its timestamp is not copied over. *)
Definition exposed_frame (video : Video) (frame : VideoFrame) : VideoFrame :=
  match video_rotate video with
  | Some angle => rotate_image frame (360 - angle)
  | None => frame
  end.

(** The loop over [zip(stream_decoder, frame_counter)], run to its end. *)
Fixpoint decode_loop (video : Video) (frames : list VideoFrame)
    (frame_number next_frame_filter_frame : Z) (frame_filter_iter : list Z)
    : list VideoFrame :=
  match frames with
  | [] => []
  | frame :: frames' =>
      if frame_number =? next_frame_filter_frame then
        let frame := exposed_frame video frame in
        match frame_filter_iter with
        | [] => [frame]
        | next :: rest =>
            frame :: decode_loop video frames' (frame_number + 1) next rest
        end
      else decode_loop video frames' (frame_number + 1) next_frame_filter_frame
             frame_filter_iter
  end.

(** [iterate_frames(frame_filter=...)], consumed to the end. *)
Definition iterate_frames (self : VideoReaderWithManifest.t) (frame_filter : list Z)
    : result (list VideoFrame) :=
  match frame_filter with
  | [] => Ok []
  | next_frame_filter_frame :: frame_filter_iter =>
      match VideoReaderWithManifest._get_nearest_left_key_frame self
              next_frame_filter_frame with
      | Raise e => Raise e
      | Ok (start_decode_frame_number, start_decode_timestamp) =>
          match av_open (VideoReaderWithManifest.source_path self) with
          | Raise e => Raise e
          | Ok video =>
              Ok (decode_loop video (seek video start_decode_timestamp)
                    start_decode_frame_number next_frame_filter_frame frame_filter_iter)
          end
      end
  end.

End WithLibraries.
End VideoReaderWithManifestMethods.

(** ** Point clouds: [ValidateDimension.get_pcd_properties] *)

(** The lines a binary file yields when it is iterated: each line ends
    with its newline, except the last when the file does not end with
    one. *)
Fixpoint file_lines (fp : list byte) : list (list byte) :=
  match fp with
  | [] => []
  | b :: fp' =>
      if Byte.eqb b x0a then [b] :: file_lines fp'
      else match file_lines fp' with
           | [] => [[b]]
           | line :: lines => (b :: line) :: lines
           end
  end.

(** [pattern in s] *)
Fixpoint str_contains (pattern s : string) : bool :=
  startswith s pattern ||
  match s with
  | EmptyString => false
  | String _ s' => str_contains pattern s'
  end.

(** [k, v = line.split(" ", maxsplit=1)]: the parts before and after the
    first space, when there is one. *)
Fixpoint split_space (line : string) : option (string * string) :=
  match line with
  | EmptyString => None
  | String c line' =>
      if Ascii.eqb c " " then Some (EmptyString, line')
      else match split_space line' with
           | Some (k, v) => Some (String c k, v)
           | None => None
           end
  end.

(** The white space [str.strip] removes, among the first 256 code points. *)
Definition is_space (c : ascii) : bool :=
  let n := nat_of_ascii c in
  ((9 <=? n) && (n <=? 13) || (28 <=? n) && (n <=? 32) || (n =? 133) || (n =? 160))%nat.

Fixpoint lstrip (s : string) : string :=
  match s with
  | EmptyString => EmptyString
  | String c s' => if is_space c then lstrip s' else s
  end.

Fixpoint rstrip (s : string) : string :=
  match s with
  | EmptyString => EmptyString
  | String c s' =>
      match rstrip s' with
      | EmptyString => if is_space c then EmptyString else String c EmptyString
      | kept => String c kept
      end
  end.

(** [s.strip()] *)
Definition strip (s : string) : string := rstrip (lstrip s).

(** What [get_pcd_properties] returns: the dictionary, [True], or [None]. *)
Inductive pcd_properties : Type :=
| Properties (kv : gmap string string)
| VersionTrue
| NoProperties.

Definition pcd_version : list string :=
  ["0.7"; "0.6"; "0.5"; "0.4"; "0.3"; "0.2"; "0.1";
   ".7"; ".6"; ".5"; ".4"; ".3"; ".2"; ".1"]%string.

Section GetPcdProperties.
(** [line.decode("utf-8")] *)
Variable decode_utf8 : list byte -> result string.

(** The loop over the lines of the file. *)
Fixpoint read_properties (lines : list (list byte)) (kv : gmap string string)
    : result (gmap string string) :=
  match lines with
  | [] => Ok kv
  | line :: lines' =>
      match decode_utf8 line with
      | Raise e => Raise e
      | Ok line =>
          if startswith line "#" then read_properties lines' kv
          else
            match split_space line with
            | None => Raise (ValueError "not enough values to unpack (expected 2, got 1)")
            | Some (k, v) =>
                let kv := <[k := strip v]> kv in
                if str_contains "DATA" line then Ok kv
                else read_properties lines' kv
            end
      end
  end.

Definition get_pcd_properties (fp : list byte) (verify_version : bool)
    : result pcd_properties :=
  match read_properties (file_lines fp) ∅ with
  | Raise AttributeError => Ok NoProperties
  | Raise e => Raise e
  | Ok kv =>
      if verify_version then
        match kv !! "VERSION"%string with
        | Some version =>
            if bool_decide (version ∈ pcd_version) then Ok VersionTrue
            else Ok NoProperties
        | None => Ok NoProperties
        end
      else Ok (Properties kv)
  end.

End GetPcdProperties.

(** ** Media types *)

(** [files_to_ignore]: [True] for a path that holds none of the names. *)
Definition files_to_ignore (directory : string) : bool :=
  let ignore_files := ["__MSOSX"; "._.DS_Store"; "__MACOSX"; ".DS_Store"]%string in
  if negb (existsb (fun ignore_file => str_contains ignore_file directory) ignore_files)
  then true
  else false.

Module MediaTypes.
Section WithLibraries.
(** [mimetypes.guess_type]: the type and the encoding, and [os.path.isdir]. *)
Variable guess_type : string -> option string * option string.
Variable isdir : string -> bool.

(** [x in names] for a value that may be [None]. *)
Definition option_in (x : option string) (names : list string) : bool :=
  match x with
  | Some name => bool_decide (name ∈ names)
  | None => false
  end.

Definition _is_archive (path : string) : bool :=
  let mime := guess_type path in
  let mime_type := fst mime in
  let encoding := snd mime in
  let supportedArchives :=
    ["application/x-rar-compressed"; "application/x-tar"; "application/x-7z-compressed";
     "application/x-cpio"; "application/gzip"; "application/x-bzip"]%string in
  option_in mime_type supportedArchives || option_in encoding supportedArchives.

Definition _is_video (path : string) : bool :=
  match fst (guess_type path) with
  | Some mime_type => startswith mime_type "video"
  | None => false
  end.

Definition _is_image (path : string) : bool :=
  match fst (guess_type path) with
  | Some mime_type =>
      (* Exclude vector graphic images because Pillow cannot work with them *)
      startswith mime_type "image" && negb (startswith mime_type "image/svg")
  | None => false
  end.

Definition _is_dir (path : string) : bool := isdir path.

Definition _is_pdf (path : string) : bool :=
  bool_decide (fst (guess_type path) = Some "application/pdf"%string).

Definition _is_zip (path : string) : bool :=
  let mime := guess_type path in
  let mime_type := fst mime in
  let encoding := snd mime in
  let supportedArchives := ["application/zip"]%string in
  option_in mime_type supportedArchives || option_in encoding supportedArchives.

(** The names of [MEDIA_TYPES] with their [has_mime_type], in the order of
    the dictionary. *)
Definition MEDIA_TYPES : list (string * (string -> bool)) :=
  [("image", _is_image); ("video", _is_video); ("archive", _is_archive);
   ("directory", _is_dir); ("pdf", _is_pdf); ("zip", _is_zip)]%string.

Fixpoint first_type (types : list (string * (string -> bool))) (name : string) : string :=
  match types with
  | [] => "unknown"
  | (type_name, has_mime_type) :: types' =>
      if has_mime_type name then type_name else first_type types' name
  end.

Definition get_mime (name : string) : string := first_type MEDIA_TYPES name.

End WithLibraries.
End MediaTypes.

(** ** ZipReader *)

Module ZipReader.
Section WithLibraries.
Variable os_sorted : list string -> list string.
Variable shuffle : list string -> list string.
Variable guess_type : string -> option string * option string.
Variable isdir : string -> bool.

(** [__init__] on the opened archive, given by [namelist()]: the reader
    over the names that are kept. *)
Definition __init__ (namelist : list string) (step start : Z) (stop : option Z)
    (dimension : DimensionType) (sorting_method : SortingMethod)
    : result ImageListReader.t :=
  let file_list :=
    List.filter
      (fun f => files_to_ignore f
                && bool_decide (MediaTypes.get_mime guess_type isdir f = "image"%string))
      namelist in
  ImageListReader.__init__ os_sorted shuffle file_list step start stop dimension
    sorting_method.

End WithLibraries.
End ZipReader.

(** ** Short names, invariants, and the inputs of the examples *)

Module RAI := RandomAccessIterator.
Module CMI := CachingMediaIterator.
Module ILR := ImageListReader.
Module ILRM := ImageListReaderMethods.

Module VRMM := VideoReaderWithManifestMethods.

Module VRM := VideoReaderWithManifest.
Module VR := VideoReader.
Module MP4 := Mpeg4ChunkWriter.
Module MP4C := Mpeg4CompressedChunkWriter.
Module ZIP := ZipChunkWriter.
Module ZIPC := ZipCompressedChunkWriter.

Section RandomAccessSpec.
Context {T : Type}.
Implicit Types (self : RAI.t T) (idx : Z).

(** A live iterator has yielded exactly the first [pos + 1] items. *)
Definition rai_inv self : Prop :=
  match RAI.iterator self with
  | None => RAI.pos self = -1
  | Some rest =>
      -1 <= RAI.pos self /\
      rest = drop (Z.to_nat (RAI.pos self + 1)) (RAI.iterable self)
  end.

(** The cursor never passes the end of the source. *)
Definition rai_wf self : Prop :=
  rai_inv self /\ RAI.pos self < Z.of_nat (length (RAI.iterable self)).

(** What the loop does from a live iterator at cursor [p]. *)
Definition after_loop (src : list T) (p idx : Z) (v : option T)
    : RAI.t T * result (option T) :=
  if idx <? Z.of_nat (length src) then
    (RAI.Build src (Some (drop (Z.to_nat (idx + 1)) src)) (Z.max p idx),
     Ok (if p <? idx then src !! Z.to_nat idx else v))
  else
    (RAI.Build src (Some []) (Z.of_nat (length src) - 1), Raise StopIteration).

(** The result of an access is decided by the source and the index. *)
Definition getitem_result (src : list T) (idx : Z) : result (option T) :=
  if 0 <=? idx then
    match src !! Z.to_nat idx with
    | Some x => Ok (Some x)
    | None => Raise StopIteration
    end
  else Raise AssertionError.

End RandomAccessSpec.

Section CachingSpec.
Context {T : Type} `{Sized T}.
Implicit Types (self : CMI.t T).

(** The size [_get_object_size] gives an item. *)
Definition object_size (callback : option (T -> Z)) (o : T) : Z :=
  match callback with
  | Some f => f o
  | None => get_size o
  end.

(** The limits, the callback and the tracked memory are the ones of
    [self]. *)
Definition same_settings self self' : Prop :=
  CMI.max_cache_entries self' = CMI.max_cache_entries self /\
  CMI.max_cache_memory self' = CMI.max_cache_memory self /\
  CMI._get_object_size_callback self' = CMI._get_object_size_callback self /\
  CMI.used_cache_memory self' = CMI.used_cache_memory self.

(** Both limits hold of the state. *)
Definition within_limits self : Prop :=
  CMI.used_cache_memory self <= CMI.max_cache_memory self /\
  CMI.cache_len self <= CMI.max_cache_entries self.

(** What every reachable state satisfies: the tracked memory is the
    initial [0], and a cache that holds an entry is within the limits. *)
Definition cmi_inv self : Prop :=
  CMI.used_cache_memory self = 0 /\
  (CMI._cache self = ∅ \/ within_limits self).

End CachingSpec.

(** A media object for the examples: a blob that knows its byte count. *)
Record Blob : Type := blob { blob_bytes : N }.

#[export] Instance Blob_sized : Sized Blob := fun b => Z.of_N (blob_bytes b).

(** [n] made even by going up, as [_add_video_stream] does for the width
    and the height. *)
Definition even_up (n : Z) : Z := if n mod 2 =? 0 then n else n + 1.

(** Libraries and a world for the examples: one packet per encoded frame,
    no transformation of images, and no file on disk. *)
Definition example_libraries : Libraries VideoFrame :=
  {| exif_transpose := fun img => img;
     pil_save := fun _ _ _ => Ok [];
     splitext := fun path => (path, ""%string);
     zip_bytes := fun _ => [];
     pcd_width_height := fun _ => Ok (0, 1);
     compress_image := fun _ _ => Ok (0, 0, []);
     image_open_size := fun _ => Ok (0, 0);
     has_libopenh264 := true;
     encode := fun _ frame => match frame with Some f => [f] | None => [] end |}.

Definition empty_world : World VideoFrame := {| files := ∅; av_log := [] |}.

(** ** Iteration and cache coherence *)

Section IterationSpec.
Context {T : Type}.

(** [n] calls of [next] in a row, with what each of them returned. *)
Fixpoint next_calls (n : nat) (self : RAI.t T) : list (result (option T)) :=
  match n with
  | O => []
  | S n' => let '(self', r) := RAI.__next__ self in r :: next_calls n' self'
  end.

End IterationSpec.

Section CoherenceSpec.
Context {T : Type} `{Sized T}.

(** The base iterator runs over [src], and every entry of the cache holds
    the item of [src] at its key together with the size of that item. *)
Definition cache_coherent (src : list T) (callback : option (T -> Z)) (self : CMI.t T) : Prop :=
  RAI.iterable (CMI.base self) = src /\
  rai_wf (CMI.base self) /\
  CMI._get_object_size_callback self = callback /\
  forall k item, CMI._cache self !! k = Some item ->
    0 <= k /\
    exists x, src !! Z.to_nat k = Some x /\
              item = CMI.CacheItem (Some x) (object_size callback x).

End CoherenceSpec.

(** ** Frames and their selection *)

(** A frame without its timestamp. *)
Definition clear_pts (frame : VideoFrame) : VideoFrame :=
  {| frame_width := frame_width frame; frame_height := frame_height frame;
     frame_pts := None; frame_time_base := frame_time_base frame;
     frame_image := frame_image frame |}.

(** The last frame number the configured filter of a reader lets through,
    for a video of [n] frames. *)
Definition last_configured (stop : option Z) (n : Z) : Z :=
  match stop with
  | None => n - 1
  | Some stop => if stop =? 0 then n - 1 else Z.min stop (n - 1)
  end.

(** The bound of the configured filter: a stop of [None] or [0] is none. *)
Definition configured_bound (stop : option Z) : option Z :=
  match stop with
  | None => None
  | Some stop => if stop =? 0 then None else Some stop
  end.

(** A list of frame numbers in which each is larger than the one before. *)
Fixpoint strictly_ascending (ids : list Z) : bool :=
  match ids with
  | a :: (b :: _) as rest => (a <? b) && strictly_ascending rest
  | _ => true
  end.

(** ** What the writers leave behind *)

(** A frame as [_encode_images] gives it to the stream: without timestamp
    and time base. *)
Definition unstamped (frame : VideoFrame) : VideoFrame :=
  {| frame_width := frame_width frame; frame_height := frame_height frame;
     frame_pts := None; frame_time_base := None;
     frame_image := frame_image frame |}.

(** The packets of a stream that is given [frames] one by one after the
    frames [encoded], and is then flushed. *)
Fixpoint stream_packets {Packet : Type} (lib : Libraries Packet)
    (frames encoded : list VideoFrame) : list Packet :=
  match frames with
  | [] => encode lib encoded None
  | frame :: frames' =>
      encode lib encoded (Some frame) ++ stream_packets lib frames' (encoded ++ [frame])
  end.

(** The entries of an archive of compressed frames, numbered from [idx]. *)
Definition jpeg_entries (idx : nat) (compressed : list (Z * Z * list byte))
    : list (string * list byte) :=
  imap (fun i r => ((format_06d (idx + i)%nat ++ "." ++ ZIP.IMAGE_EXT)%string, snd r))
    compressed.

(** Libraries for the examples in which [_compress_image] takes streams
    only: a path makes its assertion fail. *)
Definition stream_only_libraries : Libraries VideoFrame :=
  {| exif_transpose := fun img => img;
     pil_save := fun _ _ _ => Ok [];
     splitext := fun path => (path, ""%string);
     zip_bytes := fun _ => [];
     pcd_width_height := fun _ => Ok (0, 1);
     compress_image := fun image _ =>
       match image with
       | MBytesIO data => Ok (0, 0, data)
       | _ => Raise AssertionError
       end;
     image_open_size := fun _ => Ok (0, 0);
     has_libopenh264 := false;
     encode := fun _ frame => match frame with Some f => [f] | None => [] end |}.

(** The media the plain zip writer archives from their path: an image
    that needs no rotation and is no TIFF, a path, or a video frame. *)
Definition written_from_path (image : Media) : bool :=
  match image with
  | MImage img =>
      negb (has_exif_rotation img || bool_decide (img_format img = Some "TIFF"%string))
  | MStr _ | MFrame _ => true
  | MBytesIO _ | MFile _ => false
  end.

(** The entries of an archive of files taken as they are, numbered from
    [idx]: each is named by the index and the extension of its path. *)
Definition file_entries {Packet : Type} (lib : Libraries Packet) (idx : nat)
    (sources : list (string * list byte)) : list (string * list byte) :=
  imap (fun i source =>
          ((format_06d (idx + i)%nat ++ "." ++ remove_dots (snd (splitext lib (fst source))))%string,
           snd source))
       sources.

(** ** Classes of characters *)

Fixpoint string_forall (p : ascii -> bool) (s : string) : bool :=
  match s with
  | EmptyString => true
  | String c s' => p c && string_forall p s'
  end.

Definition is_digit (c : ascii) : bool :=
  ((48 <=? nat_of_ascii c) && (nat_of_ascii c <=? 57))%nat.

(** A code point that UTF-8 writes as the one byte of the same value. *)
Definition is_ascii (c : ascii) : bool := (nat_of_ascii c <? 128)%nat.

(** The decoder of the examples: it takes the bytes below 128 only. *)
Definition decode_ascii (line : list byte) : result string :=
  if forallb (fun b => (Byte.to_nat b <? 128)%nat) line
  then Ok (string_of_list_byte line)
  else Raise (LibraryError "UnicodeDecodeError").

(** The lines of the header [write_header] writes for [n] points in one
    row, and the dictionary they spell. *)
Definition header_lines (n : Z) : list string :=
  ["VERSION 0.7";
   "FIELDS x y z intensity";
   "SIZE 4 4 4 4";
   "TYPE F F F F";
   "COUNT 1 1 1 1";
   "WIDTH " ++ str_of_Z n;
   "HEIGHT 1";
   "VIEWPOINT 0 0 0 1 0 0 0";
   "POINTS " ++ str_of_Z n;
   "DATA binary"]%string.

Definition header_properties (n : Z) : gmap string string :=
  <["DATA" := "binary"]>
  (<["POINTS" := str_of_Z n]>
  (<["VIEWPOINT" := "0 0 0 1 0 0 0"]>
  (<["HEIGHT" := "1"]>
  (<["WIDTH" := str_of_Z n]>
  (<["COUNT" := "1 1 1 1"]>
  (<["TYPE" := "F F F F"]>
  (<["SIZE" := "4 4 4 4"]>
  (<["FIELDS" := "x y z intensity"]>
  (<["VERSION" := "0.7"]> ∅)))))))))%string.

(** * Proofs *)

(** Case analysis on every integer comparison of the goal. *)
Ltac zbool :=
  repeat match goal with
  | |- context [?a <? ?b] => destruct (Z.ltb_spec a b)
  | |- context [?a <=? ?b] => destruct (Z.leb_spec a b)
  | |- context [?a >? ?b] => rewrite (Z.gtb_ltb a b)
  | |- context [?a =? ?b] => destruct (Z.eqb_spec a b)
  end; try lia.

(** ** The definitions on small inputs *)

Example range_len_up : range_len (Range 0 10 3) = 4.
Proof. reflexivity. Qed.

Example range_len_down : range_len (Range 5 0 (-2)) = 3.
Proof. reflexivity. Qed.

Example range_items_step : range_items (Range 1 5 2) = [1; 3].
Proof. reflexivity. Qed.

Example sorted_lexicographic :
  sorted ["img2.png"; "img10.png"; "img1.png"]%string
  = ["img1.png"; "img10.png"; "img2.png"]%string.
Proof. reflexivity. Qed.

Example random_access_backwards :
  snd (RAI.__getitem__ 0 (RAI.run (RAI.__init__ ["a"; "b"; "c"]%string) [RAI.Getitem 2]))
  = Ok (Some "a"%string).
Proof. reflexivity. Qed.

Example random_access_past_end :
  RAI.__getitem__ 5 (RAI.__init__ ["a"; "b"]%string)
  = (RAI.Build ["a"; "b"]%string (Some []) 1, Raise StopIteration).
Proof. reflexivity. Qed.

Example cache_evicts_smallest_index :
  let self := CMI.run (CMI.__init__ [blob 1; blob 1; blob 1] 10 2 None) [1; 0; 2] in
  CMI._cache self !! 0 = None /\ size (CMI._cache self) = 2%nat.
Proof. vm_compute. split; reflexivity. Qed.

Example bisect_between : bisect [Entry 0 0; Entry 50 7; Entry 100 9] 75 = Ok 2.
Proof. reflexivity. Qed.

Example bisect_on_key : bisect [Entry 0 0; Entry 50 7; Entry 100 9] 50 = Ok 2.
Proof. reflexivity. Qed.

Example iterate_configured_frames :
  let video := {| video_frames := [Frame 4 2 (Some 0) None 0; Frame 4 2 (Some 1) None 1;
                                   Frame 4 2 (Some 2) None 2; Frame 4 2 (Some 3) None 3;
                                   Frame 4 2 (Some 4) None 4];
                  video_rotate := None |} in
  snd (VR.iterate_frames (fun _ => Ok video) (fun f _ => f) FilterTrue
         (VR.__init__ ["v.mp4"%string] 2 1 (Some 3) DIM_2D false))
  = Ok [(Frame 4 2 (Some 1) None 1, "v.mp4"%string, Some 1);
        (Frame 4 2 (Some 3) None 3, "v.mp4"%string, Some 3)].
Proof. reflexivity. Qed.

Example format_06d_pads : format_06d 4 = "000004"%string.
Proof. reflexivity. Qed.

Example default_quality :
  MP4._image_quality (MP4.__init__ example_libraries 67) = 17.
Proof. reflexivity. Qed.

Example encode_two_frames :
  av_log (fst (MP4.save_as_chunk example_libraries (MP4.__init__ example_libraries 67)
                 [(Frame 3 5 (Some 0) None 1, "v"%string, Some 0);
                  (Frame 3 5 (Some 9) None 2, "v"%string, Some 9)]
                 "chunk.mp4" empty_world))
  = [AvOpen "chunk.mp4" "mp4";
     AvAddStream "libopenh264" 25 "yuv420p" 4 6
       [("profile", "constrained_baseline"); ("qmin", "17"); ("qmax", "17");
        ("rc_mode", "buffer")]%string;
     AvMux (Frame 3 5 None None 1);
     AvMux (Frame 3 5 None None 2);
     AvCloseStream;
     AvClose "chunk.mp4"].
Proof. reflexivity. Qed.

Example downscale_2160 : MP4C.downscale (Z.to_nat 2160) 2160 1 = 4.
Proof. vm_compute. reflexivity. Qed.

Example replace_bin_ext : replace_bin "scan/0001.bin" = "scan/0001.pcd"%string.
Proof. reflexivity. Qed.

(** ** RandomAccessIterator *)

Section RandomAccessProofs.
Context {T : Type}.
Implicit Types (self : RAI.t T) (idx : Z).

Lemma rai_inv_init (src : list T) : rai_inv (RAI.__init__ src).
Proof. reflexivity. Qed.

Lemma rai_inv_close self : rai_inv (RAI.close self).
Proof. reflexivity. Qed.

Lemma rai_inv_reset self : rai_inv (RAI.reset self).
Proof. unfold rai_inv; simpl. split; [lia | reflexivity]. Qed.

Lemma while_pos_fuel (fuel : nat) (src : list T) (p idx : Z) (v : option T) :
  -1 <= p < Z.of_nat (length src) ->
  idx - p <= Z.of_nat fuel ->
  (Z.of_nat (length src) <= idx \/ p <= idx) ->
  RAI.while_pos fuel idx v
    (RAI.Build src (Some (drop (Z.to_nat (p + 1)) src)) p)
  = if p <? idx then after_loop src p idx v
    else (RAI.Build src (Some (drop (Z.to_nat (p + 1)) src)) p, Ok v).
Proof.
  revert p v. induction fuel as [|fuel IH]; intros p v Hp Hfuel Hidx.
  - simpl. destruct (Z.ltb_spec p idx); [lia | reflexivity].
  - simpl. destruct (Z.ltb_spec p idx) as [Hlt|Hge]; [|reflexivity].
    unfold RAI.next_item; simpl.
    destruct (src !! Z.to_nat (p + 1)) as [x|] eqn:Hx.
    + apply lookup_lt_Some in Hx as Hlen.
      rewrite (drop_S _ _ _ Hx).
      replace (S (Z.to_nat (p + 1))) with (Z.to_nat (p + 1 + 1)) by lia.
      rewrite IH by lia.
      unfold after_loop. zbool; try reflexivity.
      * replace (Z.max (p + 1) idx) with (Z.max p idx) by lia. reflexivity.
      * assert (idx = p + 1) as -> by lia.
        replace (Z.max p (p + 1)) with (p + 1) by lia.
        rewrite Hx. reflexivity.
    + apply lookup_ge_None in Hx.
      rewrite drop_ge by lia.
      unfold after_loop.
      destruct (Z.ltb_spec idx (Z.of_nat (length src))); [lia|].
      repeat f_equal. lia.
Qed.

Lemma getitem_fresh (src : list T) idx :
  0 <= idx ->
  RAI.while_pos (Z.to_nat (idx - -1)) idx None (RAI.Build src (Some src) (-1))
  = after_loop src (-1) idx None.
Proof.
  intros Hidx.
  pose proof (while_pos_fuel (Z.to_nat (idx - -1)) src (-1) idx None) as Hw.
  change (drop (Z.to_nat (-1 + 1)) src) with src in Hw. rewrite Hw by lia.
  destruct (Z.ltb_spec (-1) idx); [reflexivity | lia].
Qed.

Lemma getitem_spec self idx :
  rai_inv self -> RAI.pos self < Z.of_nat (length (RAI.iterable self)) ->
  0 <= idx ->
  RAI.__getitem__ idx self =
    after_loop (RAI.iterable self)
      (if match RAI.iterator self with None => true | Some _ => false end
          || (idx <=? RAI.pos self) then -1 else RAI.pos self) idx None.
Proof.
  intros Hinv Hpos Hidx. unfold RAI.__getitem__.
  destruct (Z.leb_spec 0 idx); [|lia].
  destruct self as [src it p]; simpl in *.
  unfold rai_inv in Hinv; simpl in Hinv.
  destruct it as [rest|]; simpl.
  - destruct Hinv as [Hp ->].
    destruct (Z.leb_spec idx p).
    + apply getitem_fresh; lia.
    + cbn [RAI.pos]. rewrite while_pos_fuel by lia.
      destruct (Z.ltb_spec p idx); [reflexivity | lia].
  - apply getitem_fresh; lia.
Qed.

Lemma after_loop_result (src : list T) (p idx : Z) :
  0 <= idx -> p < idx ->
  snd (after_loop src p idx None) = getitem_result src idx.
Proof.
  intros Hidx Hp. unfold after_loop, getitem_result.
  destruct (Z.leb_spec 0 idx); [|lia].
  destruct (Z.ltb_spec idx (Z.of_nat (length src))) as [Hlt|Hge]; simpl.
  - destruct (Z.ltb_spec p idx); [|lia].
    destruct (lookup_lt_is_Some_2 src (Z.to_nat idx)) as [x ->]; [lia | reflexivity].
  - rewrite (proj2 (lookup_ge_None src (Z.to_nat idx))) by lia. reflexivity.
Qed.

Lemma rai_wf_init (src : list T) : rai_wf (RAI.__init__ src).
Proof. split; [reflexivity | simpl; lia]. Qed.

Lemma rai_wf_reset self : rai_wf (RAI.reset self).
Proof. split; [apply rai_inv_reset | simpl; lia]. Qed.

Lemma rai_wf_close self : rai_wf (RAI.close self).
Proof. split; [reflexivity | simpl; lia]. Qed.

Lemma after_loop_wf (src : list T) (p idx : Z) :
  p < idx -> 0 <= idx ->
  rai_wf (fst (after_loop src p idx None)) /\
  RAI.iterable (fst (after_loop src p idx None)) = src.
Proof.
  intros Hp Hidx. unfold after_loop, rai_wf, rai_inv.
  destruct (Z.ltb_spec idx (Z.of_nat (length src))); simpl.
  - replace (Z.max p idx) with idx by lia. repeat split; lia.
  - repeat split; try lia. rewrite drop_ge by lia. reflexivity.
Qed.

Lemma getitem_wf self idx :
  rai_wf self ->
  rai_wf (fst (RAI.__getitem__ idx self)) /\
  RAI.iterable (fst (RAI.__getitem__ idx self)) = RAI.iterable self.
Proof.
  intros [Hinv Hpos].
  destruct (Z.le_gt_cases 0 idx) as [Hidx|Hidx].
  - rewrite getitem_spec by assumption.
    apply after_loop_wf; [|assumption].
    destruct (RAI.iterator self); simpl; zbool.
  - unfold RAI.__getitem__. zbool. simpl. repeat split; assumption.
Qed.

Lemma getitem_result_spec self idx :
  rai_wf self ->
  snd (RAI.__getitem__ idx self) = getitem_result (RAI.iterable self) idx.
Proof.
  intros [Hinv Hpos].
  destruct (Z.le_gt_cases 0 idx) as [Hidx|Hidx].
  - rewrite getitem_spec by assumption.
    apply after_loop_result; [assumption|].
    destruct (RAI.iterator self); simpl; zbool.
  - unfold RAI.__getitem__, getitem_result. zbool. reflexivity.
Qed.

Lemma getitem_not_None self idx :
  rai_wf self -> snd (RAI.__getitem__ idx self) <> Ok None.
Proof.
  intros Hwf. rewrite getitem_result_spec by assumption.
  unfold getitem_result. destruct (0 <=? idx); [|discriminate].
  destruct (_ !! _); discriminate.
Qed.

Lemma step_wf self (c : RAI.call) :
  rai_wf self ->
  rai_wf (RAI.step self c) /\ RAI.iterable (RAI.step self c) = RAI.iterable self.
Proof.
  intros Hwf. destruct c; simpl.
  - apply getitem_wf, Hwf.
  - apply getitem_wf, Hwf.
  - split; [apply rai_wf_reset | reflexivity].
  - split; [apply rai_wf_close | reflexivity].
Qed.

Lemma run_wf (cs : list RAI.call) self :
  rai_wf self ->
  rai_wf (RAI.run self cs) /\ RAI.iterable (RAI.run self cs) = RAI.iterable self.
Proof.
  revert self. induction cs as [|c cs IH]; intros self Hwf; simpl.
  - split; [assumption | reflexivity].
  - destruct (step_wf self c Hwf) as [Hwf' Hsrc].
    destruct (IH _ Hwf') as [? ->]. split; assumption.
Qed.

(** C7: an access returns the item the source holds at the index (or the
    exception of an index out of the source), whatever calls came before
    it, so two histories that end in the same index return equal values;
    and an access at or before the cursor is the access made after a
    restart: a fresh iterator is advanced over the items before the index,
    the cursor ends on the index and the item there is returned. *)
Theorem C7_getitem_independent_of_history
    (src : list T) (before before' : list RAI.call) (idx : Z) :
  let self := RAI.run (RAI.__init__ src) before in
  let self' := RAI.run (RAI.__init__ src) before' in
  snd (RAI.__getitem__ idx self) = snd (RAI.__getitem__ idx self') /\
  snd (RAI.__getitem__ idx self) = getitem_result src idx /\
  (0 <= idx <= RAI.pos self ->
     RAI.__getitem__ idx self = RAI.__getitem__ idx (RAI.reset self) /\
     RAI.__getitem__ idx self =
       RAI.while_pos (Z.to_nat (idx + 1)) idx None (RAI.Build src (Some src) (-1)) /\
     RAI.__getitem__ idx self =
       (RAI.Build src (Some (drop (Z.to_nat (idx + 1)) src)) idx,
        Ok (src !! Z.to_nat idx)) /\
     is_Some (src !! Z.to_nat idx)).
Proof.
  intros self self'.
  destruct (run_wf before _ (rai_wf_init src)) as [Hwf Hsrc].
  destruct (run_wf before' _ (rai_wf_init src)) as [Hwf' Hsrc'].
  fold self in Hwf, Hsrc. fold self' in Hwf', Hsrc'. simpl in Hsrc, Hsrc'.
  rewrite !getitem_result_spec by assumption. rewrite Hsrc, Hsrc'.
  split; [reflexivity|]. split; [reflexivity|].
  intros [Hidx Hpos].
  destruct Hwf as [Hinv Hlen]. rewrite Hsrc in Hlen.
  assert (RAI.__getitem__ idx self = after_loop src (-1) idx None) as Hget.
  { rewrite getitem_spec by (rewrite ?Hsrc; assumption). rewrite Hsrc.
    destruct (RAI.iterator self); simpl; zbool; reflexivity. }
  assert (RAI.__getitem__ idx (RAI.reset self) = after_loop src (-1) idx None) as Hreset.
  { rewrite getitem_spec; simpl; rewrite ?Hsrc; try lia; [|apply rai_inv_reset].
    destruct (idx <=? -1); reflexivity. }
  rewrite Hget, Hreset.
  split; [reflexivity|]. split.
  { symmetry. replace (idx + 1) with (idx - -1) by lia. apply getitem_fresh, Hidx. }
  unfold after_loop. zbool. replace (Z.max (-1) idx) with idx by lia.
  split; [reflexivity|]. apply lookup_lt_is_Some_2. lia.
Qed.

End RandomAccessProofs.

Lemma C7_getitem_independent_of_history_witness :
RAI.__getitem__ 1 (RAI.run (RAI.__init__ [10; 20; 30]) [RAI.Getitem 2])
= (RAI.Build [10; 20; 30] (Some [30]) 1, Ok (Some 20)).
Proof.
apply (C7_getitem_independent_of_history [10; 20; 30] [RAI.Getitem 2] [] 1).
simpl. lia.
Defined.

(** ** CachingMediaIterator *)

Section CachingProofs.
Context {T : Type} `{Sized T}.
Implicit Types (self : CMI.t T) (c : gmap Z (CMI._CacheItem T)) (idx : Z).

Lemma foldr_min_spec (l : list Z) :
  match foldr (fun k acc => Some (match acc with Some m => Z.min k m | None => k end)) None l with
  | None => l = []
  | Some k => k ∈ l /\ forall k', k' ∈ l -> k <= k'
  end.
Proof.
  induction l as [|a l IH]; simpl; [reflexivity|].
  destruct (foldr _ None l) as [m|].
  - destruct IH as [Hin Hmin]. split.
    + destruct (Z.min_spec a m) as [[_ ->]|[_ ->]]; [left | right; assumption].
    + intros k' [->|Hk']%elem_of_cons; [lia|]. specialize (Hmin _ Hk'). lia.
  - subst l. split; [left|]. intros k' ->%list_elem_of_singleton. lia.
Qed.

Lemma min_key_None c : CMI.min_key c = None <-> c = ∅.
Proof.
  unfold CMI.min_key. pose proof (foldr_min_spec (fst <$> map_to_list c)) as Hs.
  split.
  - intros Hn. rewrite Hn in Hs. apply fmap_nil_inv in Hs.
    apply map_to_list_empty_iff, Hs.
  - intros ->. rewrite map_to_list_empty. reflexivity.
Qed.

Lemma min_key_Some c k :
  CMI.min_key c = Some k ->
  is_Some (c !! k) /\ forall k', is_Some (c !! k') -> k <= k'.
Proof.
  unfold CMI.min_key. pose proof (foldr_min_spec (fst <$> map_to_list c)) as Hs.
  intros Hk. rewrite Hk in Hs. destruct Hs as [Hin Hmin]. split.
  - apply list_elem_of_fmap in Hin as [[k0 x] [-> Hin]].
    apply elem_of_map_to_list in Hin. simpl. eauto.
  - intros k' [x Hx]. apply Hmin. apply list_elem_of_fmap.
    exists (k', x). split; [reflexivity|]. apply elem_of_map_to_list, Hx.
Qed.

Lemma set_cache_id self : CMI.set_cache self (CMI._cache self) = self.
Proof. destruct self; reflexivity. Qed.

(** The eviction loop with enough fuel: either it ends with room for one
    more entry of the given size, or it has emptied the cache and [min]
    raised. *)
Lemma evict_fuel (fuel : nat) (value_size : Z) self :
  (size (CMI._cache self) < fuel)%nat ->
  match CMI.evict fuel value_size self with
  | (self', Ok _) =>
      exists c', self' = CMI.set_cache self c' /\
      c' ⊆ CMI._cache self /\
      Z.of_nat (size c') + 1 <= CMI.max_cache_entries self /\
      CMI.used_cache_memory self + value_size <= CMI.max_cache_memory self
  | (self', Raise e) =>
      self' = CMI.set_cache self ∅ /\
      e = ValueError "min() arg is an empty sequence" /\
      (CMI.max_cache_entries self < 1 \/
       CMI.max_cache_memory self < CMI.used_cache_memory self + value_size)
  end.
Proof.
  revert self. induction fuel as [|fuel IH]; intros self Hfuel; [lia|].
  simpl.
  destruct (_ || _) eqn:Hcond.
  - destruct (CMI.min_key (CMI._cache self)) as [k|] eqn:Hk.
    + apply min_key_Some in Hk as [Hin _].
      pose proof (map_size_delete_Some k (CMI._cache self) Hin) as Hsz.
      pose proof (map_size_ne_0_lookup_2 (CMI._cache self) k Hin) as Hnz.
      specialize (IH (CMI.set_cache self (delete k (CMI._cache self)))).
      cbn [CMI._cache CMI.set_cache] in IH.
      specialize (IH ltac:(lia)).
      destruct (CMI.evict fuel value_size _) as [self' [[]|e]].
      * destruct IH as (c' & -> & Hsub & Hlen & Hmem).
        exists c'. repeat split; try assumption.
        etransitivity; [exact Hsub | apply delete_subseteq].
      * destruct IH as (-> & -> & Hwhy). repeat split. exact Hwhy.
    + apply min_key_None in Hk. rewrite <- Hk, set_cache_id.
      repeat split.
      rewrite !Z.gtb_ltb in Hcond.
      apply orb_true_iff in Hcond as [Hc%Z.ltb_lt|Hc%Z.ltb_lt]; [left | right].
      * unfold CMI.cache_len in Hc. rewrite Hk, map_size_empty in Hc. lia.
      * lia.
  - rewrite !Z.gtb_ltb in Hcond.
    apply orb_false_iff in Hcond as [Hc1%Z.ltb_ge Hc2%Z.ltb_ge].
    exists (CMI._cache self). rewrite set_cache_id.
    repeat split; try reflexivity; unfold CMI.cache_len in *; lia.
Qed.

(** The body of [__getitem__] on a miss, branch by branch. *)
Lemma getitem_miss idx self :
  CMI._cache self !! idx = None ->
  CMI.__getitem__ idx self =
    match RAI.__getitem__ idx (CMI.base self) with
    | (b, Raise e) => (CMI.set_base self b, Raise e)
    | (b, Ok None) => (CMI.set_base self b, Raise AttributeError)
    | (b, Ok (Some o)) =>
        let vs := object_size (CMI._get_object_size_callback self) o in
        match CMI.evict (S (size (CMI._cache self))) vs (CMI.set_base self b) with
        | (self', Raise e) => (self', Raise e)
        | (self', Ok _) =>
            if CMI.used_cache_memory self' + vs <=? CMI.max_cache_memory self'
            then (CMI.set_cache self' (<[idx := CMI.CacheItem (Some o) vs]> (CMI._cache self')),
                  Ok (Some o))
            else (self', Ok (Some o))
        end
    end.
Proof.
  intros Hmiss. unfold CMI.__getitem__. rewrite Hmiss.
  unfold bind at 1. unfold CMI.super_getitem.
  destruct (RAI.__getitem__ idx (CMI.base self)) as [b [[o|]|e]]; try reflexivity.
  unfold bind at 1. unfold CMI._get_object_size, object_size.
  cbn [CMI._get_object_size_callback CMI.set_base].
  destruct (CMI._get_object_size_callback self) as [f|];
    (unfold bind at 1, get; unfold bind at 1;
     cbn [CMI._cache CMI.set_base];
     destruct (CMI.evict _ _ _) as [self' [[]|e]]; [|reflexivity];
     unfold bind, get, modify, ret;
     destruct (_ <=? _); reflexivity).
Qed.

(** A miss whose item is larger than the byte budget: the loop empties the
    cache and the [min] of no keys raises; the item is not returned. *)
Lemma getitem_oversize_raises idx self (b : RAI.t T) (o : T) :
  CMI._cache self !! idx = None ->
  RAI.__getitem__ idx (CMI.base self) = (b, Ok (Some o)) ->
  CMI.max_cache_memory self
    < CMI.used_cache_memory self + object_size (CMI._get_object_size_callback self) o ->
  CMI.__getitem__ idx self
  = (CMI.set_cache (CMI.set_base self b) ∅,
     Raise (ValueError "min() arg is an empty sequence")).
Proof.
  intros Hmiss Hbase Hbig.
  rewrite getitem_miss by assumption. rewrite Hbase. cbv zeta.
  pose proof (evict_fuel (S (size (CMI._cache self)))
                (object_size (CMI._get_object_size_callback self) o)
                (CMI.set_base self b) ltac:(simpl; lia)) as He.
  destruct (CMI.evict _ _ _) as [self' [[]|e]].
  - destruct He as (c' & _ & _ & _ & Hmem). simpl in Hmem. lia.
  - destruct He as (-> & -> & _). reflexivity.
Qed.

(** One access keeps the invariant and the settings, and ends within the
    limits unless the index is not in the cache. *)
Lemma getitem_inv idx self :
  (forall o, 0 <= object_size (CMI._get_object_size_callback self) o) ->
  cmi_inv self ->
  let self' := fst (CMI.__getitem__ idx self) in
  cmi_inv self' /\ same_settings self self' /\
  (within_limits self' \/ CMI._cache self' !! idx = None).
Proof.
  intros Hsize [Hused Hinv].
  assert (same_settings self self) as Hrefl by (repeat split).
  destruct (CMI._cache self !! idx) as [item|] eqn:Hidx.
  { unfold CMI.__getitem__. rewrite Hidx. cbn [fst].
    assert (CMI._cache self <> ∅) as Hne.
    { intros Hemp. rewrite Hemp, lookup_empty in Hidx. discriminate. }
    destruct Hinv as [?|Hlim]; [contradiction|].
    split; [split; [assumption | right; assumption]|].
    split; [assumption | left; assumption]. }
  rewrite getitem_miss by assumption.
  destruct (RAI.__getitem__ idx (CMI.base self)) as [b [[o|]|e]]; cbn [fst].
  2, 3: split; [split; assumption|]; split; [assumption | right; assumption].
  cbv zeta.
  set (vs := object_size (CMI._get_object_size_callback self) o).
  assert (0 <= vs) as Hvs by apply Hsize.
  pose proof (evict_fuel (S (size (CMI._cache self))) vs
                (CMI.set_base self b) ltac:(simpl; lia)) as He.
  destruct (CMI.evict _ _ _) as [self' [[]|e]].
  - destruct He as (c' & -> & Hsub & Hlen & Hmem).
    cbn [CMI._cache CMI.set_base CMI.set_cache CMI.max_cache_entries
           CMI.max_cache_memory CMI.used_cache_memory] in *.
    destruct (Z.leb_spec (CMI.used_cache_memory self + vs) (CMI.max_cache_memory self));
      [|lia].
    cbn [fst]. unfold cmi_inv, within_limits, same_settings, CMI.cache_len.
    cbn [CMI._cache CMI.set_base CMI.set_cache CMI.max_cache_entries
           CMI.max_cache_memory CMI.used_cache_memory CMI._get_object_size_callback].
    pose proof (map_size_insert idx (CMI.CacheItem (Some o) vs) c') as Hins.
    assert (Z.of_nat (size (<[idx := CMI.CacheItem (Some o) vs]> c'))
            <= CMI.max_cache_entries self) as Hle.
    { destruct (c' !! idx); unfold id in Hins; lia. }
    split; [split; [assumption | right; split; [lia | assumption]]|].
    split; [repeat split | left; split; [lia | assumption]].
  - destruct He as (-> & -> & _). cbn [fst].
    unfold cmi_inv, same_settings.
    cbn [CMI._cache CMI.set_base CMI.set_cache CMI.max_cache_entries
           CMI.max_cache_memory CMI.used_cache_memory CMI._get_object_size_callback].
    split; [split; [assumption | left; reflexivity]|].
    split; [repeat split | right; apply lookup_empty].
Qed.

Lemma run_inv (idxs : list Z) self :
  (forall o, 0 <= object_size (CMI._get_object_size_callback self) o) ->
  cmi_inv self ->
  cmi_inv (CMI.run self idxs) /\ same_settings self (CMI.run self idxs).
Proof.
  revert self. induction idxs as [|i idxs IH]; intros self Hsize Hinv; simpl.
  - split; [exact Hinv|]. unfold same_settings. repeat split.
  - destruct (getitem_inv i self Hsize Hinv) as (Hinv' & Hs & _).
    destruct Hs as (He & Hm & Hc & Hu).
    destruct (IH (fst (CMI.__getitem__ i self))) as (Hinv'' & He' & Hm' & Hc' & Hu').
    { rewrite Hc. exact Hsize. }
    { exact Hinv'. }
    split; [exact Hinv''|]. unfold same_settings. repeat split; congruence.
Qed.

(** After every access of any sequence of accesses, the tracked memory is
    at most [max_cache_memory] and the cache holds at most
    [max_cache_entries] entries, or the index just accessed is not in the
    cache, for item sizes that are not negative.  The tracked memory is
    the field of the object, which no access assigns
    ([used_cache_memory_always_zero]): the statement bounds the number of
    entries, not the bytes held. *)
Lemma tracked_limits_or_not_cached
    (src : list T) (max_cache_memory max_cache_entries : Z)
    (object_size_callback : option (T -> Z)) (idxs : list Z) (idx : Z) :
  (forall o, 0 <= object_size object_size_callback o) ->
  let self :=
    CMI.run (CMI.__init__ src max_cache_memory max_cache_entries object_size_callback) idxs in
  let self' := fst (CMI.__getitem__ idx self) in
  (CMI.used_cache_memory self' <= max_cache_memory /\
   Z.of_nat (size (CMI._cache self')) <= max_cache_entries)
  \/ CMI._cache self' !! idx = None.
Proof.
  intros Hsize self self'.
  destruct (run_inv idxs
              (CMI.__init__ src max_cache_memory max_cache_entries object_size_callback))
    as (Hinv & He & Hm & Hc & Hu).
  { exact Hsize. }
  { split; [reflexivity | left; reflexivity]. }
  fold self in Hinv, He, Hm, Hc, Hu. simpl in He, Hm, Hc, Hu.
  destruct (getitem_inv idx self) as (_ & (He' & Hm' & _) & Hlim).
  { rewrite Hc. exact Hsize. }
  { exact Hinv. }
  fold self' in He', Hm', Hlim.
  destruct Hlim as [[Hmem Hlen]|Hnone]; [left | right; exact Hnone].
  unfold CMI.cache_len in Hlen. split; congruence.
Qed.

End CachingProofs.

Example tracked_limits_or_not_cached_example :
  let self' :=
    fst (CMI.__getitem__ 1 (CMI.run (CMI.__init__ [blob 6; blob 3] 10 5 None) [0])) in
  (CMI.used_cache_memory self' <= 10 /\ Z.of_nat (size (CMI._cache self')) <= 5)
  \/ CMI._cache self' !! 1 = None.
Proof.
  apply (tracked_limits_or_not_cached [blob 6; blob 3] 10 5 None [0] 1).
  intros o. unfold object_size, get_size, Blob_sized. lia.
Qed.

(** The tracked memory of a reachable state is the [0] it was given at
    construction: no access assigns the field. *)
Lemma used_cache_memory_always_zero {T : Type} `{Sized T}
    (src : list T) (max_cache_memory max_cache_entries : Z)
    (object_size_callback : option (T -> Z)) (idxs : list Z) :
  CMI.used_cache_memory
    (CMI.run (CMI.__init__ src max_cache_memory max_cache_entries object_size_callback) idxs)
  = 0.
Proof.
  generalize (CMI.__init__ src max_cache_memory max_cache_entries object_size_callback)
    (eq_refl : CMI.used_cache_memory
                 (CMI.__init__ src max_cache_memory max_cache_entries object_size_callback) = 0).
  induction idxs as [|i idxs IH]; intros self Hself; simpl; [exact Hself|].
  apply IH.
  destruct (CMI._cache self !! i) as [item|] eqn:Hi.
  - unfold CMI.__getitem__. rewrite Hi. exact Hself.
  - rewrite getitem_miss by exact Hi.
    destruct (RAI.__getitem__ i (CMI.base self)) as [b [[o|]|e]]; try exact Hself.
    cbv zeta.
    pose proof (evict_fuel (S (size (CMI._cache self)))
                  (object_size (CMI._get_object_size_callback self) o)
                  (CMI.set_base self b) ltac:(simpl; lia)) as He.
    destruct (CMI.evict _ _ _) as [self' [[]|e]].
    + destruct He as (c' & -> & _). destruct (_ <=? _); exact Hself.
    + destruct He as (-> & _). exact Hself.
Qed.

(** C2, at a cache of budget 10 and 5 entries over one blob of 6 bytes:
    the access of index 0 returns the blob, and after it the blob is in the
    cache, the entries sum to 6 bytes, and the tracked memory is still 0. *)
Theorem C2_used_memory_not_updated :
  let accessed := CMI.__getitem__ 0 (CMI.__init__ [blob 6] 10 5 None) in
  snd accessed = Ok (Some (blob 6)) /\
  CMI._cache (fst accessed) !! 0 = Some (CMI.CacheItem (Some (blob 6)) 6) /\
  CMI.cached_bytes (fst accessed) = 6 /\
  CMI.used_cache_memory (fst accessed) = 0.
Proof. vm_compute. repeat split. Qed.

(** C1, at a cache of budget 10 and 5 entries over two blobs of 6 bytes:
    after the access of index 0, the access of index 1 returns the second
    blob and stores it, and the cache then holds both blobs, 12 bytes in
    all, more than the budget of 10: the memory in use exceeds
    [max_cache_memory] although the value of the access was cached. *)
Theorem C1_cached_bytes_exceed_budget :
  let self := CMI.run (CMI.__init__ [blob 6; blob 6] 10 5 None) [0] in
  let accessed := CMI.__getitem__ 1 self in
  snd accessed = Ok (Some (blob 6)) /\
  CMI._cache (fst accessed) !! 1 = Some (CMI.CacheItem (Some (blob 6)) 6) /\
  CMI._cache (fst accessed) !! 0 = Some (CMI.CacheItem (Some (blob 6)) 6) /\
  CMI.cached_bytes (fst accessed) = 12 /\
  CMI.max_cache_memory (fst accessed) = 10 /\
  CMI.cached_bytes (fst accessed) > CMI.max_cache_memory (fst accessed).
Proof. vm_compute. repeat split. Qed.

(** C3, at a cache of budget 10 and 5 entries over one blob of 11 bytes:
    the access of index 0 raises the [ValueError] of [min] over no keys
    instead of returning the blob. *)
Theorem C3_oversize_item_raises :
  CMI.__getitem__ 0 (CMI.__init__ [blob 11] 10 5 None)
  = (CMI.Build (RAI.Build [blob 11] (Some []) 0) 5 10 None 0 ∅,
     Raise (ValueError "min() arg is an empty sequence")).
Proof. vm_compute. reflexivity. Qed.

(** ** ImageListReader *)

Section ImageListProofs.
Variables os_sorted shuffle : list string -> list string.

Lemma range_items_length (r : py_range) :
  Z.of_nat (length (range_items r)) = Z.max 0 (range_len r).
Proof. unfold range_items. rewrite length_fmap, length_seq. lia. Qed.

Lemma init_fields (source_path : list string) (step start : Z) (stop : option Z)
    (dimension : DimensionType) (sorting_method : SortingMethod) (reader : ILR.t) :
  ILR.__init__ os_sorted shuffle source_path step start stop dimension sorting_method
    = Ok reader ->
  source_path <> [] /\
  ILR._start reader = start /\
  ILR._stop reader = stop_in_effect (Z.of_nat (length source_path)) stop /\
  ILR._step reader = Z.max step 1 /\
  start <= ILR._stop reader.
Proof.
  unfold ILR.__init__. destruct source_path as [|p0 rest]; [discriminate|].
  fold (stop_in_effect (Z.of_nat (length (p0 :: rest))) stop).
  rewrite Z.geb_leb.
  destruct (Z.leb_spec start (stop_in_effect (Z.of_nat (length (p0 :: rest))) stop));
    [|discriminate].
  intros [= <-]. simpl. repeat split; try assumption. discriminate.
Qed.

(** C5, as the code has it: the length of a reader that was built is the
    length of [range(start, stop + 1, step)] where [stop] is the last index
    of the source when it is not supplied or supplied as [0], and the
    smaller of the supplied [stop] and the last index otherwise, and where
    a [step] below 1 counts as 1. *)
Theorem C5_len_is_range_len (source_path : list string) (step start : Z)
    (stop : option Z) (dimension : DimensionType) (sorting_method : SortingMethod)
    (reader : ILR.t) :
  ILR.__init__ os_sorted shuffle source_path step start stop dimension sorting_method
    = Ok reader ->
  ILR.__len__ reader
  = Ok (range_len
          (Range start (stop_in_effect (Z.of_nat (length source_path)) stop + 1)
                 (Z.max step 1))).
Proof.
  intros Hinit. apply init_fields in Hinit as (_ & Hstart & Hstop & Hstep & _).
  unfold ILR.__len__, ILR.frame_range, range. rewrite Hstart, Hstop, Hstep.
  destruct (Z.eqb_spec (Z.max step 1) 0); [lia | reflexivity].
Qed.

End ImageListProofs.

Lemma C5_len_is_range_len_witness :
  ILR.__len__ (ILR.Build ["a"; "b"; "c"; "d"; "e"]%string 2 1 4 DIM_2D PREDEFINED)
  = Ok 2.
Proof.
  apply (C5_len_is_range_len (fun l => l) (fun l => l)
           ["a"; "b"; "c"; "d"; "e"]%string 2 1 (Some 9) DIM_2D PREDEFINED).
  reflexivity.
Defined.

(** The claim as the specification words it fails for a supplied [stop] of
    [0]: over three images with [start = 0], [stop = 0], [step = 1] the
    reader has length 3, and [range(0, 0 + 1, 1)] has length 1. *)
Lemma C5_stop_zero_counterexample :
  exists reader,
    ILR.__init__ (fun l => l) (fun l => l) ["a"; "b"; "c"]%string 1 0 (Some 0)
      DIM_2D PREDEFINED = Ok reader /\
    ILR.__len__ reader = Ok 3 /\
    range_len (Range 0 (stop_as_specified 3 (Some 0) + 1) 1) = 1 /\
    ILR.__len__ reader
      <> Ok (range_len (Range 0 (stop_as_specified 3 (Some 0) + 1) 1)).
Proof.
  eexists. split; [reflexivity|]. split; [reflexivity|]. split; [reflexivity|].
  discriminate.
Qed.

(** ** The nearest keyframe on the left *)

Lemma is_ascending_head (e : ManifestEntry) (a : list ManifestEntry) :
  is_ascending (e :: a) = true ->
  is_ascending a = true /\ Forall (fun e' => number e <= number e') a.
Proof.
  revert e. induction a as [|e2 a IH]; intros e Hasc.
  - split; [reflexivity | constructor].
  - simpl in Hasc. apply andb_true_iff in Hasc as [Hle%Z.leb_le Hrest].
    split; [exact Hrest|].
    constructor; [exact Hle|].
    destruct (IH e2 Hrest) as [_ Hall].
    eapply Forall_impl; [exact Hall|]. simpl. intros e' He'. lia.
Qed.

Lemma is_ascending_lookup (a : list ManifestEntry) :
  is_ascending a = true ->
  forall (i j : nat) (ei ej : ManifestEntry),
    (i <= j)%nat -> a !! i = Some ei -> a !! j = Some ej -> number ei <= number ej.
Proof.
  induction a as [|e a IH]; intros Hasc i j ei ej Hij Hi Hj; [discriminate|].
  apply is_ascending_head in Hasc as [Hrest Hall].
  destruct i as [|i], j as [|j]; simpl in Hi, Hj.
  - inversion Hi; inversion Hj; subst. lia.
  - inversion Hi; subst.
    rewrite Forall_forall in Hall. apply Hall.
    apply list_elem_of_lookup. eauto.
  - lia.
  - apply (IH Hrest i j); [lia | assumption | assumption].
Qed.

(** The binary search ends on the position that splits the index into the
    entries at or before [x] and the entries after it. *)
Lemma bisect_loop_spec (a : list ManifestEntry) (x : Z) (fuel : nat) (lo hi : Z) :
  is_ascending a = true ->
  0 <= lo <= hi -> hi <= Z.of_nat (length a) -> hi - lo <= Z.of_nat fuel ->
  (forall (i : nat) e, Z.of_nat i < lo -> a !! i = Some e -> number e <= x) ->
  (forall (i : nat) e, hi <= Z.of_nat i -> a !! i = Some e -> x < number e) ->
  exists p, bisect_loop fuel a x lo hi = Ok p /\ lo <= p <= hi /\
    (forall (i : nat) e, Z.of_nat i < p -> a !! i = Some e -> number e <= x) /\
    (forall (i : nat) e, p <= Z.of_nat i -> a !! i = Some e -> x < number e).
Proof.
  intros Hasc. revert lo hi.
  induction fuel as [|fuel IH]; intros lo hi Hlo Hhi Hfuel Hleft Hright.
  - exists lo. simpl. split; [reflexivity|]. split; [lia|].
    split; [exact Hleft|]. intros i e Hi. apply Hright. lia.
  - simpl. destruct (Z.ltb_spec lo hi) as [Hlt|Hge].
    2: { exists lo. split; [reflexivity|]. split; [lia|].
         split; [exact Hleft|]. intros i e Hi. apply Hright. lia. }
    assert (lo <= (lo + hi) / 2 < hi) as Hmid.
    { split; [apply Z.div_le_lower_bound | apply Z.div_lt_upper_bound]; lia. }
    set (mid := (lo + hi) / 2) in *.
    destruct (lookup_lt_is_Some_2 a (Z.to_nat mid) ltac:(lia)) as [e He].
    rewrite He.
    destruct (Z.ltb_spec x (number e)) as [Hx|Hx].
    + destruct (IH lo mid) as (p & Hp & Hrange & Hl & Hr); try lia.
      * exact Hleft.
      * intros i e' Hi He'.
        pose proof (is_ascending_lookup a Hasc (Z.to_nat mid) i e e' ltac:(lia) He He').
        lia.
      * exists p. repeat split; try assumption; lia.
    + destruct (IH (mid + 1) hi) as (p & Hp & Hrange & Hl & Hr); try lia.
      * intros i e' Hi He'.
        pose proof (is_ascending_lookup a Hasc i (Z.to_nat mid) e' e ltac:(lia) He' He).
        lia.
      * exact Hright.
      * exists p. repeat split; try assumption; lia.
Qed.

Lemma bisect_spec (a : list ManifestEntry) (x : Z) :
  is_ascending a = true ->
  exists p, bisect a x = Ok p /\ 0 <= p <= Z.of_nat (length a) /\
    (forall (i : nat) e, Z.of_nat i < p -> a !! i = Some e -> number e <= x) /\
    (forall (i : nat) e, p <= Z.of_nat i -> a !! i = Some e -> x < number e).
Proof.
  intros Hasc. apply bisect_loop_spec; try assumption; try lia.
  intros i e Hi He. apply lookup_lt_Some in He. lia.
Qed.

(** C6: over an index in ascending order of frame number the lookup raises
    nothing and returns the number and timestamp of an entry at or before
    the requested frame that no other such entry exceeds; when no entry is
    at or before the request, and so when the index is empty, it returns
    frame 0 and timestamp 0; and over [(0,0), (50,T1), (100,T2)] a request
    for frame 75 gives keyframe 50. *)
Theorem C6_nearest_left_key_frame (self : VRM.t) (frame_id : Z) :
  is_ascending (VRM.manifest self) = true ->
  (exists frame_number timestamp,
     VRM._get_nearest_left_key_frame self frame_id = Ok (frame_number, timestamp) /\
     ((exists e, e ∈ VRM.manifest self /\ number e <= frame_id) ->
        exists e, e ∈ VRM.manifest self /\
          number e = frame_number /\ pts e = timestamp /\
          number e <= frame_id /\
          forall e', e' ∈ VRM.manifest self -> number e' <= frame_id ->
                     number e' <= number e) /\
     ((forall e, e ∈ VRM.manifest self -> frame_id < number e) ->
        frame_number = 0 /\ timestamp = 0)) /\
  (VRM.manifest self = [] ->
     VRM._get_nearest_left_key_frame self frame_id = Ok (0, 0)) /\
  (forall T1 T2 : Z,
     VRM.manifest self = [Entry 0 0; Entry 50 T1; Entry 100 T2] ->
     VRM._get_nearest_left_key_frame self 75 = Ok (50, T1)).
Proof.
  intros Hasc. split; [|split].
  - unfold VRM._get_nearest_left_key_frame.
    destruct (bisect_spec (VRM.manifest self) frame_id Hasc) as (p & -> & Hp & Hl & Hr).
    destruct (Z.eqb_spec p 0) as [->|Hp0]; simpl.
    + exists 0, 0. split; [reflexivity|]. split; [|tauto].
      intros (e & [i Hi]%list_elem_of_lookup & He).
      specialize (Hr i e ltac:(lia) Hi). lia.
    + unfold VRM.manifest_getitem.
      destruct (lookup_lt_is_Some_2 (VRM.manifest self) (Z.to_nat (p - 1)) ltac:(lia))
        as [e He].
      rewrite He. exists (number e), (pts e). split; [reflexivity|]. split.
      * intros _. exists e. split; [apply list_elem_of_lookup; eauto|].
        split; [reflexivity|]. split; [reflexivity|].
        split; [apply (Hl (Z.to_nat (p - 1))); [lia | exact He]|].
        intros e' [j Hj]%list_elem_of_lookup He'.
        destruct (Z.lt_ge_cases (Z.of_nat j) p) as [Hjp|Hjp].
        -- apply (is_ascending_lookup _ Hasc j (Z.to_nat (p - 1))); [lia | exact Hj | exact He].
        -- specialize (Hr j e' Hjp Hj). lia.
      * intros Hall.
        assert (e ∈ VRM.manifest self) as Hin by (apply list_elem_of_lookup; eauto).
        specialize (Hall e Hin).
        specialize (Hl (Z.to_nat (p - 1)) e ltac:(lia) He). lia.
  - unfold VRM._get_nearest_left_key_frame. intros ->. reflexivity.
  - unfold VRM._get_nearest_left_key_frame, VRM.manifest_getitem.
    intros T1 T2 ->. reflexivity.
Qed.

Lemma C6_nearest_left_key_frame_witness :
  let self := VRM.Build "video.mp4" [Entry 0 0; Entry 50 4000; Entry 100 8000] false in
  is_ascending (VRM.manifest self) = true /\
  VRM._get_nearest_left_key_frame self 75 = Ok (50, 4000).
Proof.
  intros self. split; [reflexivity|].
  exact (proj2 (proj2 (C6_nearest_left_key_frame self 75 eq_refl)) 4000 8000 eq_refl).
Defined.

(** ** VideoReader *)

Section VideoReaderProofs.
Variable rotate_image : VideoFrame -> Z -> VideoFrame.
Implicit Types (self : VR.t) (av_open : string -> result Video).

Lemma set_frame_size_id self : VR.set_frame_size self (VR._frame_size self) = self.
Proof. destruct self; reflexivity. Qed.

(** The decode loop raises nothing and assigns [_frame_size] only. *)
Lemma decode_loop_ok (video : Video) (path : string) (frames : list VideoFrame)
    (frame_number next : Z) (it : filter_iter) self :
  exists size yielded,
    VR.decode_loop rotate_image video path frames frame_number next it self
    = (VR.set_frame_size self size, Ok yielded).
Proof.
  revert frame_number next it self.
  induction frames as [|frame frames IH]; intros frame_number next it self; simpl.
  - exists (VR._frame_size self), []. rewrite set_frame_size_id. reflexivity.
  - destruct (frame_number =? next); [|apply IH].
    set (self1 := match VR._frame_size self with
                  | None => VR.set_frame_size self _
                  | Some _ => self
                  end).
    assert (exists size1, self1 = VR.set_frame_size self size1) as [size1 Hself1].
    { unfold self1. destruct (VR._frame_size self) eqn:Hs.
      - exists (Some p). rewrite <- Hs. symmetry. apply set_frame_size_id.
      - eexists. reflexivity. }
    destruct (filter_next it) as [[next' it']|].
    + destruct (IH (frame_number + 1) next' it' self1) as (size & ys & ->).
      exists size. eexists. rewrite Hself1. reflexivity.
    + exists size1. eexists. rewrite Hself1. reflexivity.
Qed.

(** With the filter of all frames, every decoded frame is yielded. *)
Lemma decode_loop_all (video : Video) (path : string) (frames : list VideoFrame)
    (k : Z) self :
  exists size yielded,
    VR.decode_loop rotate_image video path frames k k (FCount (k + 1) 1 None) self
    = (VR.set_frame_size self size, Ok yielded) /\
    length yielded = length frames.
Proof.
  revert k self. induction frames as [|frame frames IH]; intros k self; simpl.
  - exists (VR._frame_size self), []. rewrite set_frame_size_id. split; reflexivity.
  - rewrite Z.eqb_refl.
    set (self1 := match VR._frame_size self with
                  | None => VR.set_frame_size self _
                  | Some _ => self
                  end).
    assert (exists size1, self1 = VR.set_frame_size self size1) as [size1 Hself1].
    { unfold self1. destruct (VR._frame_size self) eqn:Hs.
      - exists (Some p). rewrite <- Hs. symmetry. apply set_frame_size_id.
      - eexists. reflexivity. }
    destruct (IH (k + 1) self1) as (size & ys & -> & Hlen).
    exists size. eexists. rewrite Hself1. split; [reflexivity|].
    simpl. rewrite Hlen. reflexivity.
Qed.

(** The calls other than the first count leave [_frame_count] as it is. *)
Lemma iterate_frames_frame_count av_open (f : FrameFilter) self :
  VR._frame_count (fst (VR.iterate_frames av_open rotate_image f self))
  = VR._frame_count self.
Proof.
  unfold VR.iterate_frames, bind, get, ret, raise.
  destruct (filter_next _) as [[next it]|]; [|reflexivity].
  unfold VR.source_path_0. destruct (VR._source_path self) as [|path rest]; [reflexivity|].
  destruct (av_open path) as [video|e]; [|reflexivity].
  destruct (decode_loop_ok video path (video_frames video) 0 next it self)
    as (size & ys & ->).
  reflexivity.
Qed.

Lemma get_image_size_frame_count av_open (i : Z) self :
  VR._frame_count (fst (VR.get_image_size av_open rotate_image i self))
  = VR._frame_count self.
Proof.
  unfold VR.get_image_size. unfold bind at 1. unfold get.
  destruct (VR._frame_size self); [reflexivity|].
  unfold bind at 1. unfold VR.__iter__.
  pose proof (iterate_frames_frame_count av_open FilterTrue self) as Hit.
  destruct (VR.iterate_frames av_open rotate_image FilterTrue self) as [self' [ys|e]];
    simpl in Hit; [|exact Hit].
  destruct ys as [|[[frame ?] ?] ys]; [exact Hit|].
  exact Hit.
Qed.

Lemma get_frame_count_memo av_open self (n : Z) :
  VR._frame_count self = Some n ->
  VR.get_frame_count av_open rotate_image self = (self, Ok n).
Proof. intros Hn. unfold VR.get_frame_count, bind, get, ret. rewrite Hn. reflexivity. Qed.

Lemma get_frame_count_first av_open self (path : string) (rest : list string)
    (video : Video) :
  VR._frame_count self = None ->
  VR._source_path self = path :: rest ->
  av_open path = Ok video ->
  exists size,
    VR.get_frame_count av_open rotate_image self
    = (VR.set_frame_count (VR.set_frame_size self size)
         (Some (Z.of_nat (length (video_frames video)))),
       Ok (Z.of_nat (length (video_frames video)))).
Proof.
  intros Hcount Hsrc Hopen.
  unfold VR.get_frame_count, VR.iterate_frames, VR.source_path_0, bind, get.
  rewrite Hcount. cbn [VR.make_filter filter_next]. rewrite Hsrc, Hopen.
  destruct (decode_loop_all video path (video_frames video) 0 self)
    as (size & ys & Hloop & Hall).
  rewrite Hloop. unfold modify, ret. rewrite Hall. exists size. reflexivity.
Qed.

Lemma run_keeps_frame_count (later : list ((string -> result Video) * VR.call)) self (n : Z) :
  VR._frame_count self = Some n ->
  VR._frame_count (VR.run rotate_image self later) = Some n.
Proof.
  revert self. induction later as [|[av_open c] later IH]; intros self Hn; simpl.
  - exact Hn.
  - apply IH. destruct c as [|f|i]; simpl.
    + rewrite (get_frame_count_memo av_open self n Hn). exact Hn.
    + rewrite iterate_frames_frame_count. exact Hn.
    + rewrite get_image_size_frame_count. exact Hn.
Qed.

(** C10: for a reader of any [start], [stop] and [step] over a source that
    opens, the first [get_frame_count] returns the number of frames the
    decoder yields for the whole video and stores it; after any later calls,
    in whatever state the source then is, [get_frame_count] returns that
    number and changes nothing. *)
Theorem C10_frame_count_whole_video_memoized
    (av_open : string -> result Video) (path : string) (rest : list string)
    (video : Video) (step start : Z) (stop : option Z)
    (dimension : DimensionType) (allow_threading : bool) :
  av_open path = Ok video ->
  let self := VR.__init__ (path :: rest) step start stop dimension allow_threading in
  let n := Z.of_nat (length (video_frames video)) in
  let counted := VR.get_frame_count av_open rotate_image self in
  snd counted = Ok n /\
  VR._frame_count (fst counted) = Some n /\
  forall (later : list ((string -> result Video) * VR.call))
         (av_open' : string -> result Video),
    let self' := VR.run rotate_image (fst counted) later in
    VR.get_frame_count av_open' rotate_image self' = (self', Ok n).
Proof.
  intros Hopen self n counted.
  destruct (get_frame_count_first av_open self path rest video eq_refl eq_refl Hopen)
    as [size Hfirst].
  assert (snd counted = Ok n /\ VR._frame_count (fst counted) = Some n) as [Hres Hmemo].
  { unfold counted. rewrite Hfirst. split; reflexivity. }
  split; [exact Hres|]. split; [exact Hmemo|].
  intros later av_open' self'.
  apply get_frame_count_memo, run_keeps_frame_count, Hmemo.
Qed.

End VideoReaderProofs.

Lemma C10_frame_count_whole_video_memoized_witness :
  let video := {| video_frames := [Frame 4 2 (Some 0) None 1; Frame 4 2 (Some 40) None 2;
                                   Frame 4 2 (Some 80) None 3];
                  video_rotate := None |} in
  let av_open := fun _ : string => Ok video in
  let self := VR.__init__ ["v.mp4"%string] 2 1 (Some 1) DIM_2D false in
  av_open "v.mp4"%string = Ok video /\
  snd (VR.get_frame_count av_open (fun f _ => f) self) = Ok 3.
Proof.
  intros video av_open self. split; [reflexivity|].
  apply (C10_frame_count_whole_video_memoized (fun f _ => f) av_open "v.mp4" [] video
           2 1 (Some 1) DIM_2D false).
  reflexivity.
Defined.

(** ** Chunk writers *)

Section ChunkWriterProofs.
Context {Packet : Type} (lib : Libraries Packet).
Implicit Types (world : World Packet) (self : MP4.t).

(** The loop of the compressed writer has ended when the fuel is used up:
    the factor it returns is past the height. *)
Lemma downscale_fuel (fuel : nat) (input_h factor : Z) :
  0 < factor -> input_h < 1080 * factor * 2 ^ Z.of_nat fuel ->
  input_h < 1080 * MP4C.downscale fuel input_h factor.
Proof.
  revert factor. induction fuel as [|fuel IH]; intros factor Hpos Hbound; simpl.
  - rewrite Z.pow_0_r in Hbound. lia.
  - destruct (Z.leb_spec (1080 * factor) input_h); [|lia].
    apply IH; [lia|].
    rewrite Nat2Z.inj_succ, Z.pow_succ_r in Hbound by lia. lia.
Qed.

Lemma downscale_ends (input_h : Z) :
  input_h < 1080 * MP4C.downscale (Z.to_nat input_h) input_h 1.
Proof.
  apply downscale_fuel; [lia|].
  destruct (Z.le_gt_cases 0 input_h) as [Hh|Hh].
  - rewrite Z2Nat.id by lia. pose proof (Z.pow_gt_lin_r 2 input_h ltac:(lia) Hh). lia.
  - replace (Z.to_nat input_h) with 0%nat by lia. simpl. lia.
Qed.

(** For an integer quality the quotient [51 * (100 - quality) / 99] is
    never half way between two integers: the rounding has no tie to
    break. *)
Lemma quality_round_no_tie (quality : Z) : 2 * ((51 * (100 - quality)) mod 99) <> 99.
Proof. lia. Qed.

(** A stream above the ceiling is refused before anything is added. *)
Lemma add_video_stream_refused self (w h rate : Z) (options : list (string * string)) world :
  even_up w * even_up h > Z.shiftl 36864 8 ->
  MP4._add_video_stream self w h rate options world = (world, Raise MP4.resolution_error).
Proof.
  intros Hbig. unfold MP4._add_video_stream.
  change MP4.MAX_MBS_PER_FRAME with 36864.
  assert (forall n, (if negb (n mod 2 =? 0) then n + 1 else n) = even_up n) as Heven.
  { intros n. unfold even_up. destruct (n mod 2 =? 0); reflexivity. }
  rewrite !Heven, Z.gtb_ltb.
  destruct (Z.ltb_spec (Z.shiftl 36864 8) (even_up h * even_up w)); [reflexivity | lia].
Qed.

(** C4: for every quality, when the first frame's width and height, each
    rounded up to even, multiply to more than [36864 << 8],
    [Mpeg4ChunkWriter.save_as_chunk] raises the resolution error; the
    container opened at the chunk path is closed with no stream added and no
    packet muxed, and no file is changed: nothing is written. *)
Theorem C4_resolution_overflow_raises
    (quality : Z) (frame : VideoFrame) (path : string) (pts : option Z)
    (rest : list (VideoFrame * string * option Z)) (chunk_path : string) world :
  even_up (frame_width frame) * even_up (frame_height frame) > Z.shiftl 36864 8 ->
  let result :=
    MP4.save_as_chunk lib (MP4.__init__ lib quality) ((frame, path, pts) :: rest)
      chunk_path world in
  snd result = Raise MP4.resolution_error /\
  files (fst result) = files world /\
  av_log (fst result) = av_log world ++ [AvOpen chunk_path "mp4"; AvClose chunk_path] /\
  av_written (av_log (fst result)) = av_written (av_log world).
Proof.
  intros Hbig result.
  assert (result
          = ({| files := files world;
                av_log := (av_log world ++ [AvOpen chunk_path "mp4"]) ++ [AvClose chunk_path] |},
             Raise MP4.resolution_error)) as ->.
  { unfold result, MP4.save_as_chunk, MP4._peek_first_frame, MP4.write_container.
    unfold bind at 1. unfold bind at 1. unfold emit at 1, modify.
    unfold MP4.with_exit. unfold bind at 1.
    rewrite add_video_stream_refused by exact Hbig.
    reflexivity. }
  simpl. rewrite <- app_assoc. simpl.
  repeat split. unfold av_written. rewrite List.filter_app. simpl.
  apply app_nil_r.
Qed.

(** C9, as the code has it: on an empty sequence the two video writers
    raise ['no images to save'] before a container is opened, and the world
    is untouched; the two zip writers raise nothing for it: they create an
    archive of no entries at the chunk path and return the empty list, or
    raise [FileExistsError] when the path is taken. *)
Theorem C9_empty_sequence
    self (zip_self : ZIP.t) (compress_frames : bool)
    (zip_compress_level : Z) (chunk_path : string) world :
  MP4.save_as_chunk lib self [] chunk_path world
    = (world, Raise (Exception "no images to save")) /\
  MP4C.save_as_chunk lib self [] chunk_path world
    = (world, Raise (Exception "no images to save")) /\
  ZIP.save_as_chunk lib zip_self [] chunk_path world
    = match files world !! chunk_path with
      | Some _ => (world, Raise FileExistsError)
      | None => (set_files world (<[chunk_path := ZipArchive []]> (files world)), Ok [])
      end /\
  ZIPC.save_as_chunk lib zip_self [] chunk_path compress_frames zip_compress_level world
    = match files world !! chunk_path with
      | Some _ => (world, Raise FileExistsError)
      | None => (set_files world (<[chunk_path := ZipArchive []]> (files world)), Ok [])
      end.
Proof.
  split; [reflexivity|]. split; [reflexivity|].
  unfold ZIP.save_as_chunk, ZIPC.save_as_chunk, bind, zip_create.
  destruct (files world !! chunk_path); split; reflexivity.
Qed.

End ChunkWriterProofs.

Lemma C4_resolution_overflow_raises_witness :
  let frame := Frame 4096 2305 (Some 0) None 1 in
  even_up (frame_width frame) * even_up (frame_height frame) > Z.shiftl 36864 8 /\
  snd (MP4.save_as_chunk example_libraries (MP4.__init__ example_libraries 67)
         [(frame, "v.mp4"%string, Some 0)] "chunk.mp4" empty_world)
  = Raise MP4.resolution_error.
Proof.
  intros frame. split; [reflexivity|].
  apply (C4_resolution_overflow_raises example_libraries 67 frame "v.mp4" (Some 0) []
           "chunk.mp4" empty_world).
  reflexivity.
Defined.

(** With no frames the zip writer raises nothing: it returns the empty
    list and leaves an archive of no entries at the chunk path. *)
Lemma C9_zip_writer_counterexample :
  ZIP.save_as_chunk example_libraries (ZIP.Build 100 DIM_2D) [] "chunk.zip" empty_world
  = ({| files := {["chunk.zip"%string := ZipArchive []]}; av_log := [] |}, Ok []).
Proof. reflexivity. Qed.

(** ** Point clouds *)

Example unpack_one :
  unpack_f [x00; x00; x80; x3f] = Number (S754_finite false 4503599627370496 (-52)).
Proof. reflexivity. Qed.

Example pack_one :
  pack_f32 (Number (S754_finite false 4503599627370496 (-52))) = [x00; x00; x80; x3f].
Proof. reflexivity. Qed.

Example pack_subnormal : pack_f32 (unpack_f [x01; x00; x00; x80]) = [x01; x00; x00; x80].
Proof. reflexivity. Qed.

Example pack_rounds :
  pack_f32 (Number (S754_finite false 4503599627370497 (-52))) = [x00; x00; x80; x3f].
Proof. reflexivity. Qed.

Example unpack_signalling_nan :
  unpack_f [x01; x00; x80; xff] = NaN true (Z.shiftl (4194304 + 1) 29).
Proof. reflexivity. Qed.

Example pack_signalling_nan : pack_f32 (unpack_f [x01; x00; x80; xff]) = [x01; x00; xc0; xff].
Proof. reflexivity. Qed.

Example pack_quiet_nan : pack_f32 (unpack_f [x05; x00; xc0; x7f]) = [x05; x00; xc0; x7f].
Proof. reflexivity. Qed.

Example parent_of_path : parent "scan.pcd/0001.pcd" = "scan.pcd"%string.
Proof. reflexivity. Qed.

(** *** Little-endian bytes *)

Lemma byte_val_range (b : byte) : 0 <= byte_val b < 256.
Proof. unfold byte_val. pose proof (Byte.to_N_bounded b). lia. Qed.

Lemma byte_of_Z_val (b : byte) (z : Z) : byte_of_Z (byte_val b + 256 * z) = b.
Proof.
  unfold byte_of_Z. pose proof (byte_val_range b) as Hb.
  replace ((byte_val b + 256 * z) mod 256) with (byte_val b)
    by (apply (Z.mod_unique_pos _ _ z); lia).
  unfold byte_val. rewrite N2Z.id, Byte.of_to_N. reflexivity.
Qed.

Lemma le_to_Z_range (bs : list byte) : 0 <= le_to_Z bs < 256 ^ Z.of_nat (length bs).
Proof.
  induction bs as [|b bs IH]; simpl le_to_Z; simpl length; [simpl; lia|].
  pose proof (byte_val_range b). rewrite Nat2Z.inj_succ, Z.pow_succ_r by lia. lia.
Qed.

Lemma Z_to_le_to_Z (bs : list byte) : Z_to_le (length bs) (le_to_Z bs) = bs.
Proof.
  induction bs as [|b bs IH]; simpl; [reflexivity|].
  rewrite byte_of_Z_val. f_equal.
  pose proof (byte_val_range b) as Hb.
  replace ((byte_val b + 256 * le_to_Z bs) / 256) with (le_to_Z bs); [exact IH|].
  apply (Z.div_unique_pos _ _ _ (byte_val b)); lia.
Qed.

(** *** binary32 patterns *)

Lemma encode_decode_f32 (bits : Z) :
  0 <= bits < 2 ^ 32 -> f32_is_nan bits = false ->
  encode_f32 (decode_f32 bits) = bits.
Proof.
  intros Hbits Hnan.
  unfold f32_is_nan, decode_f32, encode_f32, f32_sign, f32_exponent, f32_fraction in *.
  change (2 ^ 32) with 4294967296 in *. change (2 ^ 31) with 2147483648 in *.
  change (2 ^ 23) with 8388608 in *. change (2 ^ 22) with 4194304 in *.
  pose proof (Z.div_mod bits 2147483648 ltac:(lia)) as H31.
  pose proof (Z.mod_pos_bound bits 2147483648 ltac:(lia)) as H31b.
  pose proof (Z.div_mod bits 8388608 ltac:(lia)) as H23.
  pose proof (Z.mod_pos_bound bits 8388608 ltac:(lia)) as H23b.
  pose proof (Z.div_mod (bits / 8388608) 256 ltac:(lia)) as H8.
  pose proof (Z.mod_pos_bound (bits / 8388608) 256 ltac:(lia)) as H8b.
  assert (bits / 2147483648 = bits / 8388608 / 256) as Hs.
  { rewrite Z.div_div by lia. reflexivity. }
  assert (0 <= bits / 2147483648 <= 1) as Hsb.
  { split; [apply Z.div_pos; lia|]. apply Z.lt_succ_r, Z.div_lt_upper_bound; lia. }
  set (s := bits / 2147483648) in *.
  set (q := bits / 8388608) in *.
  set (ex := q mod 256) in *.
  set (fr := bits mod 8388608) in *.
  destruct (Z.eqb_spec ex 255) as [Hex|Hex].
  - destruct (Z.eqb_spec fr 0) as [Hfr|Hfr]; [|discriminate].
    destruct (Z.leb_spec 1 s); lia.
  - destruct (Z.eqb_spec ex 0) as [Hex0|Hex0].
    + destruct fr as [|m|m] eqn:Hfr; try lia.
      * destruct (Z.leb_spec 1 s); lia.
      * destruct (Z.ltb_spec (Z.pos m) 8388608); [|lia].
        destruct (Z.leb_spec 1 s); lia.
    + destruct (fr + 8388608) as [|m|m] eqn:Hm; try lia.
      destruct (Z.ltb_spec (Z.pos m) 8388608); [lia|].
      destruct (Z.leb_spec 1 s); lia.
Qed.

(** *** Conversions between binary32 and binary64 *)

Lemma digits2_pos_log2 (m : positive) : Z.pos (digits2_pos m) = Z.log2 (Z.pos m) + 1.
Proof.
  assert (forall p, digits2_pos p = Pos.size p) as Hsize.
  { intros p. induction p as [p IH|p IH|]; simpl; congruence. }
  destruct m as [p|p|]; simpl; rewrite ?Hsize; lia.
Qed.

Lemma digits2_pos_iter (m k : positive) :
  digits2_pos (Pos.iter xO m k) = (digits2_pos m + k)%positive.
Proof.
  induction k as [|k IH] using Pos.peano_ind.
  - simpl. lia.
  - rewrite Pos.iter_succ. simpl. rewrite IH. lia.
Qed.

Lemma iter_pos_iter {A : Type} (f : A -> A) (p : positive) (x : A) :
  SpecFloat.iter_pos f p x = Pos.iter f x p.
Proof.
  revert x. induction p as [p IH|p IH|]; intros x; simpl.
  - rewrite !IH. rewrite <- !Pos.iter_swap. reflexivity.
  - rewrite !IH. reflexivity.
  - reflexivity.
Qed.

(** Shifting right takes back the zeros a shift to the left added,
    exactly. *)
Lemma shr_iter_xO (m k : positive) :
  SpecFloat.iter_pos shr_1 k {| shr_m := Z.pos (Pos.iter xO m k); shr_r := false; shr_s := false |}
  = {| shr_m := Z.pos m; shr_r := false; shr_s := false |}.
Proof.
  rewrite iter_pos_iter.
  induction k as [|k IH] using Pos.peano_ind.
  - reflexivity.
  - rewrite Pos.iter_succ_r, Pos.iter_succ. simpl shr_1. exact IH.
Qed.

Lemma fexp32 (x : Z) : fexp 24 128 x = Z.max (x - 24) (-149).
Proof. reflexivity. Qed.

Lemma fexp64 (x : Z) : fexp 53 1024 x = Z.max (x - 53) (-1074).
Proof. reflexivity. Qed.

(** A binary32 number goes into a binary64 number and comes back as it
    was. *)
Lemma f32_of_float_of_f32 (x : spec_float) :
  valid_binary 24 128 x = true -> f32_of_float (float_of_f32 x) = x.
Proof.
  destruct x as [s|s| |s m e]; try reflexivity.
  unfold valid_binary, bounded, canonical_mantissa. rewrite fexp32.
  intros [Hcanon%Z.eqb_eq Hmax%Z.leb_le]%andb_true_iff.
  change (128 - 24) with 104 in Hmax.
  set (d := Z.pos (digits2_pos m)) in *.
  assert (1 <= d) as Hd by (unfold d; lia).
  set (k := Z.to_pos (53 - d)).
  assert (Z.pos k = 53 - d) as Hk by (unfold k; rewrite Z2Pos.id; lia).
  assert (float_of_f32 (S754_finite s m e)
          = S754_finite s (Pos.iter xO m k) (e - Z.pos k)) as ->.
  { unfold float_of_f32, convert_float.
    replace (binary_normalize 53 1024 (cond_Zopp s (Z.pos m)) e s)
      with (binary_round 53 1024 s m e) by (destruct s; reflexivity).
    unfold binary_round. rewrite fexp64. fold d.
    replace (Z.max (d + e - 53) (-1074)) with (e - Z.pos k) by lia.
    unfold shl_align. replace (e - Z.pos k - e) with (Z.neg k) by lia.
    unfold binary_round_aux, shr_fexp. simpl Zdigits2.
    rewrite digits2_pos_iter, fexp64.
    replace (Z.max (Z.pos (digits2_pos m + k) + (e - Z.pos k) - 53) (-1074) - (e - Z.pos k))
      with 0 by (fold d in Hk |- *; lia).
    simpl. rewrite digits2_pos_iter, fexp64.
    replace (Z.max (Z.pos (digits2_pos m + k) + (e - Z.pos k) - 53) (-1074) - (e - Z.pos k))
      with 0 by (fold d in Hk |- *; lia).
    simpl. destruct (Z.leb_spec (e - Z.pos k) (1024 - 53)); [reflexivity | lia]. }
  unfold f32_of_float, convert_float.
  replace (binary_normalize 24 128 (cond_Zopp s (Z.pos (Pos.iter xO m k))) (e - Z.pos k) s)
    with (binary_round 24 128 s (Pos.iter xO m k) (e - Z.pos k)) by (destruct s; reflexivity).
  unfold binary_round. rewrite fexp32, digits2_pos_iter.
  replace (Z.max (Z.pos (digits2_pos m + k) + (e - Z.pos k) - 24) (-149)) with e
    by (fold d in Hk, Hcanon |- *; lia).
  unfold shl_align. replace (e - (e - Z.pos k)) with (Z.pos k) by lia.
  unfold binary_round_aux, shr_fexp. simpl Zdigits2.
  rewrite digits2_pos_iter, fexp32.
  replace (Z.max (Z.pos (digits2_pos m + k) + (e - Z.pos k) - 24) (-149) - (e - Z.pos k))
    with (Z.pos k) by (fold d in Hk, Hcanon |- *; lia).
  unfold shr. simpl shr_record_of_loc. rewrite shr_iter_xO.
  simpl. rewrite fexp32. fold d.
  replace (e - Z.pos k + Z.pos k) with e by lia.
  replace (Z.max (d + e - 24) (-149) - e) with 0 by lia.
  simpl. destruct (Z.leb_spec e (128 - 24)); [reflexivity | lia].
Qed.

(** The value of a pattern is a binary32 number. *)
Lemma decode_f32_valid (bits : Z) :
  0 <= bits < 2 ^ 32 -> valid_binary 24 128 (decode_f32 bits) = true.
Proof.
  intros Hbits. unfold decode_f32, f32_exponent, f32_fraction.
  change (2 ^ 32) with 4294967296 in *. change (2 ^ 23) with 8388608 in *.
  pose proof (Z.mod_pos_bound bits 8388608 ltac:(lia)) as Hfr.
  pose proof (Z.mod_pos_bound (bits / 8388608) 256 ltac:(lia)) as Hex.
  set (ex := (bits / 8388608) mod 256) in *.
  set (fr := bits mod 8388608) in *.
  destruct (Z.eqb_spec ex 255); [destruct (fr =? 0); reflexivity|].
  destruct (Z.eqb_spec ex 0).
  - destruct fr as [|m|m] eqn:Hm; try reflexivity.
    unfold valid_binary, bounded, canonical_mantissa. rewrite fexp32, digits2_pos_log2.
    assert (Z.log2 (Z.pos m) < 23) by (apply Z.log2_lt_pow2; lia).
    pose proof (Z.log2_nonneg (Z.pos m)).
    apply andb_true_iff. split; [apply Z.eqb_eq; lia | reflexivity].
  - destruct (fr + 8388608) as [|m|m] eqn:Hm; try reflexivity.
    unfold valid_binary, bounded, canonical_mantissa. rewrite fexp32, digits2_pos_log2.
    assert (Z.log2 (Z.pos m) = 23) as ->.
    { apply Z.log2_unique; [lia|]. change (2 ^ 23) with 8388608.
      change (2 ^ Z.succ 23) with 16777216. lia. }
    apply andb_true_iff. split; [apply Z.eqb_eq | apply Z.leb_le]; lia.
Qed.

(** *** NaN patterns *)

Lemma lor_quiet_bit (fr : Z) :
  Z.lor fr (2 ^ 22) = if Z.testbit fr 22 then fr else fr + 2 ^ 22.
Proof.
  destruct (Z.testbit fr 22) eqn:Hbit.
  - apply Z.bits_inj'. intros i Hi. rewrite Z.lor_spec, Z.pow2_bits_eqb by lia.
    destruct (Z.eqb_spec 22 i) as [<-|]; [rewrite Hbit; reflexivity | apply orb_false_r].
  - assert (Z.land fr (2 ^ 22) = 0) as Hland.
    { apply Z.bits_inj'. intros i Hi.
      rewrite Z.land_spec, Z.pow2_bits_eqb, Z.bits_0 by lia.
      destruct (Z.eqb_spec 22 i) as [<-|]; [rewrite Hbit; reflexivity | apply andb_false_r]. }
    rewrite (Z.add_nocarry_lxor _ _ Hland). symmetry. apply Z.lxor_lor, Hland.
Qed.

(** A pattern with all exponent bits set, from its fields. *)
Lemma nan_bits (bits : Z) :
  0 <= bits < 2 ^ 32 -> f32_exponent bits = 255 ->
  bits = (if f32_sign bits then 2 ^ 31 else 0) + 255 * 2 ^ 23 + f32_fraction bits.
Proof.
  unfold f32_exponent, f32_sign, f32_fraction. intros Hbits Hex.
  change (2 ^ 32) with 4294967296 in *. change (2 ^ 31) with 2147483648 in *.
  change (2 ^ 23) with 8388608 in *.
  pose proof (Z.div_mod bits 8388608 ltac:(lia)) as H23.
  pose proof (Z.mod_pos_bound bits 8388608 ltac:(lia)) as H23b.
  pose proof (Z.div_mod (bits / 8388608) 256 ltac:(lia)) as H8.
  assert (bits / 2147483648 = bits / 8388608 / 256) as Hs.
  { rewrite Z.div_div by lia. reflexivity. }
  assert (0 <= bits / 2147483648 <= 1) as Hsb.
  { split; [apply Z.div_pos; lia|]. apply Z.lt_succ_r, Z.div_lt_upper_bound; lia. }
  destruct (Z.leb_spec 1 (bits / 2147483648)); lia.
Qed.

(** A field comes back from [struct.unpack] and
    [astype('float32').tobytes()] byte for byte, but for the quiet bit
    that a signalling NaN is given. *)
Lemma pack_unpack_field (b0 b1 b2 b3 : byte) :
  pack_f32 (unpack_f [b0; b1; b2; b3]) = quieten [b0; b1; b2; b3].
Proof.
  unfold pack_f32, unpack_f, float_of_bits32, quieten, is_signalling_nan.
  pose proof (le_to_Z_range [b0; b1; b2; b3]) as Hrange.
  change (256 ^ Z.of_nat (length [b0; b1; b2; b3])) with (2 ^ 32) in Hrange.
  set (bits := le_to_Z [b0; b1; b2; b3]) in *.
  destruct (f32_is_nan bits) eqn:Hnan.
  - cbn [bits32_of_float andb].
    rewrite Z.shiftr_shiftl_l, Z.sub_diag, Z.shiftl_0_r by lia.
    rewrite <- Z.lor_assoc, Z.lor_diag, lor_quiet_bit.
    assert (Z.testbit (f32_fraction bits) 22 = Z.testbit bits 22) as ->.
    { unfold f32_fraction. apply Z.mod_pow2_bits_low. lia. }
    assert (f32_exponent bits = 255) as Hex.
    { unfold f32_is_nan in Hnan. apply andb_true_iff in Hnan as [Hex%Z.eqb_eq _]. exact Hex. }
    pose proof (nan_bits bits Hrange Hex) as Hbits.
    destruct (Z.testbit bits 22); cbn [negb].
    + rewrite <- Hbits. apply (Z_to_le_to_Z [b0; b1; b2; b3]).
    + f_equal. lia.
  - cbn [bits32_of_float andb].
    rewrite f32_of_float_of_f32 by (apply decode_f32_valid, Hrange).
    rewrite encode_decode_f32 by assumption.
    apply (Z_to_le_to_Z [b0; b1; b2; b3]).
Qed.

Lemma quieten_plain (field : list byte) :
  is_signalling_nan (le_to_Z field) = false -> quieten field = field.
Proof. intros Hplain. unfold quieten. rewrite Hplain. reflexivity. Qed.

(** *** The disk *)

Lemma dir_exists_spec (disk : gmap string (list byte)) (d : string) :
  dir_exists disk d = true <->
  exists k f, disk !! k = Some f /\ startswith k (d ++ "/") = true.
Proof.
  unfold dir_exists. rewrite existsb_exists. split.
  - intros (k & Hin & Hk). apply list_elem_of_In, list_elem_of_fmap in Hin as ([k' f] & -> & Hin).
    apply elem_of_map_to_list in Hin. exists k', f. split; assumption.
  - intros (k & f & Hk & Hpre). exists k. split; [|exact Hpre].
    apply list_elem_of_In, list_elem_of_fmap. exists (k, f).
    split; [reflexivity | apply elem_of_map_to_list, Hk].
Qed.

(** A file that is there can be opened for writing. *)
Lemma writable_existing (disk : gmap string (list byte)) (p : string) (f : list byte) :
  disk !! p = Some f -> writable disk p = true.
Proof.
  intros Hp. unfold writable. rewrite Hp.
  rewrite bool_decide_eq_true_2 by eauto. reflexivity.
Qed.

(** *** The conversion of a file *)

Lemma string_app_assoc (a b c : string) : ((a ++ b) ++ c = a ++ (b ++ c))%string.
Proof.
  induction a as [|x a IH]; [reflexivity|].
  change (String x ((a ++ b) ++ c) = String x (a ++ (b ++ c)))%string.
  rewrite IH. reflexivity.
Qed.

(** The header written for [n] records is the header of the
    specification. *)
Lemma write_header_text (n : Z) : write_header n 1 = pcd_header_text n.
Proof.
  unfold write_header, pcd_header_text. rewrite Z.mul_1_r.
  cbn -[str_of_Z newline]. rewrite !string_app_assoc. reflexivity.
Qed.

Lemma record_roundtrip (record : list byte) :
  is_complete_record record = true ->
  exists xyzi, unpack_ffff record = Ok xyzi /\
               concat (pack_f32 <$> xyzi) = quieten_record record /\
               take 16 record = record /\ record <> [].
Proof.
  unfold is_complete_record. intros Hlen%Nat.eqb_eq.
  do 16 (destruct record as [|? record]; [discriminate Hlen|]).
  destruct record; [|discriminate Hlen].
  eexists. split; [reflexivity|]. split; [|split; [reflexivity | discriminate]].
  unfold quieten_record. cbn [fmap list_fmap concat take drop].
  rewrite !pack_unpack_field, app_nil_r. reflexivity.
Qed.

Lemma plain_record_unchanged (record : list byte) :
  is_complete_record record = true -> is_plain_record record = true ->
  quieten_record record = record.
Proof.
  unfold is_complete_record, is_plain_record. intros Hlen%Nat.eqb_eq.
  intros [[[H0%negb_true_iff H1%negb_true_iff]%andb_true_iff
            H2%negb_true_iff]%andb_true_iff H3%negb_true_iff]%andb_true_iff.
  unfold quieten_record. rewrite !quieten_plain by assumption.
  do 16 (destruct record as [|? record]; [discriminate Hlen|]).
  destruct record; [|discriminate Hlen]. reflexivity.
Qed.

(** The loop reads a file of complete records to its end: one row for
    each record, and the rows give back the fields of the file, each as
    the conversion writes it. *)
Lemma read_records_complete (records : list (list byte)) :
  forallb is_complete_record records = true ->
  forall (fuel : nat) (list_pcd : list (list pyfloat)),
    (length (concat records) <= fuel)%nat ->
    exists rows,
      read_records fuel (concat records) list_pcd = Ok (list_pcd ++ rows) /\
      length rows = length records /\
      tobytes_float32 rows = concat (quieten_record <$> records).
Proof.
  induction records as [|record records IH]; intros Hall fuel list_pcd Hfuel.
  - exists []. rewrite app_nil_r. destruct fuel; repeat split; reflexivity.
  - simpl in Hall. apply andb_true_iff in Hall as [Hrecord Hall].
    destruct (record_roundtrip record Hrecord) as (xyzi & Hunpack & Hpack & Htake & Hne).
    assert (length record = 16%nat) as Hlen by (apply Nat.eqb_eq, Hrecord).
    simpl concat in *. rewrite length_app in Hfuel.
    destruct fuel as [|fuel]; [lia|].
    cbn [read_records].
    rewrite (take_app_length' record (concat records) 16) by (symmetry; exact Hlen).
    rewrite (drop_app_length' record (concat records) 16) by (symmetry; exact Hlen).
    destruct record as [|b record]; [contradiction|].
    rewrite Hunpack.
    destruct (IH Hall fuel (list_pcd ++ [xyzi]) ltac:(lia)) as (rows & -> & Hrows & Hbytes).
    exists (xyzi :: rows). rewrite <- app_assoc. split; [reflexivity|].
    split; [simpl; congruence|].
    unfold tobytes_float32 in *. cbn [fmap list_fmap concat].
    rewrite Hpack. f_equal. exact Hbytes.
Qed.

Lemma plain_records_unchanged (records : list (list byte)) :
  forallb is_complete_record records = true ->
  forallb is_plain_record records = true ->
  concat (quieten_record <$> records) = concat records.
Proof.
  induction records as [|record records IH]; [reflexivity|]. cbn [forallb].
  intros [Hc Hcs]%andb_true_iff [Hp Hps]%andb_true_iff.
  rewrite fmap_cons. cbn [concat].
  rewrite (plain_record_unchanged record Hc Hp), (IH Hcs Hps). reflexivity.
Qed.

(** C8, as the code has it: a file made of [n] complete 16-byte records,
    whose name with every [.bin] replaced by [.pcd] is another name and
    one that can be opened for writing (it is a file already, or it lies
    in a directory that is there), is converted to the file of that name.
    Its content is the header of the specification with [WIDTH n],
    [HEIGHT 1] and [POINTS n], followed by the fields of the source in
    their order, each as it was but for a signalling NaN, which has its
    quiet bit set; so the content after the header is the source byte for
    byte when no field is a signalling NaN. *)
Theorem C8_bin_to_pcd (disk : gmap string (list byte)) (path : string)
    (records : list (list byte)) (delete_source : bool) :
  disk !! path = Some (concat records) ->
  forallb is_complete_record records = true ->
  replace_bin path <> path ->
  writable disk (replace_bin path) = true ->
  let n := Z.of_nat (length records) in
  let converted := convert_bin_to_pcd path delete_source disk in
  snd converted = Ok (replace_bin path) /\
  fst converted !! replace_bin path
  = Some (list_byte_of_string (pcd_header_text n) ++ concat (quieten_record <$> records)) /\
  (forallb is_plain_record records = true ->
   fst converted !! replace_bin path
   = Some (list_byte_of_string (pcd_header_text n) ++ concat records)).
Proof.
  intros Hfile Hcomplete Hname Hwritable n converted.
  assert (snd converted = Ok (replace_bin path) /\
          fst converted !! replace_bin path
          = Some (list_byte_of_string (pcd_header_text n)
                  ++ concat (quieten_record <$> records))) as [Hres Hpcd].
  { unfold converted, convert_bin_to_pcd. rewrite Hfile.
    destruct (read_records_complete records Hcomplete (length (concat records)) []
                ltac:(lia)) as (rows & -> & Hrows & Hbytes).
    rewrite Hwritable. cbn [app fst snd]. split; [reflexivity|].
    rewrite Hrows, Hbytes, write_header_text. fold n.
    rewrite lookup_insert_eq. cbn [default].
    destruct delete_source.
    - rewrite lookup_delete_ne by (intros Heq; apply Hname; symmetry; exact Heq).
      apply lookup_insert_eq.
    - apply lookup_insert_eq. }
  split; [exact Hres|]. split; [exact Hpcd|].
  intros Hplain. rewrite Hpcd, (plain_records_unchanged records Hcomplete Hplain).
  reflexivity.
Qed.

Lemma C8_bin_to_pcd_witness :
  let record := [x00; x00; x80; x3f; x00; x00; x00; x40;
                 x00; x00; x40; x40; x05; x00; xc0; x7f] in
  let disk : gmap string (list byte) := {["scans/cloud.bin"%string := record]} in
  (disk !! "scans/cloud.bin"%string = Some (concat [record]) /\
   forallb is_complete_record [record] = true /\
   replace_bin "scans/cloud.bin" <> "scans/cloud.bin"%string /\
   writable disk (replace_bin "scans/cloud.bin") = true /\
   forallb is_plain_record [record] = true) /\
  fst (convert_bin_to_pcd "scans/cloud.bin" true disk) !! "scans/cloud.pcd"%string
  = Some (list_byte_of_string (pcd_header_text 1) ++ record).
Proof.
  intros record disk.
  assert (disk !! "scans/cloud.bin"%string = Some (concat [record])) as Hfile
    by (vm_compute; reflexivity).
  assert (forallb is_complete_record [record] = true) as Hcomplete by reflexivity.
  assert (replace_bin "scans/cloud.bin" <> "scans/cloud.bin"%string) as Hname
    by discriminate.
  assert (writable disk (replace_bin "scans/cloud.bin") = true) as Hwritable
    by (vm_compute; reflexivity).
  assert (forallb is_plain_record [record] = true) as Hplain by (vm_compute; reflexivity).
  split; [repeat split; assumption|].
  pose proof (C8_bin_to_pcd disk "scans/cloud.bin" [record] true
                Hfile Hcomplete Hname Hwritable) as (_ & _ & Hpcd).
  exact (Hpcd Hplain).
Defined.

(** The claim as the specification words it fails twice.  A file
    [scan.bin/cloud.bin] of one record is not converted: every [.bin] of
    the path is replaced, the directory [scan.pcd] is not there, [open]
    raises [FileNotFoundError] and the disk stays as it was.  And a record
    whose first field is the signalling NaN [7f800001] is written with the
    quiet bit of that field set, [7fc00001]: the bytes after the header
    are not those of the source. *)
Lemma C8_directory_and_nan_counterexample :
  let record := [x00; x00; x80; x3f; x00; x00; x00; x40;
                 x00; x00; x40; x40; x00; x00; x00; x3f] in
  let nan_record := [x01; x00; x80; x7f; x00; x00; x00; x40;
                     x00; x00; x40; x40; x00; x00; x00; x3f] in
  let written := [x01; x00; xc0; x7f; x00; x00; x00; x40;
                  x00; x00; x40; x40; x00; x00; x00; x3f] in
  let disk : gmap string (list byte) := {["scan.bin/cloud.bin"%string := record]} in
  let nan_disk : gmap string (list byte) := {["cloud.bin"%string := nan_record]} in
  convert_bin_to_pcd "scan.bin/cloud.bin" true disk
  = (disk, Raise (LibraryError "FileNotFoundError")) /\
  snd (convert_bin_to_pcd "cloud.bin" true nan_disk) = Ok "cloud.pcd"%string /\
  fst (convert_bin_to_pcd "cloud.bin" true nan_disk) !! "cloud.pcd"%string
  = Some (list_byte_of_string (pcd_header_text 1) ++ written) /\
  written <> nan_record.
Proof.
  intros record nan_record written disk nan_disk.
  split; [vm_compute; reflexivity|].
  split; [vm_compute; reflexivity|].
  split; [vm_compute; reflexivity | discriminate].
Qed.

(** ** Iteration with [next] *)

Section IterationProofs.
Context {T : Type}.
Implicit Types (self : RAI.t T).

Lemma next_pos self :
  rai_wf self ->
  RAI.pos (fst (RAI.__next__ self))
  = Z.min (RAI.pos self + 1) (Z.of_nat (length (RAI.iterable self)) - 1).
Proof.
  intros [Hinv Hpos]. unfold RAI.__next__.
  assert (-1 <= RAI.pos self) as Hlow.
  { unfold rai_inv in Hinv. destruct (RAI.iterator self); lia. }
  rewrite getitem_spec by (assumption || lia).
  unfold after_loop.
  destruct (Z.ltb_spec (RAI.pos self + 1) (Z.of_nat (length (RAI.iterable self))));
    cbn [fst RAI.pos]; [|lia].
  destruct (_ || _); lia.
Qed.

Lemma next_calls_from (src : list T) (n : nat) : forall self (j : Z),
  rai_wf self -> RAI.iterable self = src ->
  (RAI.pos self + 1 = j \/
   (Z.of_nat (length src) <= j /\ RAI.pos self + 1 = Z.of_nat (length src))) ->
  next_calls n self = (fun k => getitem_result src (j + Z.of_nat k)) <$> seq 0 n.
Proof.
  induction n as [|n IH]; intros self j Hwf Hsrc Hj; [reflexivity|].
  cbn [next_calls seq fmap list_fmap].
  pose proof (getitem_result_spec self (RAI.pos self + 1) Hwf) as Hres.
  pose proof (getitem_wf self (RAI.pos self + 1) Hwf) as [Hwf' Hsrc'].
  pose proof (next_pos self Hwf) as Hpos.
  unfold RAI.__next__ in *.
  destruct (RAI.__getitem__ (RAI.pos self + 1) self) as [self' r].
  cbn [fst snd] in *. rewrite Hsrc in *.
  assert (-1 <= RAI.pos self) as Hlow.
  { destruct Hwf as [Hinv _]. unfold rai_inv in Hinv.
    destruct (RAI.iterator self); lia. }
  f_equal.
  - rewrite Hres, Z.add_0_r. destruct Hj as [->|[Hge Hend]]; [reflexivity|].
    unfold getitem_result. zbool.
    rewrite !(proj2 (lookup_ge_None src _)) by lia. reflexivity.
  - rewrite (IH self' (j + 1) Hwf' Hsrc').
    + rewrite <- fmap_S_seq, <- list_fmap_compose.
      apply list_fmap_ext. intros _ k _. simpl. f_equal. lia.
    + destruct Hj as [Hj|[Hge Hend]]; lia.
Qed.

(** X1: from any state a client can reach, repeated calls of [next]
    return the items of the source that follow the cursor, one after the
    other and in order, and [StopIteration] at every call once the source
    is used up. *)
Theorem next_walks_the_source (src : list T) (before : list RAI.call) (n : nat) :
  let self := RAI.run (RAI.__init__ src) before in
  next_calls n self
  = (fun k => match src !! Z.to_nat (RAI.pos self + 1 + Z.of_nat k) with
              | Some x => Ok (Some x)
              | None => Raise StopIteration
              end) <$> seq 0 n.
Proof.
  intros self.
  destruct (run_wf before _ (rai_wf_init src)) as [Hwf Hsrc].
  fold self in Hwf, Hsrc. simpl in Hsrc.
  rewrite (next_calls_from src n self (RAI.pos self + 1) Hwf Hsrc) by (left; reflexivity).
  apply list_fmap_ext. intros _ k _. unfold getitem_result.
  assert (-1 <= RAI.pos self) as Hlow.
  { destruct Hwf as [Hinv _]. unfold rai_inv in Hinv.
    destruct (RAI.iterator self); lia. }
  zbool. reflexivity.
Qed.

End IterationProofs.

(** ** What the cache holds and what it gives back *)

Section CoherenceProofs.
Context {T : Type} `{Sized T}.
Implicit Types (self : CMI.t T) (idx : Z).

Lemma getitem_result_Ok (src : list T) idx (v : option T) :
  getitem_result src idx = Ok v ->
  0 <= idx /\ exists x, v = Some x /\ src !! Z.to_nat idx = Some x.
Proof.
  unfold getitem_result. destruct (Z.leb_spec 0 idx); [|discriminate].
  destruct (src !! Z.to_nat idx) as [x|]; [|discriminate].
  intros [= <-]. eauto.
Qed.

(** One access keeps the cache coherent and the two limits, and a value
    it returns is the item of the source at the index. *)
Lemma getitem_coherent (src : list T) (callback : option (T -> Z)) idx self :
  cache_coherent src callback self ->
  cache_coherent src callback (fst (CMI.__getitem__ idx self)) /\
  CMI.max_cache_entries (fst (CMI.__getitem__ idx self)) = CMI.max_cache_entries self /\
  snd (CMI.__getitem__ idx self)
  = match CMI._cache self !! idx with
    | Some item => Ok (CMI.value item)
    | None =>
        match getitem_result src idx with
        | Ok v =>
            match CMI._cache (fst (CMI.__getitem__ idx self)) !! idx with
            | Some _ => Ok v
            | None => Raise (ValueError "min() arg is an empty sequence")
            end
        | Raise e => Raise e
        end
    end.
Proof.
  intros (Hsrc & Hwf & Hcb & Hcache).
  destruct (CMI._cache self !! idx) as [item|] eqn:Hidx.
  { unfold CMI.__getitem__. rewrite Hidx. cbn [fst snd].
    split; [|split; reflexivity].
    split; [exact Hsrc|]. split; [exact Hwf|]. split; [exact Hcb | exact Hcache]. }
  rewrite getitem_miss by assumption.
  pose proof (getitem_wf (CMI.base self) idx Hwf) as [Hwf' Hsrc'].
  pose proof (getitem_result_spec (CMI.base self) idx Hwf) as Hres.
  rewrite Hsrc in Hsrc', Hres.
  destruct (RAI.__getitem__ idx (CMI.base self)) as [b r]. cbn [fst snd] in *.
  rewrite <- Hres.
  destruct r as [[o|]|e]; cbn [fst snd].
  2:{ symmetry in Hres. apply getitem_result_Ok in Hres as (_ & x & Hx & _).
      discriminate. }
  2:{ split; [|split; reflexivity].
      split; [exact Hsrc'|]. split; [exact Hwf'|]. split; [exact Hcb | exact Hcache]. }
  cbv zeta. rewrite Hcb.
  set (vs := object_size callback o).
  pose proof (evict_fuel (S (size (CMI._cache self))) vs
                (CMI.set_base self b) ltac:(simpl; lia)) as He.
  destruct (CMI.evict _ _ _) as [self' [[]|e]].
  - destruct He as (c' & -> & Hsub & Hlen & Hmem).
    cbn [CMI._cache CMI.set_base CMI.set_cache CMI.max_cache_entries
           CMI.max_cache_memory CMI.used_cache_memory] in *.
    destruct (Z.leb_spec (CMI.used_cache_memory self + vs) (CMI.max_cache_memory self));
      [|lia].
    cbn [fst snd CMI._cache CMI.set_cache CMI.set_base CMI.max_cache_entries].
    rewrite lookup_insert_eq.
    split; [|split; reflexivity].
    split; [exact Hsrc'|]. split; [exact Hwf'|]. split; [exact Hcb|].
    intros k item Hk. cbn [CMI._cache CMI.set_cache] in Hk.
    apply lookup_insert_Some in Hk as [[-> <-]|[Hne Hk]].
    + symmetry in Hres. apply getitem_result_Ok in Hres as (Hpos & x & [= <-] & Hx).
      split; [assumption|]. exists o. split; [assumption | reflexivity].
    + eapply Hcache, lookup_weaken; eassumption.
  - destruct He as (-> & -> & _).
    cbn [fst snd CMI._cache CMI.set_cache CMI.set_base CMI.max_cache_entries].
    rewrite lookup_empty.
    split; [|split; reflexivity].
    split; [exact Hsrc'|]. split; [exact Hwf'|]. split; [exact Hcb|].
    intros k item Hk. cbn [CMI._cache CMI.set_cache] in Hk.
    rewrite lookup_empty in Hk. discriminate.
Qed.

Lemma init_coherent (src : list T) (mm me : Z) (callback : option (T -> Z)) :
  cache_coherent src callback (CMI.__init__ src mm me callback).
Proof.
  split; [reflexivity|]. split; [apply rai_wf_init|]. split; [reflexivity|].
  intros k item Hk. simpl in Hk. rewrite lookup_empty in Hk. discriminate.
Qed.

Lemma run_coherent (src : list T) (callback : option (T -> Z)) (idxs : list Z) self :
  cache_coherent src callback self ->
  cache_coherent src callback (CMI.run self idxs) /\
  CMI.max_cache_entries (CMI.run self idxs) = CMI.max_cache_entries self.
Proof.
  revert self. induction idxs as [|i idxs IH]; intros self Hc; simpl.
  - split; [assumption | reflexivity].
  - destruct (getitem_coherent src callback i self Hc) as (Hc' & Hme & _).
    destruct (IH _ Hc') as [Hc'' Hme']. split; [assumption | congruence].
Qed.

(** X2: the cache is transparent.  After any sequence of accesses, every
    entry of the cache holds the item of the source at its key, with the
    size of that item, and an access that returns, from the cache or from
    the source, returns the item of the source at the index. *)
Theorem cache_returns_source_items
    (src : list T) (max_cache_memory max_cache_entries : Z)
    (object_size_callback : option (T -> Z)) (idxs : list Z) (idx : Z) :
  let self :=
    CMI.run (CMI.__init__ src max_cache_memory max_cache_entries object_size_callback) idxs in
  (forall k item, CMI._cache self !! k = Some item ->
     0 <= k /\
     exists x, src !! Z.to_nat k = Some x /\
               item = CMI.CacheItem (Some x) (object_size object_size_callback x)) /\
  (forall v, snd (CMI.__getitem__ idx self) = Ok v ->
     0 <= idx /\ exists x, v = Some x /\ src !! Z.to_nat idx = Some x).
Proof.
  intros self.
  destruct (run_coherent src object_size_callback idxs _
              (init_coherent src max_cache_memory max_cache_entries object_size_callback))
    as [Hc _].
  fold self in Hc.
  split; [apply Hc|].
  intros v Hv.
  destruct (getitem_coherent src object_size_callback idx self Hc) as (_ & _ & Hres).
  rewrite Hv in Hres.
  destruct Hc as (_ & _ & _ & Hcache).
  destruct (CMI._cache self !! idx) as [item|] eqn:Hidx.
  - destruct (Hcache _ _ Hidx) as (Hpos & x & Hx & ->).
    injection Hres as ->. split; [assumption|]. exists x. split; [reflexivity | assumption].
  - destruct (getitem_result src idx) as [v'|e] eqn:Hg; [|discriminate Hres].
    destruct (CMI._cache (fst _) !! idx); [|discriminate Hres].
    injection Hres as ->. apply getitem_result_Ok, Hg.
Qed.

(** X3: an access that returns a value leaves the index in the cache,
    holding that value: the branch of the source that returns an item
    without storing it is never taken. *)
Theorem returned_item_is_cached idx self (v : option T) :
  snd (CMI.__getitem__ idx self) = Ok v ->
  exists item,
    CMI._cache (fst (CMI.__getitem__ idx self)) !! idx = Some item /\
    CMI.value item = v.
Proof.
  destruct (CMI._cache self !! idx) as [item|] eqn:Hidx.
  { unfold CMI.__getitem__. rewrite Hidx. cbn [fst snd].
    intros [= <-]. exists item. split; [assumption | reflexivity]. }
  rewrite getitem_miss by assumption.
  destruct (RAI.__getitem__ idx (CMI.base self)) as [b [[o|]|e]];
    cbn [fst snd]; try (intros Hv; discriminate Hv).
  cbv zeta.
  set (vs := object_size (CMI._get_object_size_callback self) o).
  pose proof (evict_fuel (S (size (CMI._cache self))) vs
                (CMI.set_base self b) ltac:(simpl; lia)) as He.
  destruct (CMI.evict _ _ _) as [self' [[]|e]]; [|intros Hv; discriminate Hv].
  destruct He as (c' & -> & Hsub & Hlen & Hmem).
  cbn [CMI._cache CMI.set_base CMI.set_cache CMI.max_cache_entries
         CMI.max_cache_memory CMI.used_cache_memory] in *.
  destruct (Z.leb_spec (CMI.used_cache_memory self + vs) (CMI.max_cache_memory self));
    [|lia].
  cbn [fst snd CMI._cache CMI.set_cache]. intros [= <-].
  exists (CMI.CacheItem (Some o) vs). rewrite lookup_insert_eq. split; reflexivity.
Qed.

(** The entries the eviction loop removes have smaller keys than the
    entries it keeps. *)
Lemma evict_order (fuel : nat) (value_size : Z) self :
  (size (CMI._cache self) < fuel)%nat ->
  forall k k',
    is_Some (CMI._cache self !! k) ->
    CMI._cache (fst (CMI.evict fuel value_size self)) !! k = None ->
    is_Some (CMI._cache (fst (CMI.evict fuel value_size self)) !! k') ->
    k < k'.
Proof.
  revert self. induction fuel as [|fuel IH]; intros self Hfuel k k' Hk Hgone Hkept; [lia|].
  simpl in Hgone, Hkept.
  destruct (_ || _).
  2:{ cbn [fst] in *. rewrite Hgone in Hk. destruct Hk as [? Hk]; discriminate Hk. }
  destruct (CMI.min_key (CMI._cache self)) as [k0|] eqn:Hk0.
  2:{ cbn [fst] in *. rewrite Hgone in Hk. destruct Hk as [? Hk]; discriminate Hk. }
  apply min_key_Some in Hk0 as [Hin Hmin].
  pose proof (map_size_delete_Some k0 (CMI._cache self) Hin) as Hsz.
  pose proof (map_size_ne_0_lookup_2 (CMI._cache self) k0 Hin) as Hnz.
  set (self1 := CMI.set_cache self (delete k0 (CMI._cache self))) in *.
  assert (size (CMI._cache self1) < fuel)%nat as Hfuel1 by (simpl; lia).
  pose proof (evict_fuel fuel value_size self1 Hfuel1) as He.
  specialize (IH self1 Hfuel1 k k').
  destruct (CMI.evict fuel value_size self1) as [self' [[]|e]]; cbn [fst] in *.
  - destruct He as (c' & -> & Hsub & _). cbn [CMI._cache CMI.set_cache] in *.
    destruct (decide (k = k0)) as [->|Hne].
    + destruct Hkept as [x Hx].
      pose proof (lookup_weaken _ _ _ _ Hx Hsub) as Hx'.
      unfold self1 in Hx'. cbn [CMI._cache CMI.set_cache] in Hx'.
      apply lookup_delete_Some in Hx' as [Hne Hx'].
      specialize (Hmin k' ltac:(eauto)). lia.
    + apply IH; try assumption.
      unfold self1. cbn [CMI._cache CMI.set_cache].
      rewrite lookup_delete_ne by congruence. assumption.
  - destruct He as (-> & _). cbn [CMI._cache CMI.set_cache] in *.
    rewrite lookup_empty in Hkept. destruct Hkept as [? Hkept]; discriminate Hkept.
Qed.

(** X4: eviction goes by index, smallest first.  Whatever an access
    removes from the cache has a smaller index than every entry it keeps
    from before. *)
Theorem eviction_removes_smallest_indices idx self (k k' : Z) :
  is_Some (CMI._cache self !! k) ->
  CMI._cache (fst (CMI.__getitem__ idx self)) !! k = None ->
  is_Some (CMI._cache (fst (CMI.__getitem__ idx self)) !! k') ->
  k' <> idx ->
  k < k'.
Proof.
  intros Hk Hgone Hkept Hne.
  destruct (CMI._cache self !! idx) as [item|] eqn:Hidx.
  { unfold CMI.__getitem__ in Hgone. rewrite Hidx in Hgone. cbn [fst] in Hgone.
    rewrite Hgone in Hk. destruct Hk as [? Hk]; discriminate Hk. }
  rewrite getitem_miss in Hgone, Hkept by assumption.
  destruct (RAI.__getitem__ idx (CMI.base self)) as [b [[o|]|e]]; cbn [fst] in *.
  2, 3: cbn [CMI._cache CMI.set_base] in Hgone; rewrite Hgone in Hk;
    destruct Hk as [? Hk]; discriminate Hk.
  cbv zeta in Hgone, Hkept.
  set (vs := object_size (CMI._get_object_size_callback self) o) in *.
  pose proof (evict_order (S (size (CMI._cache self))) vs
                (CMI.set_base self b) ltac:(simpl; lia) k k') as Ho.
  cbn [CMI._cache CMI.set_base] in Ho.
  destruct (CMI.evict _ _ _) as [self' [[]|e]]; cbn [fst] in *.
  - destruct (_ <=? _); cbn [fst CMI._cache CMI.set_cache] in *.
    + rewrite lookup_insert_ne in Hkept by congruence.
      apply lookup_insert_None in Hgone as [Hgone _]. auto.
    + auto.
  - auto.
Qed.

(** X5: a cache made for fewer than one entry never returns anything.
    After any accesses the cache is empty, and an access of an index the
    source has ends in the [ValueError] of [min] over no keys. *)
Theorem no_entries_allowed_no_item_returned
    (src : list T) (max_cache_memory max_cache_entries : Z)
    (object_size_callback : option (T -> Z)) (idxs : list Z) (idx : Z) :
  max_cache_entries < 1 ->
  let self :=
    CMI.run (CMI.__init__ src max_cache_memory max_cache_entries object_size_callback) idxs in
  CMI._cache self = ∅ /\
  snd (CMI.__getitem__ idx self)
  = match getitem_result src idx with
    | Ok _ => Raise (ValueError "min() arg is an empty sequence")
    | Raise e => Raise e
    end.
Proof.
  intros Hme self.
  pose proof (init_coherent src max_cache_memory max_cache_entries object_size_callback)
    as Hinit.
  assert (forall s, cache_coherent src object_size_callback s ->
            CMI.max_cache_entries s = max_cache_entries -> CMI._cache s = ∅ ->
            forall i, CMI._cache (fst (CMI.__getitem__ i s)) = ∅ /\
                      snd (CMI.__getitem__ i s)
                      = match getitem_result src i with
                        | Ok _ => Raise (ValueError "min() arg is an empty sequence")
                        | Raise e => Raise e
                        end) as Hstep.
  { intros s Hc Hs Hemp i.
    destruct (getitem_coherent src object_size_callback i s Hc) as (_ & _ & Hres).
    rewrite Hemp, lookup_empty in Hres.
    assert (CMI._cache s !! i = None) as Hmiss by (rewrite Hemp; apply lookup_empty).
    assert (CMI._cache (fst (CMI.__getitem__ i s)) = ∅) as Hemp'.
    { rewrite getitem_miss by assumption.
      destruct (RAI.__getitem__ i (CMI.base s)) as [b [[o|]|e]]; cbn [fst];
        try assumption.
      cbv zeta.
      pose proof (evict_fuel (S (size (CMI._cache s)))
                    (object_size (CMI._get_object_size_callback s) o)
                    (CMI.set_base s b) ltac:(simpl; lia)) as He.
      destruct (CMI.evict _ _ _) as [s' [[]|e]].
      - destruct He as (c' & _ & _ & Hlen & _). simpl in Hlen. lia.
      - destruct He as (-> & _). reflexivity. }
    split; [assumption|]. rewrite Hres, Hemp', lookup_empty.
    destruct (getitem_result src i); reflexivity. }
  assert (forall l s, cache_coherent src object_size_callback s ->
            CMI.max_cache_entries s = max_cache_entries -> CMI._cache s = ∅ ->
            cache_coherent src object_size_callback (CMI.run s l) /\
            CMI.max_cache_entries (CMI.run s l) = max_cache_entries /\
            CMI._cache (CMI.run s l) = ∅) as Hrun.
  { induction l as [|i l IH]; intros s Hc Hs Hemp; simpl; [auto|].
    destruct (getitem_coherent src object_size_callback i s Hc) as (Hc' & Hme' & _).
    apply IH; [assumption | congruence | apply (Hstep s Hc Hs Hemp i)]. }
  destruct (Hrun idxs _ Hinit eq_refl eq_refl) as (Hc & Hs & Hemp).
  fold self in Hc, Hs, Hemp.
  split; [assumption | apply (Hstep self Hc Hs Hemp idx)].
Qed.

End CoherenceProofs.

Lemma returned_item_is_cached_witness :
  exists item,
    CMI._cache (fst (CMI.__getitem__ 0 (CMI.__init__ [blob 6] 10 5 None))) !! 0 = Some item /\
    CMI.value item = Some (blob 6).
Proof.
  apply (returned_item_is_cached 0 (CMI.__init__ [blob 6] 10 5 None) (Some (blob 6))).
  reflexivity.
Defined.

Lemma eviction_removes_smallest_indices_witness :
  let self := CMI.run (CMI.__init__ [blob 1; blob 1; blob 1] 10 2 None) [1; 0] in
  let self' := fst (CMI.__getitem__ 2 self) in
  is_Some (CMI._cache self !! 0) /\
  CMI._cache self' !! 0 = None /\
  is_Some (CMI._cache self' !! 1) /\
  0 < 1.
Proof.
  intros self self'.
  assert (is_Some (CMI._cache self !! 0)) as Hold by (vm_compute; eauto).
  assert (CMI._cache self' !! 0 = None) as Hgone by (vm_compute; reflexivity).
  assert (is_Some (CMI._cache self' !! 1)) as Hkept by (vm_compute; eauto).
  split; [exact Hold|]. split; [exact Hgone|]. split; [exact Hkept|].
  apply (eviction_removes_smallest_indices 2 self 0 1 Hold Hgone Hkept). lia.
Defined.

Lemma no_entries_allowed_no_item_returned_witness :
  snd (CMI.__getitem__ 0 (CMI.run (CMI.__init__ [blob 1; blob 2] 10 0 None) [1]))
  = Raise (ValueError "min() arg is an empty sequence").
Proof.
  apply (no_entries_allowed_no_item_returned [blob 1; blob 2] 10 0 None [1] 0).
  lia.
Defined.

Lemma cache_returns_source_items_witness :
  0 <= 0 /\
  exists x, Some (blob 6) = Some x /\ [blob 6; blob 3] !! Z.to_nat 0 = Some x.
Proof.
  apply (proj2 (cache_returns_source_items [blob 6; blob 3] 10 5 None [0] 0)
           (Some (blob 6))).
  reflexivity.
Defined.

(** ** The methods of ImageListReader *)

Section ImageListMethodsProofs.
Variables os_sorted shuffle : list string -> list string.

Lemma insert_sorted_perm (x : string) (l : list string) :
  insert_sorted x l ≡ₚ x :: l.
Proof.
  induction l as [|y l IH]; simpl; [reflexivity|].
  destruct (String.leb x y); [reflexivity|].
  rewrite IH. apply Permutation_swap.
Qed.

Lemma sorted_perm (l : list string) : sorted l ≡ₚ l.
Proof.
  induction l as [|x l IH]; simpl; [reflexivity|].
  rewrite insert_sorted_perm, IH. reflexivity.
Qed.

Lemma list_getitem_in_range {A : Type} (l : list A) (i : Z) :
  0 <= i < Z.of_nat (length l) ->
  exists x, l !! Z.to_nat i = Some x /\ list_getitem l i = Ok x.
Proof.
  intros Hi. unfold list_getitem.
  destruct (Z.ltb_spec i 0); [lia|]. destruct (Z.ltb_spec i 0); [lia|].
  destruct (lookup_lt_is_Some_2 l (Z.to_nat i)) as [x Hx]; [lia|].
  exists x. rewrite Hx. split; reflexivity.
Qed.

Lemma stop_in_effect_le (len : Z) (stop : option Z) :
  stop_in_effect len stop <= len - 1.
Proof. unfold stop_in_effect. destruct stop as [s|]; [|lia]. destruct (s =? 0); lia. Qed.

Lemma range_items_lookup (start stop step : Z) (k : nat) (i : Z) :
  1 <= step ->
  range_items (Range start (stop + 1) step) !! k = Some i ->
  i = start + Z.of_nat k * step /\ start <= i <= stop.
Proof.
  intros Hstep Hk. unfold range_items in Hk.
  apply list_lookup_fmap_Some in Hk as (k' & -> & Hk).
  apply lookup_seq in Hk as [-> Hlt]. simpl in *.
  split; [reflexivity|].
  unfold range_len in Hlt. simpl in Hlt.
  destruct (Z.ltb_spec 0 step); [|lia].
  destruct (Z.ltb_spec start (stop + 1)); [|simpl in Hlt; lia].
  assert (Z.of_nat k <= (stop + 1 - start - 1) / step) as Hle by lia.
  assert (Z.of_nat k * step <= stop + 1 - start - 1).
  { etransitivity; [apply Z.mul_le_mono_nonneg_r; [lia | exact Hle]|].
    rewrite Z.mul_comm. apply Z.mul_div_le. lia. }
  nia.
Qed.

Lemma yield_images_in_range (self : ILR.t) (idxs : list Z) :
  (forall i, i ∈ idxs -> 0 <= i < Z.of_nat (length (ILR._source_path self))) ->
  exists items,
    ILRM.yield_images self idxs = (items, None) /\
    length items = length idxs /\
    forall k i, idxs !! k = Some i ->
      exists path, ILR._source_path self !! Z.to_nat i = Some path /\
                   items !! k = Some (path, path, i).
Proof.
  induction idxs as [|i idxs IH]; intros Hin.
  - exists []. split; [reflexivity|]. split; [reflexivity|].
    intros k i Hk. rewrite lookup_nil in Hk. discriminate.
  - destruct IH as (items & Hitems & Hlen & Hall).
    { intros j Hj. apply Hin. right. assumption. }
    destruct (list_getitem_in_range (ILR._source_path self) i) as (p & Hp & Hget).
    { apply Hin. left. }
    exists ((p, p, i) :: items). simpl.
    unfold ILRM.get_image, ILRM.get_path. rewrite Hget, Hitems.
    split; [reflexivity|]. split; [simpl; congruence|].
    intros [|k] j Hk; simpl in Hk.
    + injection Hk as <-. exists p. split; [assumption | reflexivity].
    + apply Hall, Hk.
Qed.

(** X6: iterating a reader that was built with a start that is not
    negative ends without an exception and yields as many tuples as the
    reader is long; the [k]-th tuple is the path at index
    [start + k * step], twice, and that index, which lies between the
    start and the stop of the reader.  The sort of the paths is one that
    returns as many paths as it is given. *)
Theorem iter_yields_frame_range (source_path : list string) (step start : Z)
    (stop : option Z) (dimension : DimensionType) (sorting_method : SortingMethod)
    (reader : ILR.t) :
  ILR.__init__ os_sorted shuffle source_path step start stop dimension sorting_method
    = Ok reader ->
  length (ILR.sort os_sorted shuffle source_path sorting_method) = length source_path ->
  0 <= start ->
  exists items,
    ILRM.__iter__ reader = (items, None) /\
    ILR.__len__ reader = Ok (Z.of_nat (length items)) /\
    forall k item, items !! k = Some item ->
      let i := start + Z.of_nat k * Z.max step 1 in
      start <= i <= ILR._stop reader /\
      exists path, ILR._source_path reader !! Z.to_nat i = Some path /\
                   item = (path, path, i).
Proof.
  intros Hinit Hsort Hstart.
  pose proof (init_fields os_sorted shuffle _ _ _ _ _ _ _ Hinit)
    as (Hne & Hst & Hstop & Hstep & Hle).
  assert (ILR._source_path reader = ILR.sort os_sorted shuffle source_path sorting_method)
    as Hpaths.
  { unfold ILR.__init__ in Hinit. destruct source_path; [discriminate|].
    destruct (_ >=? _); [|discriminate]. injection Hinit as <-. reflexivity. }
  pose proof (stop_in_effect_le (Z.of_nat (length source_path)) stop) as Hbound.
  unfold ILRM.__iter__, ILR.__len__, ILR.frame_range, range.
  rewrite Hst, Hstep.
  destruct (Z.eqb_spec (Z.max step 1) 0); [lia|].
  set (r := Range start (ILR._stop reader + 1) (Z.max step 1)).
  destruct (yield_images_in_range reader (range_items r)) as (items & Hitems & Hlen & Hall).
  { intros i [k Hk]%list_elem_of_lookup.
    apply range_items_lookup in Hk as [_ Hi]; [|lia].
    rewrite Hpaths, Hsort. lia. }
  exists items. split; [assumption|]. split.
  { rewrite Hlen. pose proof (range_items_length r) as Hr.
    f_equal. rewrite Hr. unfold r, range_len. simpl. zbool.
    assert (0 <= (ILR._stop reader + 1 - start - 1) / Z.max step 1)
      by (apply Z.div_pos; lia).
    lia. }
  intros k item Hk. cbv zeta. set (i := start + Z.of_nat k * Z.max step 1).
  destruct (lookup_lt_is_Some_2 (range_items r) k) as [j Hj].
  { rewrite <- Hlen. apply lookup_lt_Some in Hk. assumption. }
  assert (1 <= Z.max step 1) as Hpos by lia.
  pose proof (range_items_lookup start (ILR._stop reader) (Z.max step 1) k j Hpos Hj)
    as [Hji Hrange].
  fold i in Hji. subst j.
  destruct (Hall _ _ Hj) as (path & Hpath & Hitem).
  split; [assumption|]. exists path. split; [assumption|]. congruence.
Qed.

Lemma range_len_stop_mono (start stop stop' step : Z) :
  1 <= step -> stop' <= stop ->
  range_len (Range start (stop' + 1) step) <= range_len (Range start (stop + 1) step).
Proof.
  intros Hstep Hle. unfold range_len. simpl.
  destruct (Z.ltb_spec 0 step); [|lia].
  destruct (Z.ltb_spec start (stop' + 1)); destruct (Z.ltb_spec start (stop + 1)); try lia.
  - assert ((stop' + 1 - start - 1) / step <= (stop + 1 - start - 1) / step)
      by (apply Z.div_le_mono; lia).
    lia.
  - assert (0 <= (stop + 1 - start - 1) / step) by (apply Z.div_pos; lia). lia.
Qed.

(** X7: what [filter] does to a reader that was built.  With the paths
    the callback accepts called the kept ones: if none is kept the call
    raises ['No image found']; if some are kept but fewer than
    [start + 1], it raises [AssertionError]; otherwise the reader is
    rebuilt over the kept paths with the same start, step, dimension and
    sorting method, and its stop is the smaller of the old stop and the
    last kept index.  A reader that was rebuilt is not longer than
    before. *)
Theorem filter_outcome (source_path : list string) (step start : Z)
    (stop : option Z) (dimension : DimensionType) (sorting_method : SortingMethod)
    (reader : ILR.t) (callback : string -> bool) :
  ILR.__init__ os_sorted shuffle source_path step start stop dimension sorting_method
    = Ok reader ->
  length (ILR.sort os_sorted shuffle source_path sorting_method) = length source_path ->
  let kept := List.filter callback (ILR._source_path reader) in
  ILRM.filter os_sorted shuffle callback reader
  = match kept with
    | [] => Raise (Exception "No image found")
    | _ :: _ =>
        if Z.of_nat (length kept) <? start + 1 then Raise AssertionError
        else Ok (ILR.Build (ILR.sort os_sorted shuffle kept sorting_method)
                   (ILR._step reader) start
                   (Z.min (ILR._stop reader) (Z.of_nat (length kept) - 1))
                   dimension sorting_method)
    end /\
  forall reader', ILRM.filter os_sorted shuffle callback reader = Ok reader' ->
    exists n n', ILR.__len__ reader = Ok n /\ ILR.__len__ reader' = Ok n' /\ n' <= n.
Proof.
  intros Hinit Hsort kept.
  pose proof (init_fields os_sorted shuffle _ _ _ _ _ _ _ Hinit)
    as (Hne & Hst & Hstop & Hstep & Hle).
  assert (ILR._source_path reader = ILR.sort os_sorted shuffle source_path sorting_method
          /\ ILR._sorting_method reader = sorting_method
          /\ ILR._dimension reader = dimension) as (Hpaths & Hsm & Hdim).
  { unfold ILR.__init__ in Hinit. destruct source_path; [discriminate|].
    destruct (_ >=? _); [|discriminate]. injection Hinit as <-. repeat split. }
  pose proof (filter_length_le callback (ILR._source_path reader)) as Hkept.
  fold kept in Hkept. rewrite Hpaths, Hsort in Hkept.
  assert (ILR._stop reader = 0 -> length source_path = 1%nat) as Hzero.
  { rewrite Hstop. unfold stop_in_effect.
    destruct source_path as [|p0 ps]; [congruence|]. simpl length.
    destruct stop as [s|]; [destruct (Z.eqb_spec s 0)|]; lia. }
  assert (ILRM.filter os_sorted shuffle callback reader
          = match kept with
            | [] => Raise (Exception "No image found")
            | _ :: _ =>
                if Z.of_nat (length kept) <? start + 1 then Raise AssertionError
                else Ok (ILR.Build (ILR.sort os_sorted shuffle kept sorting_method)
                           (ILR._step reader) start
                           (Z.min (ILR._stop reader) (Z.of_nat (length kept) - 1))
                           dimension sorting_method)
            end) as Hfilter.
  { unfold ILRM.filter. fold kept. rewrite Hsm, Hdim, Hst.
    unfold ILR.__init__.
    destruct kept as [|p0 rest] eqn:Hk; [reflexivity|].
    cbv zeta.
    assert ((if ILR._stop reader =? 0 then Z.of_nat (length (p0 :: rest)) - 1
             else Z.min (Z.of_nat (length (p0 :: rest)) - 1) (ILR._stop reader))
            = Z.min (ILR._stop reader) (Z.of_nat (length (p0 :: rest)) - 1)) as ->.
    { destruct (Z.eqb_spec (ILR._stop reader) 0) as [H0|H0]; [|lia].
      specialize (Hzero H0). simpl length in *. lia. }
    replace (Z.max (ILR._step reader) 1) with (ILR._step reader) by lia.
    rewrite Z.geb_leb.
    destruct (Z.leb_spec start
                (Z.min (ILR._stop reader) (Z.of_nat (length (p0 :: rest)) - 1))),
             (Z.ltb_spec (Z.of_nat (length (p0 :: rest))) (start + 1));
      first [reflexivity | lia]. }
  split; [exact Hfilter|].
  intros reader' Hreader'. rewrite Hfilter in Hreader'.
  destruct kept as [|p0 rest] eqn:Hk; [discriminate Hreader'|].
  destruct (Z.ltb_spec (Z.of_nat (length (p0 :: rest))) (start + 1)) as [|Hlen];
    [discriminate Hreader'|].
  injection Hreader' as <-.
  unfold ILR.__len__, ILR.frame_range, range.
  cbn [ILR._start ILR._stop ILR._step].
  rewrite Hst, Hstep.
  destruct (Z.eqb_spec (Z.max step 1) 0); [lia|].
  eexists _, _. split; [reflexivity|]. split; [reflexivity|].
  apply range_len_stop_mono; lia.
Qed.

(** X8: a reader built with the lexicographic or the predefined order
    holds a rearrangement of the paths it was given, so a path is in the
    reader exactly if it was among them. *)
Theorem contains_the_given_paths (source_path : list string) (step start : Z)
    (stop : option Z) (dimension : DimensionType) (sorting_method : SortingMethod)
    (reader : ILR.t) (media_file : string) :
  ILR.__init__ os_sorted shuffle source_path step start stop dimension sorting_method
    = Ok reader ->
  sorting_method = LEXICOGRAPHICAL \/ sorting_method = PREDEFINED ->
  ILR._source_path reader ≡ₚ source_path /\
  ILRM.__contains__ reader media_file = bool_decide (media_file ∈ source_path).
Proof.
  intros Hinit Hsm.
  assert (ILR._source_path reader = ILR.sort os_sorted shuffle source_path sorting_method)
    as Hpaths.
  { unfold ILR.__init__ in Hinit. destruct source_path; [discriminate|].
    destruct (_ >=? _); [|discriminate]. injection Hinit as <-. reflexivity. }
  assert (ILR._source_path reader ≡ₚ source_path) as Hperm.
  { rewrite Hpaths. destruct Hsm as [-> | ->]; simpl; [apply sorted_perm | reflexivity]. }
  split; [exact Hperm|].
  unfold ILRM.__contains__. apply bool_decide_ext. rewrite Hperm. reflexivity.
Qed.

Lemma paths_from_drop (self : ILR.t) (n : nat) : forall idx : nat,
  (idx + n)%nat = length (ILR._source_path self) ->
  ILRM.paths_from self (Z.of_nat idx) n = Ok (drop idx (ILR._source_path self)).
Proof.
  induction n as [|n IH]; intros idx Hlen; simpl.
  - rewrite drop_ge by lia. reflexivity.
  - destruct (list_getitem_in_range (ILR._source_path self) (Z.of_nat idx))
      as (p & Hp & Hget); [lia|].
    unfold ILRM.get_path. rewrite Hget.
    replace (Z.of_nat idx + 1) with (Z.of_nat (S idx)) by lia.
    rewrite IH by lia. rewrite Nat2Z.id in Hp.
    rewrite (drop_S _ _ _ Hp). reflexivity.
Qed.

(** X9: [absolute_source_paths] raises nothing and is the list of paths
    the reader holds, in their order. *)
Theorem absolute_source_paths_are_the_paths (self : ILR.t) :
  ILRM.absolute_source_paths self = Ok (ILR._source_path self).
Proof. apply (paths_from_drop self _ 0%nat). reflexivity. Qed.

End ImageListMethodsProofs.

Lemma iter_yields_frame_range_witness :
  exists items,
    ILRM.__iter__ (ILR.Build ["a"; "b"; "c"]%string 2 0 2 DIM_2D LEXICOGRAPHICAL)
    = (items, None) /\
    ILR.__len__ (ILR.Build ["a"; "b"; "c"]%string 2 0 2 DIM_2D LEXICOGRAPHICAL)
    = Ok (Z.of_nat (length items)) /\
    forall k item, items !! k = Some item ->
      let i := 0 + Z.of_nat k * Z.max 2 1 in
      0 <= i <= 2 /\
      exists path, ["a"; "b"; "c"]%string !! Z.to_nat i = Some path /\
                   item = (path, path, i).
Proof.
  apply (iter_yields_frame_range (fun l => l) (fun l => l)
           ["b"; "a"; "c"]%string 2 0 None DIM_2D LEXICOGRAPHICAL).
  - reflexivity.
  - reflexivity.
  - lia.
Defined.

Lemma filter_outcome_witness :
  let reader := ILR.Build ["a"; "b"; "c"]%string 1 0 2 DIM_2D PREDEFINED in
  ILRM.filter (fun l => l) (fun l => l) (fun p => negb (String.eqb p "b")) reader
  = Ok (ILR.Build ["a"; "c"]%string 1 0 1 DIM_2D PREDEFINED) /\
  ILRM.filter (fun l => l) (fun l => l) (fun p => String.eqb p "d") reader
  = Raise (Exception "No image found").
Proof.
  intros reader. split.
  - exact (proj1 (filter_outcome (fun l => l) (fun l => l)
                    ["a"; "b"; "c"]%string 1 0 None DIM_2D PREDEFINED reader
                    (fun p => negb (String.eqb p "b")) eq_refl eq_refl)).
  - exact (proj1 (filter_outcome (fun l => l) (fun l => l)
                    ["a"; "b"; "c"]%string 1 0 None DIM_2D PREDEFINED reader
                    (fun p => String.eqb p "d") eq_refl eq_refl)).
Defined.

Lemma contains_the_given_paths_witness :
  ["a"; "b"]%string ≡ₚ ["b"; "a"]%string /\
  ILRM.__contains__ (ILR.Build ["a"; "b"]%string 1 0 1 DIM_2D LEXICOGRAPHICAL) "b" = true.
Proof.
  exact (contains_the_given_paths (fun l => l) (fun l => l)
           ["b"; "a"]%string 1 0 None DIM_2D LEXICOGRAPHICAL
           (ILR.Build ["a"; "b"]%string 1 0 1 DIM_2D LEXICOGRAPHICAL) "b"
           eq_refl (or_introl eq_refl)).
Defined.

(** ** The frames a video reader yields *)

Section VideoIterationProofs.
Variable rotate_image : VideoFrame -> Z -> VideoFrame.
Implicit Types (self : VR.t) (av_open : string -> result Video).

Lemma exposed_frame_pts (video : Video) (frame : VideoFrame) :
  frame_pts (VR.exposed_frame rotate_image video frame) = frame_pts frame.
Proof. unfold VR.exposed_frame. destruct (video_rotate video); reflexivity. Qed.

Lemma range_len_step (next last step : Z) :
  1 <= step -> next <= last ->
  range_len (Range next (last + 1) step)
  = 1 + range_len (Range (next + step) (last + 1) step).
Proof.
  intros Hstep Hle. unfold range_len. simpl.
  destruct (Z.ltb_spec 0 step); [|lia].
  destruct (Z.ltb_spec next (last + 1)); [|lia].
  destruct (Z.ltb_spec (next + step) (last + 1)).
  - replace (last + 1 - next - 1) with (last + 1 - (next + step) - 1 + 1 * step) by lia.
    rewrite Z.div_add by lia. lia.
  - rewrite Z.div_small by lia. lia.
Qed.

Lemma range_len_empty (next last step : Z) :
  1 <= step -> last < next -> range_len (Range next (last + 1) step) = 0.
Proof.
  intros Hstep Hlt. unfold range_len. simpl.
  destruct (Z.ltb_spec 0 step); [|lia].
  destruct (Z.ltb_spec next (last + 1)); [lia | reflexivity].
Qed.

Lemma range_len_nonneg (start stop step : Z) :
  1 <= step -> 0 <= range_len (Range start stop step).
Proof.
  intros Hstep. unfold range_len. simpl.
  destruct (Z.ltb_spec 0 step); [|lia].
  destruct (Z.ltb_spec start stop); [|lia].
  assert (0 <= (stop - start - 1) / step) by (apply Z.div_pos; lia). lia.
Qed.

(** The frames the loop yields for a counting filter: one for each number
    of the count that the decoder reaches, up to the bound. *)
Lemma decode_loop_count (video : Video) (path : string) (step : Z) (bound : option Z) :
  1 <= step ->
  forall (frames : list VideoFrame) (j next : Z) self,
    j <= next ->
    match bound with Some b => next <= b | None => True end ->
    let last :=
      match bound with
      | Some b => Z.min b (j + Z.of_nat (length frames) - 1)
      | None => j + Z.of_nat (length frames) - 1
      end in
    exists yielded,
      snd (VR.decode_loop rotate_image video path frames j next
             (FCount (next + step) step bound) self) = Ok yielded /\
      Z.of_nat (length yielded) = range_len (Range next (last + 1) step) /\
      forall (k : nat) y, yielded !! k = Some y ->
        exists frame,
          frames !! Z.to_nat (next + Z.of_nat k * step - j) = Some frame /\
          y = (VR.exposed_frame rotate_image video frame, path, frame_pts frame).
Proof.
  intros Hstep. induction frames as [|frame frames IH]; intros j next self Hj Hb last.
  - exists []. simpl. split; [reflexivity|]. split.
    + rewrite range_len_empty; [reflexivity | lia |].
      unfold last. simpl. destruct bound; lia.
    + intros k y Hk. rewrite lookup_nil in Hk. discriminate.
  - assert (last = match bound with
                   | Some b => Z.min b (j + 1 + Z.of_nat (length frames) - 1)
                   | None => j + 1 + Z.of_nat (length frames) - 1
                   end) as Hlast.
    { unfold last. simpl length. destruct bound; lia. }
    cbn [VR.decode_loop].
    destruct (Z.eqb_spec j next) as [->|Hne].
    + set (self1 := match VR._frame_size self with
                    | None => VR.set_frame_size self _
                    | Some _ => self
                    end).
      assert (next <= last) as Hin.
      { unfold last. simpl length. destruct bound; lia. }
      assert (filter_next (FCount (next + step) step bound)
              = if match bound with Some b => next + step <=? b | None => true end
                then Some (next + step, FCount (next + step + step) step bound)
                else None) as Hnext.
      { destruct bound; reflexivity. }
      rewrite Hnext.
      destruct (match bound with Some b => next + step <=? b | None => true end) eqn:Hgo.
      * destruct (IH (next + 1) (next + step) self1) as (ys & Hys & Hlen & Hall).
        { lia. }
        { destruct bound as [b|]; [apply Z.leb_le in Hgo; lia | exact I]. }
        destruct (VR.decode_loop _ _ _ _ _ _ _ self1) as [self' r]. simpl in Hys. subst r.
        exists ((VR.exposed_frame rotate_image video frame, path,
                 frame_pts (VR.exposed_frame rotate_image video frame)) :: ys).
        split; [reflexivity|]. split.
        { rewrite range_len_step by lia. rewrite Hlast, <- Hlen. simpl length. lia. }
        intros [|k] y Hk; simpl in Hk.
        -- injection Hk as <-. exists frame.
           replace (Z.to_nat (next + Z.of_nat 0 * step - next)) with 0%nat by lia.
           split; [reflexivity|]. rewrite exposed_frame_pts. reflexivity.
        -- destruct (Hall k y Hk) as (f & Hf & ->). exists f. split; [|reflexivity].
           assert (0 <= Z.of_nat k * step) by (apply Z.mul_nonneg_nonneg; lia).
           replace (Z.to_nat (next + Z.of_nat (S k) * step - next))
             with (S (Z.to_nat (next + step + Z.of_nat k * step - (next + 1)))) by lia.
           exact Hf.
      * exists [(VR.exposed_frame rotate_image video frame, path,
                 frame_pts (VR.exposed_frame rotate_image video frame))].
        split; [reflexivity|]. split.
        { destruct bound as [b|]; [|discriminate]. apply Z.leb_gt in Hgo.
          rewrite range_len_step by lia.
          rewrite range_len_empty by (unfold last; lia). reflexivity. }
        intros [|k] y Hk; simpl in Hk; [|rewrite lookup_nil in Hk; discriminate].
        injection Hk as <-. exists frame.
        replace (Z.to_nat (next + Z.of_nat 0 * step - next)) with 0%nat by lia.
        split; [reflexivity|]. rewrite exposed_frame_pts. reflexivity.
    + destruct (IH (j + 1) next self) as (ys & Hys & Hlen & Hall); [lia | exact Hb |].
      exists ys. split; [exact Hys|]. split; [rewrite Hlast; exact Hlen|].
      intros k y Hk. destruct (Hall k y Hk) as (f & Hf & ->).
      exists f. split; [|reflexivity].
      assert (0 <= Z.of_nat k * step) by (apply Z.mul_nonneg_nonneg; lia).
      replace (Z.to_nat (next + Z.of_nat k * step - j))
        with (S (Z.to_nat (next + Z.of_nat k * step - (j + 1)))) by lia.
      exact Hf.
Qed.

(** [iterate_frames] with the settings of the reader, over a source that
    opens. *)
Lemma iterate_configured_unfold av_open self (path : string) (rest : list string)
    (video : Video) :
  VR._source_path self = path :: rest ->
  av_open path = Ok video ->
  VR.iterate_frames av_open rotate_image FilterTrue self
  = if match configured_bound (VR._stop self) with
       | Some b => VR._start self <=? b
       | None => true
       end
    then VR.decode_loop rotate_image video path (video_frames video) 0 (VR._start self)
           (FCount (VR._start self + VR._step self) (VR._step self)
              (configured_bound (VR._stop self))) self
    else (self, Ok []).
Proof.
  intros Hsrc Hopen.
  unfold VR.iterate_frames. unfold bind at 1. unfold get.
  assert (VR.make_filter self FilterTrue
          = FCount (VR._start self) (VR._step self) (configured_bound (VR._stop self)))
    as ->.
  { unfold VR.make_filter, configured_bound. destruct (VR._stop self) as [s|]; [|reflexivity].
    destruct (s =? 0); reflexivity. }
  destruct (configured_bound (VR._stop self)) as [b|]; cbn [filter_next].
  - destruct (VR._start self <=? b); [|reflexivity].
    unfold bind, VR.source_path_0. rewrite Hsrc, Hopen. reflexivity.
  - unfold bind, VR.source_path_0. rewrite Hsrc, Hopen. reflexivity.
Qed.

Lemma last_configured_bound (stop : option Z) (n : Z) :
  last_configured stop n
  = match configured_bound stop with
    | Some b => Z.min b (0 + n - 1)
    | None => 0 + n - 1
    end.
Proof.
  unfold last_configured, configured_bound. destruct stop as [s|]; [|lia].
  destruct (s =? 0); lia.
Qed.

(** X10: iterating a video reader with its own settings, a start that is
    not negative and a step of at least 1.  The frames yielded are those
    the decoder gives at the numbers [start], [start + step], ... up to the
    stop and the end of the video, as many as the range of these numbers
    is long, where a stop of [None] or [0] is no stop.  Each frame comes
    with the path of the source and the timestamp the decoder gave it,
    also when the frame is rotated. *)
Theorem iter_yields_configured_frames av_open self (path : string) (rest : list string)
    (video : Video) :
  VR._source_path self = path :: rest ->
  av_open path = Ok video ->
  1 <= VR._step self ->
  0 <= VR._start self ->
  let last := last_configured (VR._stop self) (Z.of_nat (length (video_frames video))) in
  exists yielded,
    snd (VR.__iter__ av_open rotate_image self) = Ok yielded /\
    Z.of_nat (length yielded) = range_len (Range (VR._start self) (last + 1) (VR._step self)) /\
    forall (k : nat) y, yielded !! k = Some y ->
      exists frame,
        video_frames video !! Z.to_nat (VR._start self + Z.of_nat k * VR._step self)
          = Some frame /\
        y = (VR.exposed_frame rotate_image video frame, path, frame_pts frame).
Proof.
  intros Hsrc Hopen Hstep Hstart last.
  unfold VR.__iter__. rewrite (iterate_configured_unfold av_open self path rest video Hsrc Hopen).
  unfold last. rewrite last_configured_bound.
  destruct (match configured_bound (VR._stop self) with
            | Some b => VR._start self <=? b
            | None => true
            end) eqn:Hgo.
  - destruct (decode_loop_count video path (VR._step self) (configured_bound (VR._stop self))
                Hstep (video_frames video) 0 (VR._start self) self Hstart)
      as (ys & Hys & Hlen & Hall).
    { destruct (configured_bound _) as [b|]; [apply Z.leb_le in Hgo; lia | exact I]. }
    exists ys. split; [exact Hys|]. split; [exact Hlen|].
    intros k y Hk. destruct (Hall k y Hk) as (f & Hf & ->).
    exists f. split; [|reflexivity]. rewrite Z.sub_0_r in Hf. exact Hf.
  - exists []. split; [reflexivity|]. split.
    + destruct (configured_bound _) as [b|]; [|discriminate]. apply Z.leb_gt in Hgo.
      rewrite range_len_empty; [reflexivity | lia | lia].
    + intros k y Hk. rewrite lookup_nil in Hk. discriminate.
Qed.

(** Once the frame size is known, no loop assigns it again. *)
Lemma decode_loop_keeps_size (video : Video) (path : string) (frames : list VideoFrame) :
  forall (j next : Z) (it : filter_iter) self (s : Z * Z),
    VR._frame_size self = Some s ->
    fst (VR.decode_loop rotate_image video path frames j next it self) = self.
Proof.
  induction frames as [|frame frames IH]; intros j next it self s Hs; [reflexivity|].
  cbn [VR.decode_loop]. rewrite Hs.
  destruct (j =? next); [|apply (IH _ _ _ _ s Hs)].
  destruct (filter_next it) as [[next' it']|]; [|reflexivity].
  specialize (IH (j + 1) next' it' self s Hs).
  destruct (VR.decode_loop _ _ _ _ _ _ _ self) as [self' [ys|e]]; exact IH.
Qed.

Lemma iterate_frames_keeps_size av_open (f : FrameFilter) self (s : Z * Z) :
  VR._frame_size self = Some s ->
  fst (VR.iterate_frames av_open rotate_image f self) = self.
Proof.
  intros Hs. unfold VR.iterate_frames, bind, get, ret, raise.
  destruct (filter_next _) as [[next it]|]; [|reflexivity].
  unfold VR.source_path_0. destruct (VR._source_path self) as [|path rest]; [reflexivity|].
  destruct (av_open path) as [video|e]; [|reflexivity].
  apply (decode_loop_keeps_size video path _ _ _ _ _ s Hs).
Qed.

Lemma get_image_size_memo av_open (i : Z) self (s : Z * Z) :
  VR._frame_size self = Some s ->
  VR.get_image_size av_open rotate_image i self = (self, Ok s).
Proof. intros Hs. unfold VR.get_image_size, bind, get, ret. rewrite Hs. reflexivity. Qed.

Lemma run_keeps_frame_size (later : list ((string -> result Video) * VR.call)) self
    (s : Z * Z) :
  VR._frame_size self = Some s ->
  VR._frame_size (VR.run rotate_image self later) = Some s.
Proof.
  revert self. induction later as [|[av_open c] later IH]; intros self Hs; simpl.
  - exact Hs.
  - apply IH. destruct c as [|f|i]; simpl.
    + unfold VR.get_frame_count. unfold bind at 1. unfold get.
      destruct (VR._frame_count self); [exact Hs|].
      unfold bind at 1.
      pose proof (iterate_frames_keeps_size av_open FilterFalse self s Hs) as Hit.
      destruct (VR.iterate_frames av_open rotate_image FilterFalse self) as [self' [ys|e]];
        simpl in Hit; subst self'; exact Hs.
    + rewrite (iterate_frames_keeps_size av_open f self s Hs). exact Hs.
    + rewrite (get_image_size_memo av_open i self s Hs). exact Hs.
Qed.

(** X11: the frame size of a new reader.  The first [get_image_size]
    returns the width and height of the frame at the start of the reader,
    as it is yielded, whatever index it is asked for; after any later
    calls, in whatever state the source then is and for whatever index,
    [get_image_size] returns that size and changes nothing. *)
Theorem image_size_is_of_start_frame_memoized av_open (path : string) (rest : list string)
    (video : Video) (step start : Z) (stop : option Z) (dimension : DimensionType)
    (allow_threading : bool) (i : Z) (frame : VideoFrame) :
  av_open path = Ok video ->
  1 <= step ->
  0 <= start ->
  video_frames video !! Z.to_nat start = Some frame ->
  match configured_bound stop with Some b => start <= b | None => True end ->
  let self := VR.__init__ (path :: rest) step start stop dimension allow_threading in
  let first := VR.exposed_frame rotate_image video frame in
  let sized := VR.get_image_size av_open rotate_image i self in
  snd sized = Ok (frame_width first, frame_height first) /\
  forall (later : list ((string -> result Video) * VR.call))
         (av_open' : string -> result Video) (i' : Z),
    let self' := VR.run rotate_image (fst sized) later in
    VR.get_image_size av_open' rotate_image i' self'
    = (self', Ok (frame_width first, frame_height first)).
Proof.
  intros Hopen Hstep Hstart Hframe Hbound self first sized.
  assert (exists self',
            sized = (VR.set_frame_size self' (Some (frame_width first, frame_height first)),
                     Ok (frame_width first, frame_height first))) as [self1 Hsized].
  { unfold sized, VR.get_image_size. unfold bind at 1. unfold get.
    cbn [VR._frame_size self VR.__init__]. unfold bind at 1. unfold VR.__iter__.
    rewrite (iterate_configured_unfold av_open self path rest video eq_refl Hopen).
    cbn [VR._stop VR._start VR._step self VR.__init__].
    assert (match configured_bound stop with
            | Some b => start <=? b
            | None => true
            end = true) as ->.
    { destruct (configured_bound stop); [apply Z.leb_le; assumption | reflexivity]. }
    destruct (decode_loop_count video path step (configured_bound stop) Hstep
                (video_frames video) 0 start self Hstart)
      as (ys & Hys & Hlen & Hall).
    { destruct (configured_bound stop); [assumption | exact I]. }
    apply lookup_lt_Some in Hframe as Hn.
    rewrite range_len_step in Hlen by (destruct (configured_bound stop); lia).
    destruct ys as [|y ys].
    { exfalso. simpl in Hlen.
      match type of Hlen with
      | _ = 1 + range_len (Range ?a ?b ?c) =>
          pose proof (range_len_nonneg a b c Hstep)
      end. lia. }
    destruct (Hall 0%nat y eq_refl) as (f & Hf & ->).
    replace (Z.to_nat (start + Z.of_nat 0 * step - 0)) with (Z.to_nat start) in Hf by lia.
    rewrite Hframe in Hf. injection Hf as <-.
    destruct (VR.decode_loop _ _ _ _ _ _ _ self) as [self' r]. simpl in Hys. subst r.
    unfold modify, ret, bind. exists self'. reflexivity. }
  rewrite Hsized. split; [reflexivity|].
  intros later av_open' i' self'.
  apply get_image_size_memo, run_keeps_frame_size. reflexivity.
Qed.

End VideoIterationProofs.

Lemma iter_yields_configured_frames_witness :
  let video := {| video_frames := [Frame 4 2 (Some 0) None 0; Frame 4 2 (Some 10) None 1;
                                   Frame 4 2 (Some 20) None 2; Frame 4 2 (Some 30) None 3];
                  video_rotate := Some 90 |} in
  let self := VR.__init__ ["v.mp4"%string] 2 1 (Some 9) DIM_2D false in
  let rotate := fun (f : VideoFrame) (_ : Z) =>
                  Frame (frame_height f) (frame_width f) None None (frame_image f) in
  exists yielded,
    snd (VR.__iter__ (fun _ => Ok video) rotate self) = Ok yielded /\
    Z.of_nat (length yielded) = 2 /\
    forall (k : nat) y, yielded !! k = Some y ->
      exists frame,
        video_frames video !! Z.to_nat (1 + Z.of_nat k * 2) = Some frame /\
        y = (VR.exposed_frame rotate video frame, "v.mp4"%string, frame_pts frame).
Proof.
  intros video self rotate.
  apply (iter_yields_configured_frames rotate (fun _ => Ok video) self "v.mp4" [] video).
  - reflexivity.
  - reflexivity.
  - simpl. lia.
  - simpl. lia.
Defined.

Lemma image_size_is_of_start_frame_memoized_witness :
  let video := {| video_frames := [Frame 4 2 (Some 0) None 0; Frame 6 8 (Some 10) None 1];
                  video_rotate := Some 90 |} in
  let rotate := fun (f : VideoFrame) (_ : Z) =>
                  Frame (frame_height f) (frame_width f) None None (frame_image f) in
  snd (VR.get_image_size (fun _ => Ok video) rotate 0
         (VR.__init__ ["v.mp4"%string] 1 1 None DIM_2D false))
  = Ok (8, 6).
Proof.
  intros video rotate.
  apply (image_size_is_of_start_frame_memoized rotate (fun _ => Ok video) "v.mp4" []
           video 1 1 None DIM_2D false 0 (Frame 6 8 (Some 10) None 1)).
  - reflexivity.
  - lia.
  - lia.
  - reflexivity.
  - exact I.
Defined.

(** ** The two video readers side by side *)

Section ManifestIterationProofs.
Variable rotate_image : VideoFrame -> Z -> VideoFrame.
Variable seek : Video -> Z -> list VideoFrame.

Lemma nearest_left_key_frame_cases (self : VRM.t) (frame_id : Z) :
  is_ascending (VRM.manifest self) = true ->
  VRM._get_nearest_left_key_frame self frame_id = Ok (0, 0) \/
  exists e, e ∈ VRM.manifest self /\ number e <= frame_id /\
            VRM._get_nearest_left_key_frame self frame_id = Ok (number e, pts e).
Proof.
  intros Hasc. unfold VRM._get_nearest_left_key_frame.
  destruct (bisect_spec (VRM.manifest self) frame_id Hasc) as (p & -> & Hp & Hl & _).
  destruct (Z.eqb_spec p 0) as [->|Hp0]; simpl; [left; reflexivity|].
  right. unfold VRM.manifest_getitem.
  destruct (lookup_lt_is_Some_2 (VRM.manifest self) (Z.to_nat (p - 1)) ltac:(lia))
    as [e He].
  rewrite He. exists e. split; [apply list_elem_of_lookup; eauto|].
  split; [|reflexivity]. apply (Hl (Z.to_nat (p - 1))); [lia | exact He].
Qed.

(** Frames before the next requested number are passed over. *)
Lemma manifest_decode_skip (video : Video) (k : nat) :
  forall (frames : list VideoFrame) (j next : Z) (ids : list Z),
    j + Z.of_nat k <= next ->
    VRMM.decode_loop rotate_image video frames j next ids
    = VRMM.decode_loop rotate_image video (drop k frames) (j + Z.of_nat k) next ids.
Proof.
  induction k as [|k IH]; intros frames j next ids Hle.
  - rewrite drop_0, Z.add_0_r. reflexivity.
  - destruct frames as [|frame frames]; [reflexivity|].
    cbn [VRMM.decode_loop drop].
    destruct (Z.eqb_spec j next); [lia|].
    rewrite (IH frames (j + 1) next ids) by lia.
    replace (j + 1 + Z.of_nat k) with (j + Z.of_nat (S k)) by lia. reflexivity.
Qed.

Lemma exposed_frames_agree (video : Video) (frame : VideoFrame) :
  clear_pts (VR.exposed_frame rotate_image video frame)
  = clear_pts (VRMM.exposed_frame rotate_image video frame) /\
  (video_rotate video = None ->
   VR.exposed_frame rotate_image video frame
   = VRMM.exposed_frame rotate_image video frame).
Proof.
  unfold VR.exposed_frame, VRMM.exposed_frame.
  destruct (video_rotate video); split; try reflexivity. discriminate.
Qed.

(** Over the same frames and the same list of numbers, the loops of the
    two readers yield the same frames, up to the timestamp of a rotated
    frame. *)
Lemma reader_loops_agree (video : Video) (path : string) (frames : list VideoFrame) :
  forall (j next : Z) (ids : list Z) (self : VR.t),
    exists yielded,
      snd (VR.decode_loop rotate_image video path frames j next (FList ids) self)
      = Ok yielded /\
      clear_pts <$> ((fun y => fst (fst y)) <$> yielded)
      = clear_pts <$> VRMM.decode_loop rotate_image video frames j next ids /\
      (video_rotate video = None ->
       (fun y => fst (fst y)) <$> yielded
       = VRMM.decode_loop rotate_image video frames j next ids).
Proof.
  induction frames as [|frame frames IH]; intros j next ids self.
  - exists []. repeat split; reflexivity.
  - cbn [VR.decode_loop VRMM.decode_loop].
    destruct (j =? next); [|apply IH].
    destruct (exposed_frames_agree video frame) as [Hclear Hsame].
    set (self1 := match VR._frame_size self with
                  | None => VR.set_frame_size self _
                  | Some _ => self
                  end).
    destruct ids as [|next' ids']; cbn [filter_next].
    + eexists. split; [reflexivity|]. cbn [fmap list_fmap fst].
      split; [rewrite Hclear; reflexivity|].
      intros Hrot. rewrite (Hsame Hrot). reflexivity.
    + destruct (IH (j + 1) next' ids' self1) as (ys & Hys & Hc & Hs).
      destruct (VR.decode_loop _ _ _ _ _ _ _ self1) as [self' r]. simpl in Hys. subst r.
      eexists. split; [reflexivity|]. cbn [fmap list_fmap fst].
      split.
      * rewrite Hclear. f_equal. exact Hc.
      * intros Hrot. rewrite (Hsame Hrot). f_equal. exact (Hs Hrot).
Qed.

(** X12: reading through the manifest gives the frames of the plain
    reader.  Over an index in ascending order that is accurate for the
    video, so that a seek to the timestamp of an entry starts the decoder
    at the frame of its number and a seek to 0 at the first frame, the
    frames yielded for a list of frame numbers are those the plain reader
    yields for the list, up to the timestamps of rotated frames; they are
    the same frames when the video is not rotated. *)
Theorem manifest_reader_yields_the_same_frames
    (av_open : string -> result Video) (self : VRM.t) (reader : VR.t)
    (rest : list string) (video : Video) (next : Z) (ids : list Z) :
  VR._source_path reader = VRM.source_path self :: rest ->
  av_open (VRM.source_path self) = Ok video ->
  is_ascending (VRM.manifest self) = true ->
  seek video 0 = video_frames video ->
  (forall e, e ∈ VRM.manifest self ->
     0 <= number e /\
     seek video (pts e) = drop (Z.to_nat (number e)) (video_frames video)) ->
  exists yielded frames,
    snd (VR.iterate_frames av_open rotate_image (FilterIds (next :: ids)) reader)
    = Ok yielded /\
    VRMM.iterate_frames av_open seek rotate_image self (next :: ids) = Ok frames /\
    clear_pts <$> ((fun y => fst (fst y)) <$> yielded) = clear_pts <$> frames /\
    (video_rotate video = None -> (fun y => fst (fst y)) <$> yielded = frames).
Proof.
  intros Hsrc Hopen Hasc Hzero Hseek.
  unfold VR.iterate_frames, VRMM.iterate_frames.
  unfold bind at 1. unfold get. cbn [VR.make_filter filter_next].
  unfold bind, VR.source_path_0. rewrite Hsrc, Hopen.
  destruct (reader_loops_agree video (VRM.source_path self) (video_frames video)
              0 next ids reader) as (ys & Hys & Hc & Hs).
  assert (exists n ts,
            VRM._get_nearest_left_key_frame self next = Ok (n, ts) /\
            VRMM.decode_loop rotate_image video (seek video ts) n next ids
            = VRMM.decode_loop rotate_image video (video_frames video) 0 next ids)
    as (n & ts & -> & Hskip).
  { destruct (nearest_left_key_frame_cases self next Hasc) as [H0|(e & Hin & Hle & He)].
    - exists 0, 0. split; [exact H0|]. rewrite Hzero. reflexivity.
    - exists (number e), (pts e). split; [exact He|].
      destruct (Hseek e Hin) as [Hpos ->].
      rewrite (manifest_decode_skip video (Z.to_nat (number e)) (video_frames video)
                 0 next ids) by lia.
      f_equal. lia. }
  exists ys. eexists. split; [exact Hys|]. split; [reflexivity|].
  rewrite Hskip. split; assumption.
Qed.


End ManifestIterationProofs.

Lemma manifest_reader_yields_the_same_frames_witness :
  let video := {| video_frames := [Frame 4 2 (Some 0) None 0; Frame 4 2 (Some 10) None 1;
                                   Frame 4 2 (Some 20) None 2; Frame 4 2 (Some 30) None 3];
                  video_rotate := None |} in
  let seek := fun (v : Video) (ts : Z) => drop (Z.to_nat (ts / 10)) (video_frames v) in
  let self := VRM.Build "v.mp4" [Entry 0 0; Entry 2 20] false in
  exists yielded frames,
    snd (VR.iterate_frames (fun _ => Ok video) (fun f _ => f) (FilterIds [3])
           (VR.__init__ ["v.mp4"%string] 1 0 None DIM_2D false)) = Ok yielded /\
    VRMM.iterate_frames (fun _ => Ok video) seek (fun f _ => f) self [3] = Ok frames /\
    clear_pts <$> ((fun y => fst (fst y)) <$> yielded) = clear_pts <$> frames /\
    (video_rotate video = None -> (fun y => fst (fst y)) <$> yielded = frames).
Proof.
  intros video seek self.
  apply (manifest_reader_yields_the_same_frames (fun f _ => f) seek (fun _ => Ok video)
           self (VR.__init__ ["v.mp4"%string] 1 0 None DIM_2D false) [] video 3 []).
  - reflexivity.
  - reflexivity.
  - reflexivity.
  - reflexivity.
  - intros e He. simpl in He.
    apply elem_of_cons in He as [->|He]; [split; [simpl; lia | reflexivity]|].
    apply elem_of_cons in He as [->|He]; [split; [simpl; lia | reflexivity]|].
    apply elem_of_nil in He. destruct He.
Defined.


(** ** A video reader asked for frames by number *)

Section VideoFilterProofs.
Variable rotate_image : VideoFrame -> Z -> VideoFrame.
Implicit Types (self : VR.t) (av_open : string -> result Video).

Lemma strictly_ascending_head (a : Z) (ids : list Z) :
  strictly_ascending (a :: ids) = true ->
  strictly_ascending ids = true /\ Forall (fun b => a < b) ids.
Proof.
  revert a. induction ids as [|b ids IH]; intros a Hasc.
  - split; [reflexivity | constructor].
  - simpl in Hasc. apply andb_true_iff in Hasc as [Hlt%Z.ltb_lt Hrest].
    split; [exact Hrest|]. constructor; [exact Hlt|].
    destruct (IH b Hrest) as [_ Hall].
    eapply Forall_impl; [exact Hall|]. simpl. intros c Hc. lia.
Qed.

Lemma omap_agree {A B : Type} (f g : A -> option B) (l : list A) :
  Forall (fun x => f x = g x) l -> omap f l = omap g l.
Proof.
  induction 1 as [|x l Hx Hl IH]; [reflexivity|].
  unfold omap in *. simpl. rewrite Hx, IH. reflexivity.
Qed.

Lemma omap_nothing {A B : Type} (f : A -> option B) (l : list A) :
  Forall (fun x => f x = None) l -> omap f l = [].
Proof.
  induction 1 as [|x l Hx Hl IH]; [reflexivity|].
  unfold omap in *. simpl. rewrite Hx, IH. reflexivity.
Qed.

(** Once the counter has passed the number asked for, nothing is yielded. *)
Lemma decode_loop_past (video : Video) (path : string) (frames : list VideoFrame) :
  forall (j next : Z) (it : filter_iter) self,
    next < j ->
    snd (VR.decode_loop rotate_image video path frames j next it self) = Ok [].
Proof.
  induction frames as [|frame frames IH]; intros j next it self Hlt; [reflexivity|].
  cbn [VR.decode_loop]. destruct (Z.eqb_spec j next); [lia|].
  apply IH. lia.
Qed.

(** The loop over a list of numbers in ascending order yields the frames
    at these numbers, as far as the video has them. *)
Lemma decode_loop_ids (video : Video) (path : string) (frames : list VideoFrame) :
  forall (j next : Z) (ids : list Z) self,
    j <= next ->
    strictly_ascending (next :: ids) = true ->
    snd (VR.decode_loop rotate_image video path frames j next (FList ids) self)
    = Ok ((fun frame => (VR.exposed_frame rotate_image video frame, path, frame_pts frame))
            <$> omap (fun i => frames !! Z.to_nat (i - j)) (next :: ids)).
Proof.
  induction frames as [|frame frames IH]; intros j next ids self Hj Hasc.
  - rewrite omap_nothing; [reflexivity|].
    apply Forall_forall. intros i _. apply lookup_nil.
  - destruct (strictly_ascending_head next ids Hasc) as [Hrest Hall].
    cbn [VR.decode_loop].
    destruct (Z.eqb_spec j next) as [->|Hne].
    + set (self1 := match VR._frame_size self with
                    | None => VR.set_frame_size self _
                    | Some _ => self
                    end).
      change (omap (fun i => (frame :: frames) !! Z.to_nat (i - next)) (next :: ids))
        with (match (frame :: frames) !! Z.to_nat (next - next) with
              | Some y => y :: omap (fun i => (frame :: frames) !! Z.to_nat (i - next)) ids
              | None => omap (fun i => (frame :: frames) !! Z.to_nat (i - next)) ids
              end).
      replace (Z.to_nat (next - next)) with 0%nat by lia. cbn [lookup list_lookup].
      rewrite (omap_agree (fun i => (frame :: frames) !! Z.to_nat (i - next))
                 (fun i => frames !! Z.to_nat (i - (next + 1))) ids).
      2:{ eapply Forall_impl; [exact Hall|]. simpl. intros i Hi.
          replace (Z.to_nat (i - next)) with (S (Z.to_nat (i - (next + 1)))) by lia.
          reflexivity. }
      cbn [fmap list_fmap]. rewrite exposed_frame_pts.
      destruct ids as [|next' ids']; cbn [filter_next]; [reflexivity|].
      apply Forall_cons in Hall as [Hlt _].
      specialize (IH (next + 1) next' ids' self1 ltac:(lia) Hrest).
      destruct (VR.decode_loop _ _ _ _ _ _ _ self1) as [self' r]. simpl in IH. subst r.
      reflexivity.
    + rewrite (IH (j + 1) next ids self ltac:(lia) Hasc). f_equal. f_equal.
      apply omap_agree. constructor.
      * replace (Z.to_nat (next - j)) with (S (Z.to_nat (next - (j + 1)))) by lia.
        reflexivity.
      * eapply Forall_impl; [exact Hall|]. simpl. intros i Hi.
        replace (Z.to_nat (i - j)) with (S (Z.to_nat (i - (j + 1)))) by lia.
        reflexivity.
Qed.

(** X26: a video reader asked for a list of frame numbers, none negative
    and each larger than the one before.  It yields the frames the
    decoder gives at these numbers, in order, leaving out the numbers past
    the end of the video, each with the path of the source and the
    timestamp the decoder gave it. *)
Theorem iterate_frames_yields_the_listed_frames av_open self (path : string)
    (rest : list string) (video : Video) (next : Z) (ids : list Z) :
  VR._source_path self = path :: rest ->
  av_open path = Ok video ->
  0 <= next ->
  strictly_ascending (next :: ids) = true ->
  snd (VR.iterate_frames av_open rotate_image (FilterIds (next :: ids)) self)
  = Ok ((fun frame => (VR.exposed_frame rotate_image video frame, path, frame_pts frame))
          <$> omap (fun i => video_frames video !! Z.to_nat i) (next :: ids)).
Proof.
  intros Hsrc Hopen Hnext Hasc.
  unfold VR.iterate_frames. unfold bind at 1. unfold get.
  cbn [VR.make_filter filter_next].
  unfold bind, VR.source_path_0. rewrite Hsrc, Hopen.
  rewrite (decode_loop_ids video path (video_frames video) 0 next ids self Hnext Hasc).
  f_equal. f_equal. apply omap_agree, Forall_forall. intros i _.
  rewrite Z.sub_0_r. reflexivity.
Qed.

(** The loop reaches the frame asked for; when the number after it is not
    larger, that frame is all it yields. *)
Lemma decode_loop_descending (video : Video) (path : string) (frames : list VideoFrame) :
  forall (j next after : Z) (ids : list Z) self (frame : VideoFrame),
    j <= next -> after <= next ->
    frames !! Z.to_nat (next - j) = Some frame ->
    snd (VR.decode_loop rotate_image video path frames j next (FList (after :: ids)) self)
    = Ok [(VR.exposed_frame rotate_image video frame, path, frame_pts frame)].
Proof.
  induction frames as [|frame0 frames IH]; intros j next after ids self frame Hj Hafter Hframe.
  - rewrite lookup_nil in Hframe. discriminate.
  - cbn [VR.decode_loop].
    destruct (Z.eqb_spec j next) as [->|Hne].
    + replace (Z.to_nat (next - next)) with 0%nat in Hframe by lia.
      injection Hframe as ->. cbn [filter_next].
      set (self1 := match VR._frame_size self with
                    | None => VR.set_frame_size self _
                    | Some _ => self
                    end).
      pose proof (decode_loop_past video path frames (next + 1) after (FList ids) self1
                    ltac:(lia)) as Hpast.
      destruct (VR.decode_loop _ _ _ _ _ _ _ self1) as [self' r]. simpl in Hpast. subst r.
      cbn [snd]. rewrite exposed_frame_pts. reflexivity.
    + apply IH; [lia | lia|].
      replace (Z.to_nat (next - j)) with (S (Z.to_nat (next - (j + 1)))) in Hframe by lia.
      exact Hframe.
Qed.

(** X27: a list of frame numbers that does not ascend.  When the second
    number is not larger than the first, the reader yields the frame at
    the first number and nothing else, whatever the list goes on with: the
    decoder has passed the second number and the numbers after it are
    never looked at. *)
Theorem iterate_frames_stops_at_a_descent av_open self (path : string)
    (rest : list string) (video : Video) (next after : Z) (ids : list Z)
    (frame : VideoFrame) :
  VR._source_path self = path :: rest ->
  av_open path = Ok video ->
  0 <= next ->
  after <= next ->
  video_frames video !! Z.to_nat next = Some frame ->
  snd (VR.iterate_frames av_open rotate_image (FilterIds (next :: after :: ids)) self)
  = Ok [(VR.exposed_frame rotate_image video frame, path, frame_pts frame)].
Proof.
  intros Hsrc Hopen Hnext Hafter Hframe.
  unfold VR.iterate_frames. unfold bind at 1. unfold get.
  cbn [VR.make_filter filter_next].
  unfold bind, VR.source_path_0. rewrite Hsrc, Hopen.
  apply decode_loop_descending; [exact Hnext | exact Hafter|].
  rewrite Z.sub_0_r. exact Hframe.
Qed.

End VideoFilterProofs.

Lemma iterate_frames_yields_the_listed_frames_witness :
  let video := {| video_frames := [Frame 4 2 (Some 0) None 0; Frame 4 2 (Some 10) None 1;
                                   Frame 4 2 (Some 20) None 2; Frame 4 2 (Some 30) None 3];
                  video_rotate := None |} in
  snd (VR.iterate_frames (fun _ => Ok video) (fun f _ => f) (FilterIds [1; 3; 7])
         (VR.__init__ ["v.mp4"%string] 1 0 None DIM_2D false))
  = Ok [(Frame 4 2 (Some 10) None 1, "v.mp4"%string, Some 10);
        (Frame 4 2 (Some 30) None 3, "v.mp4"%string, Some 30)].
Proof.
  intros video.
  apply (iterate_frames_yields_the_listed_frames (fun f _ => f) (fun _ => Ok video)
           (VR.__init__ ["v.mp4"%string] 1 0 None DIM_2D false) "v.mp4" [] video 1 [3; 7]).
  - reflexivity.
  - reflexivity.
  - lia.
  - reflexivity.
Defined.

Lemma iterate_frames_stops_at_a_descent_witness :
  let video := {| video_frames := [Frame 4 2 (Some 0) None 0; Frame 4 2 (Some 10) None 1;
                                   Frame 4 2 (Some 20) None 2; Frame 4 2 (Some 30) None 3];
                  video_rotate := None |} in
  snd (VR.iterate_frames (fun _ => Ok video) (fun f _ => f) (FilterIds [2; 1; 3])
         (VR.__init__ ["v.mp4"%string] 1 0 None DIM_2D false))
  = Ok [(Frame 4 2 (Some 20) None 2, "v.mp4"%string, Some 20)].
Proof.
  intros video.
  apply (iterate_frames_stops_at_a_descent (fun f _ => f) (fun _ => Ok video)
           (VR.__init__ ["v.mp4"%string] 1 0 None DIM_2D false) "v.mp4" [] video 2 1 [3]
           (Frame 4 2 (Some 20) None 2)).
  - reflexivity.
  - reflexivity.
  - lia.
  - lia.
  - reflexivity.
Defined.

(** ** What the writers leave behind *)

Section WriterOutcomeProofs.
Context {Packet : Type} (lib : Libraries Packet).
Implicit Types (world : World Packet) (self : MP4.t).

(** The loop of the compressed zip writer over frames that compress:
    it appends one entry for each and one size for each, and goes on with
    the frames after them. *)
Lemma compress_frames_loop_prefix (zip_self : ZIP.t) (chunk_path : string)
    (pre : list (Media * string * string)) (compressed : list (Z * Z * list byte)) :
  ZIP._dimension zip_self = DIM_2D ->
  Forall2 (fun image r =>
             compress_image lib (fst (fst image)) (ZIP._image_quality zip_self) = Ok r)
          pre compressed ->
  forall (idx : nat) (rest : list (Media * string * string)) (sizes : list (Z * Z))
         (entries : list (string * list byte)) world,
    files world !! chunk_path = Some (ZipArchive entries) ->
    ZIPC.compress_frames_loop lib zip_self true chunk_path idx (pre ++ rest) sizes world
    = ZIPC.compress_frames_loop lib zip_self true chunk_path (idx + length pre) rest
        (sizes ++ (fst <$> compressed))
        (set_files world
           (<[chunk_path := ZipArchive (entries ++ jpeg_entries idx compressed)]>
              (files world))).
Proof.
  intros Hdim Hall. induction Hall as [|image r pre compressed Hr Hall IH];
    intros idx rest sizes entries world Hfile.
  - simpl. rewrite Nat.add_0_r, !app_nil_r.
    replace (set_files world _) with world; [reflexivity|].
    destruct world as [fs log]. unfold set_files. simpl in *. f_equal.
    symmetry. apply insert_id. exact Hfile.
  - destruct image as [[media path] name]. simpl in Hr.
    cbn [app ZIPC.compress_frames_loop]. rewrite Hdim.
    unfold bind at 1. unfold bind at 1. rewrite Hr. unfold lift, ret.
    destruct r as [[w h] buf]. cbn [fst snd].
    unfold bind at 1. unfold zip_writestr at 1. rewrite Hfile.
    rewrite (IH (S idx) rest (sizes ++ [(w, h)])
               (entries ++ [((format_06d idx ++ "." ++ ZIP.IMAGE_EXT)%string, buf)])).
    2:{ unfold set_files. simpl. apply lookup_insert_eq. }
    f_equal.
    + simpl length. lia.
    + rewrite <- app_assoc. reflexivity.
    + unfold set_files. simpl. f_equal. rewrite insert_insert_eq. f_equal. f_equal.
      rewrite <- app_assoc. f_equal. unfold jpeg_entries. rewrite imap_cons.
      cbn [snd app]. rewrite Nat.add_0_r. f_equal.
      apply imap_ext. intros i x _. simpl. repeat f_equal. lia.
Qed.

(** X14: the compressed zip writer over frames that all compress, at a
    path that is free.  It leaves an archive with one entry for each
    frame, in the order of the frames, named by the six-digit index of the
    frame with the extension [jpeg] and holding its compressed bytes, and
    it returns the widths and heights in the same order.  No other file
    changes. *)
Theorem compressed_zip_has_one_entry_per_frame (zip_self : ZIP.t)
    (images : list (Media * string * string)) (compressed : list (Z * Z * list byte))
    (chunk_path : string) (zip_compress_level : Z) world :
  ZIP._dimension zip_self = DIM_2D ->
  files world !! chunk_path = None ->
  Forall2 (fun image r =>
             compress_image lib (fst (fst image)) (ZIP._image_quality zip_self) = Ok r)
          images compressed ->
  ZIPC.save_as_chunk lib zip_self images chunk_path true zip_compress_level world
  = (set_files world
       (<[chunk_path := ZipArchive (jpeg_entries 0 compressed)]> (files world)),
     Ok (fst <$> compressed)).
Proof.
  intros Hdim Hfree Hall.
  unfold ZIPC.save_as_chunk, bind, zip_create. rewrite Hfree.
  pose proof (compress_frames_loop_prefix zip_self chunk_path images compressed Hdim Hall
                0%nat [] [] []
                (set_files world (<[chunk_path := ZipArchive []]> (files world)))) as Hloop.
  rewrite app_nil_r in Hloop. rewrite Hloop by apply lookup_insert_eq.
  simpl. unfold ret, set_files. simpl. rewrite insert_insert_eq. reflexivity.
Qed.

(** X15: the compressed zip writer is not atomic.  When the frames before
    one frame compress and that frame does not, the call ends with the
    exception of that frame, and the archive stays at the path with the
    entries of the frames before it. *)
Theorem compressed_zip_failure_leaves_partial_archive (zip_self : ZIP.t)
    (pre post : list (Media * string * string)) (failing : Media * string * string)
    (compressed : list (Z * Z * list byte)) (e : exn)
    (chunk_path : string) (zip_compress_level : Z) world :
  ZIP._dimension zip_self = DIM_2D ->
  files world !! chunk_path = None ->
  Forall2 (fun image r =>
             compress_image lib (fst (fst image)) (ZIP._image_quality zip_self) = Ok r)
          pre compressed ->
  compress_image lib (fst (fst failing)) (ZIP._image_quality zip_self) = Raise e ->
  ZIPC.save_as_chunk lib zip_self (pre ++ failing :: post) chunk_path true
    zip_compress_level world
  = (set_files world
       (<[chunk_path := ZipArchive (jpeg_entries 0 compressed)]> (files world)),
     Raise e).
Proof.
  intros Hdim Hfree Hall Hfail.
  unfold ZIPC.save_as_chunk, bind, zip_create. rewrite Hfree.
  rewrite (compress_frames_loop_prefix zip_self chunk_path pre compressed Hdim Hall
             0%nat (failing :: post) [] [])
    by apply lookup_insert_eq.
  destruct failing as [[media path] name]. simpl in Hfail.
  cbn [ZIPC.compress_frames_loop]. rewrite Hdim.
  unfold bind at 1. unfold bind at 1. rewrite Hfail. unfold lift, raise.
  unfold set_files. simpl. rewrite insert_insert_eq. reflexivity.
Qed.

(** The loop of the plain zip writer over frames it takes from their
    path. *)
Lemma write_frames_from_paths (zip_self : ZIP.t) (chunk_path : string)
    (images : list (Media * string * string)) (sources : list (string * list byte)) :
  ZIP._dimension zip_self = DIM_2D ->
  forall (idx : nat) (entries : list (string * list byte)) world,
    files world !! chunk_path = Some (ZipArchive entries) ->
    Forall2 (fun image source =>
               written_from_path (fst (fst image)) = true /\
               snd (fst image) = fst source /\
               fst source <> chunk_path /\
               files world !! fst source = Some (RawFile (snd source)))
            images sources ->
    ZIP.write_frames lib zip_self chunk_path idx images world
    = (set_files world
         (<[chunk_path := ZipArchive (entries ++ file_entries lib idx sources)]>
            (files world)),
       Ok tt).
Proof.
  intros Hdim. revert sources.
  induction images as [|image images IH]; intros sources idx entries world Hfile Hall.
  - apply Forall2_nil_inv_l in Hall as ->.
    simpl. unfold ret. rewrite app_nil_r.
    replace (set_files world _) with world; [reflexivity|].
    destruct world as [fs log]. unfold set_files. simpl in *. f_equal.
    symmetry. apply insert_id. exact Hfile.
  - apply Forall2_cons_inv_l in Hall
      as (source & sources' & (Hmedia & Hpath & Hne & Hsrc) & Hall & ->).
    destruct image as [[media path] name]. destruct source as [src data].
    cbn [fst snd] in *. subst src.
    assert (ZIP.frame_output lib zip_self media path world
            = (world, Ok (ZIP.OutPath path, remove_dots (snd (splitext lib path)))))
      as Hout.
    { unfold ZIP.frame_output. rewrite Hdim.
      destruct media as [img| | | |]; try discriminate Hmedia; try reflexivity.
      simpl in Hmedia. apply negb_true_iff in Hmedia. rewrite Hmedia. reflexivity. }
    cbn [ZIP.write_frames]. unfold bind at 1. unfold bind at 1. rewrite Hout.
    cbn [fst snd]. unfold bind at 1. unfold read_file at 1. rewrite Hsrc.
    unfold zip_writestr at 1. rewrite Hfile.
    set (entry := ((format_06d idx ++ "." ++ remove_dots (snd (splitext lib path)))%string,
                   data)).
    rewrite (IH sources' (S idx) (entries ++ [entry])).
    + unfold set_files. simpl. f_equal. f_equal. rewrite insert_insert_eq. f_equal. f_equal.
      rewrite <- app_assoc. f_equal. unfold file_entries. rewrite imap_cons.
      cbn [fst snd app]. rewrite Nat.add_0_r. f_equal.
      apply imap_ext. intros i x _. simpl. repeat f_equal. lia.
    + unfold set_files. simpl. apply lookup_insert_eq.
    + eapply Forall2_impl; [exact Hall|].
      intros image source (Hm & Hp & Hn & Hs). repeat split; try assumption.
      unfold set_files. simpl. rewrite lookup_insert_ne by congruence. exact Hs.
Qed.

(** X25: the plain zip writer over frames it takes from their path:
    images that need no rotation and are no TIFF, paths, or video frames,
    each with its file on disk, at a chunk path that is free.  It leaves
    an archive with one entry for each frame, in the order of the frames,
    named by the six-digit index of the frame and the extension of its
    path, and holding the bytes of the file as they are; and it returns
    the empty list. *)
Theorem zip_writer_archives_files_as_they_are (zip_self : ZIP.t)
    (images : list (Media * string * string)) (sources : list (string * list byte))
    (chunk_path : string) world :
  ZIP._dimension zip_self = DIM_2D ->
  files world !! chunk_path = None ->
  Forall2 (fun image source =>
             written_from_path (fst (fst image)) = true /\
             snd (fst image) = fst source /\
             files world !! fst source = Some (RawFile (snd source)))
          images sources ->
  ZIP.save_as_chunk lib zip_self images chunk_path world
  = (set_files world
       (<[chunk_path := ZipArchive (file_entries lib 0 sources)]> (files world)),
     Ok []).
Proof.
  intros Hdim Hfree Hall.
  unfold ZIP.save_as_chunk. unfold bind at 1. unfold zip_create. rewrite Hfree.
  unfold bind.
  rewrite (write_frames_from_paths zip_self chunk_path images sources Hdim 0%nat []).
  - unfold ret, set_files. simpl. rewrite insert_insert_eq. reflexivity.
  - unfold set_files. simpl. apply lookup_insert_eq.
  - eapply Forall2_impl; [exact Hall|].
    intros image source (Hm & Hp & Hs).
    assert (fst source <> chunk_path) as Hne by (intros Heq; rewrite Heq in Hs; congruence).
    repeat split; try assumption.
    unfold set_files. simpl. rewrite lookup_insert_ne by congruence. exact Hs.
Qed.

Lemma mux_all_log (packets : list Packet) world :
  MP4.mux_all packets world
  = ({| files := files world; av_log := av_log world ++ (AvMux <$> packets) |}, Ok tt).
Proof.
  revert world. induction packets as [|packet packets IH]; intros world; simpl.
  - unfold ret. rewrite app_nil_r. destruct world; reflexivity.
  - unfold bind, emit, modify. rewrite IH. simpl. rewrite <- app_assoc. reflexivity.
Qed.

(** The frames are given to the stream one by one, each without its
    timestamp, and the stream is flushed after the last. *)
Lemma encode_frames_log (images : list (VideoFrame * string * option Z)) :
  forall (encoded : list VideoFrame) world,
    MP4.encode_frames lib (Some <$> images) encoded world
    = ({| files := files world;
          av_log := av_log world ++
            (AvMux <$> stream_packets lib
                         (unstamped <$> ((fun image => fst (fst image)) <$> images))
                         encoded) |},
       Ok tt).
Proof.
  induction images as [|[[frame path] pts] images IH]; intros encoded world.
  - simpl. apply mux_all_log.
  - cbn [fmap list_fmap MP4.encode_frames stream_packets fst].
    unfold bind. rewrite mux_all_log.
    fold (unstamped frame). rewrite IH. simpl.
    rewrite fmap_app, <- app_assoc. reflexivity.
Qed.

Lemma add_video_stream_added self (w h rate : Z) (options : list (string * string)) world :
  even_up w * even_up h <= Z.shiftl 36864 8 ->
  MP4._add_video_stream self w h rate options world
  = ({| files := files world;
        av_log := av_log world ++
          [AvAddStream (MP4._codec_name self) rate "yuv420p" (even_up w) (even_up h)
             options] |},
     Ok tt).
Proof.
  intros Hfit. unfold MP4._add_video_stream.
  change MP4.MAX_MBS_PER_FRAME with 36864.
  assert (forall n, (if negb (n mod 2 =? 0) then n + 1 else n) = even_up n) as Heven.
  { intros n. unfold even_up. destruct (n mod 2 =? 0); reflexivity. }
  rewrite !Heven, Z.gtb_ltb.
  destruct (Z.ltb_spec (Z.shiftl 36864 8) (even_up h * even_up w)); [lia | reflexivity].
Qed.

(** A container whose stream fits under the ceiling: it is opened, the
    stream is added with even dimensions, every frame is encoded and
    muxed, and the stream and the container are closed. *)
Lemma write_container_log self (images : list (VideoFrame * string * option Z))
    (chunk_path : string) (w h : Z) world :
  even_up w * even_up h <= Z.shiftl 36864 8 ->
  MP4.write_container lib self (Some <$> images) chunk_path w h world
  = ({| files := files world;
        av_log := av_log world ++
          [AvOpen chunk_path "mp4";
           AvAddStream (MP4._codec_name self) (MP4._output_fps self) "yuv420p"
             (even_up w) (even_up h) (MP4._codec_opts self)] ++
          (AvMux <$> stream_packets lib
                       (unstamped <$> ((fun image => fst (fst image)) <$> images)) []) ++
          [AvCloseStream; AvClose chunk_path] |},
     Ok tt).
Proof.
  intros Hfit. unfold MP4.write_container.
  unfold bind at 1. unfold emit at 1, modify.
  unfold MP4.with_exit. unfold bind at 1.
  rewrite add_video_stream_added by exact Hfit.
  rewrite encode_frames_log. unfold emit, modify. simpl.
  rewrite <- !app_assoc. reflexivity.
Qed.

(** X16: the video writer over frames whose first fits under the ceiling
    of the codec.  The call returns the width and height of the first
    frame as they are, not rounded; the stream is added with both rounded
    up to even; every frame, the first included and once only, is given to
    the encoder in order and without its timestamp, the packets are muxed
    in the order produced, the stream is flushed, and the stream and the
    container are closed.  No file of the world is touched by the writer
    itself. *)
Theorem mpeg4_writer_encodes_every_frame self (frame : VideoFrame) (path : string)
    (pts : option Z) (rest : list (VideoFrame * string * option Z))
    (chunk_path : string) world :
  even_up (frame_width frame) * even_up (frame_height frame) <= Z.shiftl 36864 8 ->
  MP4.save_as_chunk lib self ((frame, path, pts) :: rest) chunk_path world
  = ({| files := files world;
        av_log := av_log world ++
          [AvOpen chunk_path "mp4";
           AvAddStream (MP4._codec_name self) (MP4._output_fps self) "yuv420p"
             (even_up (frame_width frame)) (even_up (frame_height frame))
             (MP4._codec_opts self)] ++
          (AvMux <$> stream_packets lib
                       (unstamped <$>
                          (frame :: ((fun image => fst (fst image)) <$> rest))) []) ++
          [AvCloseStream; AvClose chunk_path] |},
     Ok [(frame_width frame, frame_height frame)]).
Proof.
  intros Hfit. unfold MP4.save_as_chunk, MP4._peek_first_frame.
  change (Some (frame, path, pts) :: (Some <$> rest))
    with (Some <$> ((frame, path, pts) :: rest)).
  unfold bind. rewrite write_container_log by exact Hfit. reflexivity.
Qed.

(** The factor the loop ends on: a power of two, 1 for a height below
    1080, and otherwise not more than twice what the height needs. *)
Lemma downscale_factor_spec (fuel : nat) (input_h factor : Z) :
  0 < factor ->
  exists k : nat,
    MP4C.downscale fuel input_h factor = factor * 2 ^ Z.of_nat k /\
    (k = 0%nat \/ 1080 * MP4C.downscale fuel input_h factor <= 2 * input_h).
Proof.
  revert factor. induction fuel as [|fuel IH]; intros factor Hpos; simpl.
  - exists 0%nat. split; [simpl; lia | left; reflexivity].
  - destruct (Z.leb_spec (1080 * factor) input_h) as [Hle|Hgt].
    + destruct (IH (factor * 2) ltac:(lia)) as (k & Hk & Hor).
      exists (S k). split.
      * rewrite Hk, Nat2Z.inj_succ, Z.pow_succ_r by lia. lia.
      * right. destruct Hor as [->|Hor]; [|exact Hor].
        rewrite Hk. simpl. lia.
    + exists 0%nat. split; [simpl; lia | left; reflexivity].
Qed.

(** X17: the compressed video writer.  The factor by which it scales the
    frames down is a power of two; a first frame lower than 1080 is not
    scaled, and a first frame of height 1080 or more is scaled to a height
    from 540 to 1079.  When the scaled frame fits under the ceiling of the
    codec, the stream is added with the scaled width and height, each
    rounded up to even, every frame is encoded, and the call returns the
    width and height of the first frame as they were given. *)
Theorem compressed_writer_scales_below_1080 self (frame : VideoFrame) (path : string)
    (pts : option Z) (rest : list (VideoFrame * string * option Z))
    (chunk_path : string) world :
  let input_w := frame_width frame in
  let input_h := frame_height frame in
  let factor := MP4C.downscale (Z.to_nat input_h) input_h 1 in
  (exists k : nat, factor = 2 ^ Z.of_nat k) /\
  (input_h < 1080 -> factor = 1) /\
  (1080 <= input_h -> 540 <= input_h / factor < 1080) /\
  (even_up (input_w / factor) * even_up (input_h / factor) <= Z.shiftl 36864 8 ->
   MP4C.save_as_chunk lib self ((frame, path, pts) :: rest) chunk_path world
   = ({| files := files world;
         av_log := av_log world ++
           [AvOpen chunk_path "mp4";
            AvAddStream (MP4._codec_name self) (MP4._output_fps self) "yuv420p"
              (even_up (input_w / factor)) (even_up (input_h / factor))
              (MP4._codec_opts self)] ++
           (AvMux <$> stream_packets lib
                        (unstamped <$>
                           (frame :: ((fun image => fst (fst image)) <$> rest))) []) ++
           [AvCloseStream; AvClose chunk_path] |},
      Ok [(input_w, input_h)])).
Proof.
  intros input_w input_h factor.
  destruct (downscale_factor_spec (Z.to_nat input_h) input_h 1 ltac:(lia)) as (k & Hk & Hor).
  pose proof (downscale_ends input_h) as Hend.
  fold factor in Hk, Hor, Hend.
  assert (0 < factor) as Hpos.
  { rewrite Hk. pose proof (Z.pow_pos_nonneg 2 (Z.of_nat k)). lia. }
  split; [exists k; lia|]. split; [|split].
  - intros Hlow. unfold factor.
    destruct (Z.to_nat input_h) as [|fuel]; [reflexivity|]. simpl.
    destruct (Z.leb_spec (1080 * 1) input_h); [lia | reflexivity].
  - intros Hhigh. split.
    + apply Z.div_le_lower_bound; [lia|].
      destruct Hor as [->|Hor]; [|lia]. simpl in Hk. lia.
    + apply Z.div_lt_upper_bound; lia.
  - intros Hfit. unfold MP4C.save_as_chunk, MP4._peek_first_frame.
    change (Some (frame, path, pts) :: (Some <$> rest))
      with (Some <$> ((frame, path, pts) :: rest)).
    unfold bind. fold input_w input_h. fold factor.
    rewrite write_container_log by exact Hfit. reflexivity.
Qed.

(** X18: the quality of the video writers.  A quality from 1 to 100 is
    turned into a quantiser from 51 to 0: quality 1 gives 51, quality 100
    gives 0, and a higher quality never gives a higher quantiser. *)
Theorem quality_maps_onto_quantiser (quality quality' : Z) :
  1 <= quality <= quality' -> quality' <= 100 ->
  0 <= MP4._image_quality (MP4.__init__ lib quality')
    <= MP4._image_quality (MP4.__init__ lib quality) /\
  MP4._image_quality (MP4.__init__ lib quality) <= 51 /\
  MP4._image_quality (MP4.__init__ lib 1) = 51 /\
  MP4._image_quality (MP4.__init__ lib 100) = 0.
Proof.
  intros Hq Hq'.
  assert (forall q, MP4._image_quality (MP4.__init__ lib q)
                    = py_round_div (51 * (100 - q)) 99) as Hval.
  { intros q. unfold MP4.__init__. destruct (has_libopenh264 lib); reflexivity. }
  rewrite !Hval.
  split; [|split; [|split; reflexivity]].
  - unfold py_round_div.
    repeat match goal with
    | |- context [?a <? ?b] => destruct (Z.ltb_spec a b)
    end;
    repeat match goal with
    | |- context [Z.even ?a] => destruct (Z.even a)
    end;
    Z.div_mod_to_equations; lia.
  - unfold py_round_div.
    repeat match goal with
    | |- context [?a <? ?b] => destruct (Z.ltb_spec a b)
    end;
    repeat match goal with
    | |- context [Z.even ?a] => destruct (Z.even a)
    end;
    Z.div_mod_to_equations; lia.
Qed.

End WriterOutcomeProofs.

Lemma compressed_zip_has_one_entry_per_frame_witness :
  ZIPC.save_as_chunk example_libraries (ZIP.Build 70 DIM_2D)
    [(MBytesIO [], "a.png", "a"); (MBytesIO [], "b.png", "b")]%string
    "chunk.zip" true 0 empty_world
  = ({| files := {["chunk.zip"%string :=
                     ZipArchive [("000000.jpeg", []); ("000001.jpeg", [])]%string]};
        av_log := [] |},
     Ok [(0, 0); (0, 0)]).
Proof.
  apply (compressed_zip_has_one_entry_per_frame example_libraries (ZIP.Build 70 DIM_2D)
           [(MBytesIO [], "a.png", "a"); (MBytesIO [], "b.png", "b")]%string
           [(0, 0, []); (0, 0, [])] "chunk.zip" 0 empty_world).
  - reflexivity.
  - reflexivity.
  - repeat constructor.
Defined.

Lemma compressed_zip_failure_leaves_partial_archive_witness :
  ZIPC.save_as_chunk stream_only_libraries (ZIP.Build 70 DIM_2D)
    [(MBytesIO [], "a.png", "a"); (MStr "b.png", "b.png", "b"); (MBytesIO [], "c.png", "c")]%string
    "chunk.zip" true 0 empty_world
  = ({| files := {["chunk.zip"%string := ZipArchive [("000000.jpeg", [])]%string]};
        av_log := [] |},
     Raise AssertionError).
Proof.
  apply (compressed_zip_failure_leaves_partial_archive stream_only_libraries
           (ZIP.Build 70 DIM_2D)
           [(MBytesIO [], "a.png", "a")]%string [(MBytesIO [], "c.png", "c")]%string
           (MStr "b.png", "b.png", "b")%string
           [(0, 0, [])] AssertionError "chunk.zip" 0 empty_world).
  - reflexivity.
  - reflexivity.
  - repeat constructor.
  - reflexivity.
Defined.

Lemma mpeg4_writer_encodes_every_frame_witness :
  MP4.save_as_chunk example_libraries (MP4.__init__ example_libraries 67)
    [(Frame 3 5 (Some 0) None 1, "v"%string, Some 0);
     (Frame 3 5 (Some 9) None 2, "v"%string, Some 9)]
    "chunk.mp4" empty_world
  = ({| files := ∅;
        av_log :=
          [AvOpen "chunk.mp4" "mp4";
           AvAddStream "libopenh264" 25 "yuv420p" 4 6
             [("profile", "constrained_baseline"); ("qmin", "17"); ("qmax", "17");
              ("rc_mode", "buffer")]%string;
           AvMux (Frame 3 5 None None 1);
           AvMux (Frame 3 5 None None 2);
           AvCloseStream;
           AvClose "chunk.mp4"] |},
     Ok [(3, 5)]).
Proof.
  apply (mpeg4_writer_encodes_every_frame example_libraries
           (MP4.__init__ example_libraries 67) (Frame 3 5 (Some 0) None 1) "v" (Some 0)
           [(Frame 3 5 (Some 9) None 2, "v"%string, Some 9)] "chunk.mp4" empty_world).
  vm_compute. discriminate.
Defined.

Lemma compressed_writer_scales_below_1080_witness :
  540 <= 2160 / MP4C.downscale (Z.to_nat 2160) 2160 1 < 1080.
Proof.
  apply (compressed_writer_scales_below_1080 example_libraries
           (MP4C.__init__ example_libraries 67) (Frame 3840 2160 (Some 0) None 1)
           "v" (Some 0) [] "chunk.mp4" empty_world).
  simpl. lia.
Defined.

Lemma quality_maps_onto_quantiser_witness :
  0 <= MP4._image_quality (MP4.__init__ example_libraries 90)
    <= MP4._image_quality (MP4.__init__ example_libraries 67).
Proof.
  apply (quality_maps_onto_quantiser example_libraries 67 90); lia.
Defined.

Lemma zip_writer_archives_files_as_they_are_witness :
  let world : World VideoFrame :=
    {| files := {["a.png"%string := RawFile [x01]; "b.png"%string := RawFile [x02]]};
       av_log := [] |} in
  ZIP.save_as_chunk example_libraries (ZIP.Build 100 DIM_2D)
    [(MStr "a.png", "a.png", "a"); (MStr "b.png", "b.png", "b")]%string "chunk.zip" world
  = (set_files world
       (<["chunk.zip"%string :=
            ZipArchive [("000000.", [x01]); ("000001.", [x02])]%string]> (files world)),
     Ok []).
Proof.
  intros world.
  apply (zip_writer_archives_files_as_they_are example_libraries (ZIP.Build 100 DIM_2D)
           [(MStr "a.png", "a.png", "a"); (MStr "b.png", "b.png", "b")]%string
           [("a.png", [x01]); ("b.png", [x02])]%string "chunk.zip" world).
  - reflexivity.
  - reflexivity.
  - repeat constructor.
Defined.

(** ** The conversion of point clouds at its edges *)

Lemma unpack_ffff_complete (buffer : list byte) :
  length buffer = 16%nat ->
  exists x y z intensity, unpack_ffff buffer = Ok [x; y; z; intensity].
Proof.
  intros Hlen.
  do 16 (destruct buffer as [|? buffer]; [discriminate Hlen|]).
  destruct buffer; [|discriminate Hlen].
  do 4 eexists. reflexivity.
Qed.

Lemma unpack_ffff_incomplete (buffer : list byte) :
  length buffer <> 16%nat -> unpack_ffff buffer = Raise StructError.
Proof.
  intros Hlen.
  do 16 (destruct buffer as [|? buffer]; [reflexivity|]).
  destruct buffer; [contradiction Hlen|]; reflexivity.
Qed.

Lemma pack_f32_length (x : pyfloat) : length (pack_f32 x) = 4%nat.
Proof. reflexivity. Qed.

(** The loop over a file of [n] records of 16 bytes, whatever they hold:
    [n] rows, which take as many bytes as the file has. *)
Lemma read_records_whole (n : nat) :
  forall (f : list byte) (fuel : nat) (list_pcd : list (list pyfloat)),
    length f = (16 * n)%nat -> (length f <= fuel)%nat ->
    exists rows,
      read_records fuel f list_pcd = Ok (list_pcd ++ rows) /\
      length rows = n /\
      length (tobytes_float32 rows) = length f.
Proof.
  induction n as [|n IH]; intros f fuel list_pcd Hlen Hfuel.
  - destruct f; [|discriminate Hlen].
    exists []. rewrite app_nil_r. destruct fuel; repeat split; reflexivity.
  - destruct fuel as [|fuel]; [lia|].
    cbn [read_records].
    assert (length (take 16 f) = 16%nat) as Htake by (rewrite length_take; lia).
    destruct (unpack_ffff_complete (take 16 f) Htake) as (x & y & z & i & Hunpack).
    destruct (take 16 f) as [|b record] eqn:Hrecord; [discriminate Htake|].
    rewrite Hunpack.
    destruct (IH (drop 16 f) fuel (list_pcd ++ [[x; y; z; i]])) as (rows & -> & Hrows & Hbytes).
    { rewrite length_drop. lia. }
    { rewrite length_drop. lia. }
    exists ([x; y; z; i] :: rows). rewrite <- app_assoc. split; [reflexivity|].
    split; [simpl; congruence|].
    unfold tobytes_float32 in *. cbn [fmap list_fmap concat].
    rewrite !length_app, Hbytes, !pack_f32_length, length_drop. simpl. lia.
Qed.

(** The loop over a file that ends inside a record raises the error of
    [struct.unpack]. *)
Lemma read_records_incomplete (fuel : nat) :
  forall (f : list byte) (list_pcd : list (list pyfloat)),
    (length f <= fuel)%nat -> (length f mod 16 <> 0)%nat ->
    read_records fuel f list_pcd = Raise StructError.
Proof.
  induction fuel as [|fuel IH]; intros f list_pcd Hfuel Hmod.
  - destruct f; [|simpl in Hfuel; lia]. contradiction Hmod. reflexivity.
  - cbn [read_records].
    destruct (Nat.lt_ge_cases (length f) 16) as [Hshort|Hlong].
    + rewrite take_ge by lia.
      destruct f as [|b f]; [contradiction Hmod; reflexivity|].
      rewrite unpack_ffff_incomplete by lia. reflexivity.
    + assert (length (take 16 f) = 16%nat) as Htake by (rewrite length_take; lia).
      destruct (unpack_ffff_complete (take 16 f) Htake) as (x & y & z & i & Hunpack).
      destruct (take 16 f) as [|b record] eqn:Hrecord; [discriminate Htake|].
      rewrite Hunpack. apply IH.
      * rewrite length_drop. lia.
      * rewrite length_drop.
        replace (length f) with (length f - 16 + 1 * 16)%nat in Hmod by lia.
        rewrite Nat.Div0.mod_add in Hmod. exact Hmod.
Qed.

(** Where the new file cannot be opened for writing the call raises the
    error of [open] and the disk stays as it was. *)
Lemma conversion_not_writable (disk : gmap string (list byte))
    (path : string) (f : list byte) (n : nat) (delete_source : bool) :
  disk !! path = Some f ->
  length f = (16 * n)%nat ->
  writable disk (replace_bin path) = false ->
  convert_bin_to_pcd path delete_source disk
  = (disk, Raise (open_error disk (replace_bin path))).
Proof.
  intros Hfile Hlen Hwritable. unfold convert_bin_to_pcd. rewrite Hfile.
  destruct (read_records_whole n f (length f) [] Hlen ltac:(lia)) as (rows & -> & _).
  rewrite Hwritable. reflexivity.
Qed.

(** X19: a file that ends inside a record is not converted.  When the
    length of the file is not a multiple of 16 the call raises the error
    of [struct.unpack] and changes nothing on disk: no [.pcd] file is
    written and the source is not removed. *)
Theorem incomplete_record_converts_nothing (disk : gmap string (list byte))
    (path : string) (f : list byte) (delete_source : bool) :
  disk !! path = Some f ->
  (length f mod 16 <> 0)%nat ->
  convert_bin_to_pcd path delete_source disk = (disk, Raise StructError).
Proof.
  intros Hfile Hmod. unfold convert_bin_to_pcd. rewrite Hfile.
  rewrite read_records_incomplete by (lia || assumption). reflexivity.
Qed.

(** X20: a file of [n] records of 16 bytes is converted whatever the
    records hold, when the new name, the path with every [.bin] replaced
    by [.pcd], is another name and one that can be opened for writing.
    The new file is the header for [n] points followed by as many bytes as
    the source has; the source is removed exactly if [delete_source] is
    set; and no other file changes.  When the new name cannot be opened
    for writing, as for [scan.bin/cloud.bin] without a directory
    [scan.pcd], the call raises the error of [open] and changes
    nothing. *)
Theorem conversion_keeps_length_and_other_files (disk : gmap string (list byte))
    (path : string) (f : list byte) (n : nat) (delete_source : bool) :
  disk !! path = Some f ->
  length f = (16 * n)%nat ->
  replace_bin path <> path ->
  let converted := convert_bin_to_pcd path delete_source disk in
  if writable disk (replace_bin path) then
    snd converted = Ok (replace_bin path) /\
    (exists payload,
       fst converted !! replace_bin path
       = Some (list_byte_of_string (pcd_header_text (Z.of_nat n)) ++ payload) /\
       length payload = length f) /\
    fst converted !! path = (if delete_source then None else Some f) /\
    forall other, other <> path -> other <> replace_bin path ->
                  fst converted !! other = disk !! other
  else converted = (disk, Raise (open_error disk (replace_bin path))).
Proof.
  intros Hfile Hlen Hname converted.
  destruct (writable disk (replace_bin path)) eqn:Hwritable; cbv zeta;
    [|unfold converted; apply (conversion_not_writable disk path f n); assumption].
  unfold converted, convert_bin_to_pcd. rewrite Hfile.
  destruct (read_records_whole n f (length f) [] Hlen ltac:(lia))
    as (rows & -> & Hrows & Hbytes).
  rewrite Hwritable.
  cbn [app fst snd]. split; [reflexivity|].
  rewrite Hrows, write_header_text, lookup_insert_eq. cbn [default].
  split; [|split].
  - exists (tobytes_float32 rows). split; [|exact Hbytes].
    destruct delete_source.
    + rewrite lookup_delete_ne by (intros Heq; apply Hname; symmetry; exact Heq).
      apply lookup_insert_eq.
    + apply lookup_insert_eq.
  - destruct delete_source.
    + apply lookup_delete_eq.
    + rewrite !lookup_insert_ne by exact Hname. exact Hfile.
  - intros other Hpath Hpcd.
    destruct delete_source.
    + rewrite lookup_delete_ne by congruence.
      rewrite !lookup_insert_ne by congruence. reflexivity.
    + rewrite !lookup_insert_ne by congruence. reflexivity.
Qed.

(** X21: a path without [.bin] in it.  The name of the new file is then
    the name of the source, the conversion overwrites the source, and with
    [delete_source] set, as it is by default, the file is removed: the
    call returns the name of a file that is no longer there. *)
Theorem path_without_bin_loses_the_file (disk : gmap string (list byte))
    (path : string) (f : list byte) (n : nat) (delete_source : bool) :
  disk !! path = Some f ->
  length f = (16 * n)%nat ->
  replace_bin path = path ->
  let converted := convert_bin_to_pcd path delete_source disk in
  snd converted = Ok path /\
  if delete_source then fst converted !! path = None
  else exists payload,
         fst converted !! path
         = Some (list_byte_of_string (pcd_header_text (Z.of_nat n)) ++ payload) /\
         length payload = length f.
Proof.
  intros Hfile Hlen Hname converted.
  unfold converted, convert_bin_to_pcd. rewrite Hfile, Hname.
  destruct (read_records_whole n f (length f) [] Hlen ltac:(lia))
    as (rows & -> & Hrows & Hbytes).
  rewrite (writable_existing disk path f Hfile).
  cbn [app fst snd]. split; [reflexivity|].
  destruct delete_source.
  - apply lookup_delete_eq.
  - exists (tobytes_float32 rows). split; [|exact Hbytes].
    rewrite Hrows, write_header_text, !lookup_insert_eq. reflexivity.
Qed.

Lemma incomplete_record_converts_nothing_witness :
  convert_bin_to_pcd "cloud.bin" true {["cloud.bin"%string := [x00; x00; x80; x3f; x00]]}
  = ({["cloud.bin"%string := [x00; x00; x80; x3f; x00]]}, Raise StructError).
Proof.
  apply (incomplete_record_converts_nothing _ "cloud.bin" [x00; x00; x80; x3f; x00] true).
  - reflexivity.
  - simpl. lia.
Defined.

Lemma conversion_keeps_length_and_other_files_witness :
  let nan_record := [x00; x00; xc0; x7f; x00; x00; x00; x00;
                     x00; x00; x00; x00; x00; x00; x00; x00] in
  let disk : gmap string (list byte) :=
    {["cloud.bin"%string := nan_record; "notes.txt"%string := [x41]]} in
  let nested : gmap string (list byte) := {["scan.bin/cloud.bin"%string := nan_record]} in
  (fst (convert_bin_to_pcd "cloud.bin" true disk) !! "cloud.bin"%string = None /\
   fst (convert_bin_to_pcd "cloud.bin" true disk) !! "notes.txt"%string = Some [x41]) /\
  convert_bin_to_pcd "scan.bin/cloud.bin" true nested
  = (nested, Raise (LibraryError "FileNotFoundError")).
Proof.
  intros nan_record disk nested.
  assert (disk !! "cloud.bin"%string = Some nan_record) as Hfile by reflexivity.
  assert (nested !! "scan.bin/cloud.bin"%string = Some nan_record) as Hnested
    by reflexivity.
  assert (length nan_record = (16 * 1)%nat) as Hlen by reflexivity.
  assert (replace_bin "cloud.bin" <> "cloud.bin"%string) as Hname by discriminate.
  assert (replace_bin "scan.bin/cloud.bin" <> "scan.bin/cloud.bin"%string) as Hname'
    by discriminate.
  pose proof (conversion_keeps_length_and_other_files disk "cloud.bin" nan_record 1 true
                Hfile Hlen Hname) as Hflat.
  pose proof (conversion_keeps_length_and_other_files nested "scan.bin/cloud.bin"
                nan_record 1 true Hnested Hlen Hname') as Hdeep.
  cbv zeta in Hflat, Hdeep.
  replace (writable disk (replace_bin "cloud.bin")) with true in Hflat
    by (vm_compute; reflexivity).
  replace (writable nested (replace_bin "scan.bin/cloud.bin")) with false in Hdeep
    by (vm_compute; reflexivity).
  destruct Hflat as (_ & _ & Hsource & Hothers).
  split; [split; [exact Hsource|]|].
  - rewrite Hothers by discriminate. reflexivity.
  - rewrite Hdeep. vm_compute. reflexivity.
Defined.

Lemma path_without_bin_loses_the_file_witness :
  let disk : gmap string (list byte) := {["cloud.dat"%string := []]} in
  snd (convert_bin_to_pcd "cloud.dat" true disk) = Ok "cloud.dat"%string /\
  fst (convert_bin_to_pcd "cloud.dat" true disk) !! "cloud.dat"%string = None.
Proof.
  intros disk.
  exact (path_without_bin_loses_the_file disk "cloud.dat" [] 0 true
           eq_refl eq_refl eq_refl).
Defined.

(** ** Reading the header of a point cloud back *)

Lemma string_forall_app (p : ascii -> bool) (a b : string) :
  string_forall p (a ++ b) = string_forall p a && string_forall p b.
Proof.
  induction a as [|c a IH]; [reflexivity|].
  change (string_forall p (String c (a ++ b)) = p c && string_forall p a && string_forall p b).
  simpl. rewrite IH. apply andb_assoc.
Qed.

Lemma string_forall_impl (p q : ascii -> bool) (s : string) :
  (forall c, p c = true -> q c = true) ->
  string_forall p s = true -> string_forall q s = true.
Proof.
  intros Hpq. induction s as [|c s IH]; [reflexivity|]. simpl.
  intros [Hc Hs]%andb_true_iff. rewrite (Hpq c Hc), (IH Hs). reflexivity.
Qed.

Lemma uint_digits (d : Decimal.uint) :
  string_forall is_digit (NilEmpty.string_of_uint d) = true.
Proof. induction d; simpl; try rewrite IHd; reflexivity. Qed.

(** [str] of a number that is not negative: digits, and at least one. *)
Lemma str_of_Z_digits (n : Z) :
  0 <= n ->
  string_forall is_digit (str_of_Z n) = true /\ str_of_Z n <> EmptyString.
Proof.
  intros Hn. unfold str_of_Z. destruct n as [|p|p]; [split; [reflexivity | discriminate]| |lia].
  unfold Z.to_int, NilZero.string_of_int, NilZero.string_of_uint.
  destruct (Pos.to_uint p) eqn:Hd; (split; [|discriminate]);
    first [reflexivity | rewrite <- Hd; apply uint_digits].
Qed.

Lemma digit_facts (c : ascii) :
  is_digit c = true ->
  is_ascii c = true /\ is_space c = false /\ Ascii.eqb c " " = false /\
  Ascii.eqb "D" c = false /\ Byte.eqb (byte_of_ascii c) x0a = false.
Proof.
  destruct c as [[|] [|] [|] [|] [|] [|] [|] [|]]; vm_compute; intros H;
    try discriminate H; repeat split.
Qed.

Lemma list_byte_of_string_app (a b : string) :
  list_byte_of_string (a ++ b) = list_byte_of_string a ++ list_byte_of_string b.
Proof.
  induction a as [|c a IH]; [reflexivity|].
  change (byte_of_ascii c :: list_byte_of_string (a ++ b)
          = byte_of_ascii c :: (list_byte_of_string a ++ list_byte_of_string b)).
  rewrite IH. reflexivity.
Qed.

(** A line that holds no newline but its last byte is the first line of
    the file. *)
Lemma file_lines_first (line : string) (rest : list byte) :
  string_forall (fun c => negb (Byte.eqb (byte_of_ascii c) x0a)) line = true ->
  file_lines (list_byte_of_string (line ++ newline) ++ rest)
  = list_byte_of_string (line ++ newline) :: file_lines rest.
Proof.
  induction line as [|c line IH]; intros Hline.
  - reflexivity.
  - simpl in Hline. apply andb_true_iff in Hline as [Hc%negb_true_iff Hline].
    change (file_lines (byte_of_ascii c :: (list_byte_of_string (line ++ newline) ++ rest))
            = (byte_of_ascii c :: list_byte_of_string (line ++ newline)) :: file_lines rest).
    cbn [file_lines]. rewrite Hc, (IH Hline). reflexivity.
Qed.

Lemma split_space_key (k rest : string) :
  string_forall (fun c => negb (Ascii.eqb c " ")) k = true ->
  split_space (k ++ String " " rest) = Some (k, rest).
Proof.
  induction k as [|c k IH]; intros Hk; [reflexivity|].
  simpl in Hk. apply andb_true_iff in Hk as [Hc%negb_true_iff Hk].
  change (split_space (String c (k ++ String " " rest)) = Some (String c k, rest)).
  cbn [split_space]. rewrite Hc, (IH Hk). reflexivity.
Qed.

Lemma rstrip_newline (v : string) :
  string_forall (fun c => negb (is_space c)) v = true ->
  rstrip (v ++ newline) = v.
Proof.
  induction v as [|c v IH]; intros Hv; [reflexivity|].
  simpl in Hv. apply andb_true_iff in Hv as [Hc%negb_true_iff Hv].
  change (rstrip (String c (v ++ newline)) = String c v).
  cbn [rstrip]. rewrite (IH Hv). destruct v; [rewrite Hc|]; reflexivity.
Qed.

Lemma strip_digits (d : string) :
  string_forall is_digit d = true -> strip (d ++ newline) = d.
Proof.
  intros Hd. unfold strip.
  assert (string_forall (fun c => negb (is_space c)) d = true) as Hs.
  { revert Hd. apply string_forall_impl. intros c Hc.
    destruct (digit_facts c Hc) as (_ & -> & _). reflexivity. }
  destruct d as [|c d]; [reflexivity|].
  change (rstrip (lstrip (String c (d ++ newline))) = String c d).
  simpl in Hs. apply andb_true_iff in Hs as [Hc Hs'].
  cbn [lstrip]. apply negb_true_iff in Hc as Hc'. rewrite Hc'.
  apply (rstrip_newline (String c d)). simpl. rewrite Hc, Hs'. reflexivity.
Qed.

Lemma no_DATA_in_digits (d : string) :
  string_forall is_digit d = true -> str_contains "DATA" (d ++ newline) = false.
Proof.
  induction d as [|c d IH]; intros Hd; [reflexivity|].
  simpl in Hd. apply andb_true_iff in Hd as [Hc Hd].
  change (str_contains "DATA" (String c (d ++ newline)) = false).
  cbn [str_contains startswith].
  destruct (digit_facts c Hc) as (_ & _ & _ & -> & _). rewrite (IH Hd). reflexivity.
Qed.

Lemma string_concat_empty_cons (x : string) (xs : list string) :
  String.concat "" (x :: xs) = (x ++ String.concat "" xs)%string.
Proof.
  destruct xs as [|y xs]; [|reflexivity].
  simpl. induction x as [|c x IH]; [reflexivity|].
  change (String c x = String c (x ++ "")). rewrite <- IH. reflexivity.
Qed.

(** The lines of a file that starts with lines of text. *)
Lemma file_lines_text (text : list string) (rest : list byte) :
  Forall (fun line =>
            string_forall (fun c => negb (Byte.eqb (byte_of_ascii c) x0a)) line = true)
         text ->
  file_lines
    (list_byte_of_string
       (String.concat "" ((fun line => (line ++ newline)%string) <$> text)) ++ rest)
  = ((fun line => list_byte_of_string (line ++ newline)) <$> text) ++ file_lines rest.
Proof.
  induction 1 as [|line text Hline Htext IH]; [reflexivity|].
  cbn [fmap list_fmap]. rewrite string_concat_empty_cons, list_byte_of_string_app.
  rewrite <- app_assoc, (file_lines_first line _ Hline).
  cbn [fmap list_fmap app] in *. rewrite IH. reflexivity.
Qed.

Section HeaderReadBack.
Variable decode_utf8 : list byte -> result string.
Hypothesis decode_utf8_ascii :
  forall line, string_forall is_ascii line = true ->
               decode_utf8 (list_byte_of_string line) = Ok line.

(** One line [k v] of a header: the key is set to the value, and the loop
    goes on unless the line holds [DATA]. *)
Lemma read_properties_line (k v v' : string)
    (lines : list (list byte)) (kv : gmap string string) :
  string_forall is_ascii (k ++ String " " (v ++ newline)) = true ->
  startswith (k ++ String " " (v ++ newline)) "#" = false ->
  string_forall (fun c => negb (Ascii.eqb c " ")) k = true ->
  strip (v ++ newline) = v' ->
  str_contains "DATA" (k ++ String " " (v ++ newline)) = false ->
  read_properties decode_utf8
    (list_byte_of_string (k ++ String " " (v ++ newline)) :: lines) kv
  = read_properties decode_utf8 lines (<[k := v']> kv).
Proof.
  intros Hascii Hhash Hkey Hstrip Hdata. cbn [read_properties].
  rewrite (decode_utf8_ascii _ Hascii), Hhash, (split_space_key k _ Hkey), Hstrip, Hdata.
  reflexivity.
Qed.

Lemma read_properties_last_line (k v v' : string)
    (lines : list (list byte)) (kv : gmap string string) :
  string_forall is_ascii (k ++ String " " (v ++ newline)) = true ->
  startswith (k ++ String " " (v ++ newline)) "#" = false ->
  string_forall (fun c => negb (Ascii.eqb c " ")) k = true ->
  strip (v ++ newline) = v' ->
  str_contains "DATA" (k ++ String " " (v ++ newline)) = true ->
  read_properties decode_utf8
    (list_byte_of_string (k ++ String " " (v ++ newline)) :: lines) kv
  = Ok (<[k := v']> kv).
Proof.
  intros Hascii Hhash Hkey Hstrip Hdata. cbn [read_properties].
  rewrite (decode_utf8_ascii _ Hascii), Hhash, (split_space_key k _ Hkey), Hstrip, Hdata.
  reflexivity.
Qed.

Lemma digits_line_ascii (k d : string) :
  string_forall is_ascii k = true ->
  string_forall is_digit d = true ->
  string_forall is_ascii (k ++ String " " (d ++ newline)) = true.
Proof.
  intros Hk Hd. rewrite string_forall_app, Hk.
  change (string_forall is_ascii (String " " (d ++ newline)))
    with (is_ascii " " && string_forall is_ascii (d ++ newline)).
  rewrite string_forall_app.
  rewrite (string_forall_impl is_digit is_ascii d); [reflexivity | | exact Hd].
  intros c Hc. apply (digit_facts c Hc).
Qed.

Lemma digits_line_no_newline (k d : string) :
  string_forall (fun c => negb (Byte.eqb (byte_of_ascii c) x0a)) k = true ->
  string_forall is_digit d = true ->
  string_forall (fun c => negb (Byte.eqb (byte_of_ascii c) x0a)) (k ++ d) = true.
Proof.
  intros Hk Hd. rewrite string_forall_app, Hk.
  revert Hd. apply string_forall_impl. intros c Hc.
  destruct (digit_facts c Hc) as (_ & _ & _ & _ & ->). reflexivity.
Qed.

Lemma no_DATA_in_WIDTH (d : string) :
  string_forall is_digit d = true ->
  str_contains "DATA" ("WIDTH" ++ String " " (d ++ newline)) = false.
Proof.
  intros Hd.
  change ("WIDTH" ++ String " " (d ++ newline))%string
    with (String "W" (String "I" (String "D" (String "T" (String "H"
            (String " " (d ++ newline))))))).
  simpl. apply no_DATA_in_digits, Hd.
Qed.

Lemma no_DATA_in_POINTS (d : string) :
  string_forall is_digit d = true ->
  str_contains "DATA" ("POINTS" ++ String " " (d ++ newline)) = false.
Proof.
  intros Hd.
  change ("POINTS" ++ String " " (d ++ newline))%string
    with (String "P" (String "O" (String "I" (String "N" (String "T" (String "S"
            (String " " (d ++ newline)))))))).
  simpl. apply no_DATA_in_digits, Hd.
Qed.

(** The loop over the lines of the header: it ends on the [DATA] line
    with the ten keys set, and reads nothing of what follows. *)
Lemma read_header_lines (n : Z) (more : list (list byte)) :
  0 <= n ->
  read_properties decode_utf8
    (((fun line => list_byte_of_string (line ++ newline)) <$> header_lines n) ++ more) ∅
  = Ok (header_properties n).
Proof.
  intros Hn. destruct (str_of_Z_digits n Hn) as [Hd _].
  unfold header_lines, header_properties.
  set (d := str_of_Z n) in *.
  change (read_properties decode_utf8
            (list_byte_of_string ("VERSION" ++ String " " ("0.7" ++ newline)) ::
             list_byte_of_string ("FIELDS" ++ String " " ("x y z intensity" ++ newline)) ::
             list_byte_of_string ("SIZE" ++ String " " ("4 4 4 4" ++ newline)) ::
             list_byte_of_string ("TYPE" ++ String " " ("F F F F" ++ newline)) ::
             list_byte_of_string ("COUNT" ++ String " " ("1 1 1 1" ++ newline)) ::
             list_byte_of_string ("WIDTH" ++ String " " (d ++ newline)) ::
             list_byte_of_string ("HEIGHT" ++ String " " ("1" ++ newline)) ::
             list_byte_of_string ("VIEWPOINT" ++ String " " ("0 0 0 1 0 0 0" ++ newline)) ::
             list_byte_of_string ("POINTS" ++ String " " (d ++ newline)) ::
             list_byte_of_string ("DATA" ++ String " " ("binary" ++ newline)) :: more) ∅
          = Ok (<["DATA" := "binary"]>
               (<["POINTS" := d]>
               (<["VIEWPOINT" := "0 0 0 1 0 0 0"]>
               (<["HEIGHT" := "1"]>
               (<["WIDTH" := d]>
               (<["COUNT" := "1 1 1 1"]>
               (<["TYPE" := "F F F F"]>
               (<["SIZE" := "4 4 4 4"]>
               (<["FIELDS" := "x y z intensity"]>
               (<["VERSION" := "0.7"]> ∅))))))))))%string).
  rewrite (read_properties_line "VERSION" "0.7" "0.7") by reflexivity.
  rewrite (read_properties_line "FIELDS" "x y z intensity" "x y z intensity") by reflexivity.
  rewrite (read_properties_line "SIZE" "4 4 4 4" "4 4 4 4") by reflexivity.
  rewrite (read_properties_line "TYPE" "F F F F" "F F F F") by reflexivity.
  rewrite (read_properties_line "COUNT" "1 1 1 1" "1 1 1 1") by reflexivity.
  rewrite (read_properties_line "WIDTH" d d);
    [|apply digits_line_ascii; [reflexivity | exact Hd]
     |reflexivity | reflexivity
     |apply strip_digits, Hd
     |apply no_DATA_in_WIDTH, Hd].
  rewrite (read_properties_line "HEIGHT" "1" "1") by reflexivity.
  rewrite (read_properties_line "VIEWPOINT" "0 0 0 1 0 0 0" "0 0 0 1 0 0 0") by reflexivity.
  rewrite (read_properties_line "POINTS" d d);
    [|apply digits_line_ascii; [reflexivity | exact Hd]
     |reflexivity | reflexivity
     |apply strip_digits, Hd
     |apply no_DATA_in_POINTS, Hd].
  rewrite (read_properties_last_line "DATA" "binary" "binary") by reflexivity.
  reflexivity.
Qed.

Lemma write_header_lines (n : Z) :
  write_header n 1
  = String.concat "" ((fun line => (line ++ newline)%string) <$> header_lines n).
Proof. unfold write_header. rewrite Z.mul_1_r. reflexivity. Qed.

Lemma header_lines_no_newline (n : Z) :
  0 <= n ->
  Forall (fun line =>
            string_forall (fun c => negb (Byte.eqb (byte_of_ascii c) x0a)) line = true)
         (header_lines n).
Proof.
  intros Hn. destruct (str_of_Z_digits n Hn) as [Hd _].
  unfold header_lines.
  repeat (constructor;
          [first [reflexivity | apply digits_line_no_newline; [reflexivity | exact Hd]]|]).
  constructor.
Qed.

(** The file that starts with the header for [n] points is read back as
    the properties of the header, whatever follows the header. *)
Lemma header_read_back (n : Z) (payload : list byte) (verify_version : bool) :
  0 <= n ->
  get_pcd_properties decode_utf8
    (list_byte_of_string (write_header n 1) ++ payload) verify_version
  = Ok (if verify_version then VersionTrue else Properties (header_properties n)).
Proof.
  intros Hn. unfold get_pcd_properties.
  rewrite write_header_lines, (file_lines_text _ _ (header_lines_no_newline n Hn)).
  rewrite (read_header_lines n _ Hn).
  destruct verify_version; [|reflexivity].
  unfold header_properties.
  rewrite !lookup_insert_ne by discriminate. rewrite lookup_insert_eq. reflexivity.
Qed.

(** X22: a converted point cloud is read back.  For a file of [n]
    records of 16 bytes whose new name is another name and can be opened
    for writing, the file the conversion writes passes the check of the
    version, and its properties are the ten of the header and no other:
    [VERSION 0.7], [FIELDS x y z intensity], [SIZE 4 4 4 4],
    [TYPE F F F F], [COUNT 1 1 1 1], [WIDTH] the number of records in
    decimal, [HEIGHT 1], [VIEWPOINT 0 0 0 1 0 0 0], [POINTS] the number
    of records and [DATA binary]; the bytes of the points are not read.
    The decoder is one that decodes a line of code points below 128 to the
    text it spells. *)
Theorem converted_cloud_is_read_back (disk : gmap string (list byte))
    (path : string) (f : list byte) (n : nat) (delete_source : bool) :
  disk !! path = Some f ->
  length f = (16 * n)%nat ->
  replace_bin path <> path ->
  writable disk (replace_bin path) = true ->
  exists content,
    snd (convert_bin_to_pcd path delete_source disk) = Ok (replace_bin path) /\
    fst (convert_bin_to_pcd path delete_source disk) !! replace_bin path = Some content /\
    get_pcd_properties decode_utf8 content true = Ok VersionTrue /\
    get_pcd_properties decode_utf8 content false
    = Ok (Properties
            (<["DATA" := "binary"]>
             (<["POINTS" := str_of_Z (Z.of_nat n)]>
             (<["VIEWPOINT" := "0 0 0 1 0 0 0"]>
             (<["HEIGHT" := "1"]>
             (<["WIDTH" := str_of_Z (Z.of_nat n)]>
             (<["COUNT" := "1 1 1 1"]>
             (<["TYPE" := "F F F F"]>
             (<["SIZE" := "4 4 4 4"]>
             (<["FIELDS" := "x y z intensity"]>
             (<["VERSION" := "0.7"]> ∅))))))))))%string).
Proof.
  intros Hfile Hlen Hname Hwritable.
  unfold convert_bin_to_pcd. rewrite Hfile.
  destruct (read_records_whole n f (length f) [] Hlen ltac:(lia))
    as (rows & -> & Hrows & Hbytes).
  rewrite Hwritable.
  cbn [app fst snd]. rewrite Hrows, lookup_insert_eq. cbn [default].
  exists (list_byte_of_string (write_header (Z.of_nat n) 1) ++ tobytes_float32 rows).
  split; [reflexivity|]. split.
  { destruct delete_source.
    - rewrite lookup_delete_ne by (intros Heq; apply Hname; symmetry; exact Heq).
      apply lookup_insert_eq.
    - apply lookup_insert_eq. }
  rewrite !header_read_back by lia.
  split; reflexivity.
Qed.

End HeaderReadBack.

Lemma decode_ascii_text (line : string) :
  string_forall is_ascii line = true ->
  decode_ascii (list_byte_of_string line) = Ok line.
Proof.
  intros Hline. unfold decode_ascii.
  assert (forallb (fun b => (Byte.to_nat b <? 128)%nat) (list_byte_of_string line) = true)
    as ->.
  { induction line as [|c line IH]; [reflexivity|].
    simpl in Hline. apply andb_true_iff in Hline as [Hc Hline].
    change (forallb (fun b => (Byte.to_nat b <? 128)%nat)
              (byte_of_ascii c :: list_byte_of_string line) = true).
    cbn [forallb]. rewrite (IH Hline), andb_true_r.
    clear -Hc. destruct c as [[|] [|] [|] [|] [|] [|] [|] [|]];
      first [discriminate Hc | reflexivity]. }
  rewrite string_of_list_byte_of_string. reflexivity.
Qed.

Lemma converted_cloud_is_read_back_witness :
  let zeros := [x00; x00; x00; x00; x00; x00; x00; x00;
                x00; x00; x00; x00; x00; x00; x00; x00] in
  let disk : gmap string (list byte) := {["cloud.bin"%string := zeros ++ zeros]} in
  exists content,
    snd (convert_bin_to_pcd "cloud.bin" true disk) = Ok "cloud.pcd"%string /\
    fst (convert_bin_to_pcd "cloud.bin" true disk) !! "cloud.pcd"%string = Some content /\
    get_pcd_properties decode_ascii content true = Ok VersionTrue /\
    get_pcd_properties decode_ascii content false
    = Ok (Properties
            (<["DATA" := "binary"]>
             (<["POINTS" := "2"]>
             (<["VIEWPOINT" := "0 0 0 1 0 0 0"]>
             (<["HEIGHT" := "1"]>
             (<["WIDTH" := "2"]>
             (<["COUNT" := "1 1 1 1"]>
             (<["TYPE" := "F F F F"]>
             (<["SIZE" := "4 4 4 4"]>
             (<["FIELDS" := "x y z intensity"]>
             (<["VERSION" := "0.7"]> ∅))))))))))%string).
Proof.
  intros zeros disk.
  assert (replace_bin "cloud.bin" <> "cloud.bin"%string) as Hname by discriminate.
  assert (writable disk (replace_bin "cloud.bin") = true) as Hwritable
    by (vm_compute; reflexivity).
  exact (converted_cloud_is_read_back decode_ascii decode_ascii_text disk "cloud.bin"
           (zeros ++ zeros) 2 true eq_refl eq_refl Hname Hwritable).
Defined.

(** ** Media types and the files of an archive *)

Section MediaTypeProofs.
Variables os_sorted shuffle : list string -> list string.
Variable guess_type : string -> option string * option string.
Variable isdir : string -> bool.

(** X23: how a path is classified.  It is an image exactly when its
    guessed type starts with [image] but not with [image/svg]; it is a
    video exactly when its guessed type starts with [video]; a vector
    graphic is never an image; and a path is [unknown] exactly when none
    of the six checks accepts it. *)
Theorem get_mime_classes (path : string) :
  let get_mime := MediaTypes.get_mime guess_type isdir in
  (get_mime path = "image"%string <->
     exists mime_type, fst (guess_type path) = Some mime_type /\
       startswith mime_type "image" = true /\
       startswith mime_type "image/svg" = false) /\
  (get_mime path = "video"%string <->
     exists mime_type, fst (guess_type path) = Some mime_type /\
       startswith mime_type "video" = true) /\
  (get_mime path = "unknown"%string <->
     MediaTypes._is_image guess_type path = false /\
     MediaTypes._is_video guess_type path = false /\
     MediaTypes._is_archive guess_type path = false /\
     MediaTypes._is_dir isdir path = false /\
     MediaTypes._is_pdf guess_type path = false /\
     MediaTypes._is_zip guess_type path = false).
Proof.
  intros get_mime. unfold get_mime, MediaTypes.get_mime, MediaTypes.MEDIA_TYPES.
  cbn [MediaTypes.first_type].
  assert (MediaTypes._is_image guess_type path = true <->
          exists mime_type, fst (guess_type path) = Some mime_type /\
            startswith mime_type "image" = true /\
            startswith mime_type "image/svg" = false) as Himage.
  { unfold MediaTypes._is_image. destruct (fst (guess_type path)) as [m|].
    - rewrite andb_true_iff, negb_true_iff. split.
      + intros [? ?]. exists m. auto.
      + intros (m' & [= <-] & ? & ?). auto.
    - split; [discriminate | intros (? & [=] & _)]. }
  assert (MediaTypes._is_video guess_type path = true <->
          exists mime_type, fst (guess_type path) = Some mime_type /\
            startswith mime_type "video" = true) as Hvideo.
  { unfold MediaTypes._is_video. destruct (fst (guess_type path)) as [m|].
    - split; [intros ?; exists m; auto | intros (m' & [= <-] & ?); assumption].
    - split; [discriminate | intros (? & [=] & _)]. }
  assert (MediaTypes._is_video guess_type path = true ->
          MediaTypes._is_image guess_type path = false) as Hexcl.
  { unfold MediaTypes._is_video, MediaTypes._is_image.
    destruct (fst (guess_type path)) as [m|]; [|reflexivity].
    destruct m as [|c m]; [discriminate|]. cbn [startswith].
    destruct (Ascii.eqb "v" c) eqn:Ev; [|cbn [andb]; discriminate].
    apply Ascii.eqb_eq in Ev as <-. intros _. reflexivity. }
  split; [|split].
  - rewrite <- Himage.
    destruct (MediaTypes._is_image guess_type path); [tauto|].
    split; [|discriminate].
    destruct (MediaTypes._is_video guess_type path); [discriminate|].
    destruct (MediaTypes._is_archive guess_type path); [discriminate|].
    destruct (MediaTypes._is_dir isdir path); [discriminate|].
    destruct (MediaTypes._is_pdf guess_type path); [discriminate|].
    destruct (MediaTypes._is_zip guess_type path); discriminate.
  - rewrite <- Hvideo.
    destruct (MediaTypes._is_video guess_type path) eqn:Hv.
    + rewrite (Hexcl eq_refl). tauto.
    + split; [|discriminate].
      destruct (MediaTypes._is_image guess_type path); [discriminate|].
      destruct (MediaTypes._is_archive guess_type path); [discriminate|].
      destruct (MediaTypes._is_dir isdir path); [discriminate|].
      destruct (MediaTypes._is_pdf guess_type path); [discriminate|].
      destruct (MediaTypes._is_zip guess_type path); discriminate.
  - destruct (MediaTypes._is_image guess_type path);
      [split; [discriminate | intros [[=] _]]|].
    destruct (MediaTypes._is_video guess_type path);
      [split; [discriminate | intros (_ & [=] & _)]|].
    destruct (MediaTypes._is_archive guess_type path);
      [split; [discriminate | intros (_ & _ & [=] & _)]|].
    destruct (MediaTypes._is_dir isdir path);
      [split; [discriminate | intros (_ & _ & _ & [=] & _)]|].
    destruct (MediaTypes._is_pdf guess_type path);
      [split; [discriminate | intros (_ & _ & _ & _ & [=] & _)]|].
    destruct (MediaTypes._is_zip guess_type path);
      [split; [discriminate | intros (_ & _ & _ & _ & _ & [=])]|].
    tauto.
Qed.

(** X24: the files of a zip reader.  The names that are kept are the
    names of the archive that are classified as images and hold none of
    the names to ignore.  When the archive has no such name the
    construction raises ['No image found']; when it has some but the last
    index in effect is below the start, it raises [AssertionError];
    otherwise a reader is built, and with the lexicographic or the
    predefined order it holds exactly the kept names, each as often as the
    archive lists it. *)
Theorem zip_reader_keeps_the_images (namelist : list string) (step start : Z)
    (stop : option Z) (dimension : DimensionType) (sorting_method : SortingMethod) :
  sorting_method = LEXICOGRAPHICAL \/ sorting_method = PREDEFINED ->
  let kept f :=
    files_to_ignore f
    && bool_decide (MediaTypes.get_mime guess_type isdir f = "image"%string) in
  let built :=
    ZipReader.__init__ os_sorted shuffle guess_type isdir namelist step start stop
      dimension sorting_method in
  ((forall f, f ∈ namelist -> kept f = false) ->
   built = Raise (Exception "No image found")) /\
  ((exists f, f ∈ namelist /\ kept f = true) ->
   if stop_in_effect (Z.of_nat (length (List.filter kept namelist))) stop <? start
   then built = Raise AssertionError
   else exists reader,
     built = Ok reader /\
     ILR._source_path reader ≡ₚ List.filter kept namelist /\
     forall f, f ∈ ILR._source_path reader <->
               f ∈ namelist /\ files_to_ignore f = true /\
               MediaTypes.get_mime guess_type isdir f = "image"%string).
Proof.
  intros Hsm kept built. unfold built, ZipReader.__init__. fold kept. split.
  - intros Hnone.
    destruct (List.filter kept namelist) as [|f0 fs] eqn:Hkept; [reflexivity|].
    assert (In f0 (List.filter kept namelist)) as Hin by (rewrite Hkept; left; reflexivity).
    apply filter_In in Hin as [Hin Hk].
    rewrite (Hnone f0) in Hk by (apply list_elem_of_In, Hin). discriminate Hk.
  - intros (f & Hf & Hk).
    assert (In f (List.filter kept namelist)) as Hin.
    { apply filter_In. split; [apply list_elem_of_In, Hf | exact Hk]. }
    unfold ILR.__init__.
    destruct (List.filter kept namelist) as [|f0 fs] eqn:Hkept; [destruct Hin|].
    fold (stop_in_effect (Z.of_nat (length (f0 :: fs))) stop).
    rewrite Z.geb_leb.
    destruct (Z.leb_spec start (stop_in_effect (Z.of_nat (length (f0 :: fs))) stop)),
             (Z.ltb_spec (stop_in_effect (Z.of_nat (length (f0 :: fs))) stop) start);
      try lia; [|reflexivity].
    eexists. split; [reflexivity|]. cbn [ILR._source_path].
    assert (ILR.sort os_sorted shuffle (f0 :: fs) sorting_method ≡ₚ f0 :: fs) as Hperm.
    { destruct Hsm as [-> | ->]; cbn [ILR.sort]; [apply sorted_perm | reflexivity]. }
    split; [exact Hperm|].
    intros f'. rewrite Hperm, <- Hkept, list_elem_of_In, filter_In, <- list_elem_of_In.
    unfold kept. rewrite andb_true_iff, bool_decide_eq_true. tauto.
Qed.

End MediaTypeProofs.

Lemma zip_reader_keeps_the_images_witness :
  let guess_type := fun p : string =>
    if str_contains ".png" p then (Some "image/png"%string, None) else (None, None) in
  ZipReader.__init__ (fun l => l) (fun l => l) guess_type (fun _ => false)
    ["__MACOSX/b.png"; "notes.txt"]%string 1 0 None DIM_2D LEXICOGRAPHICAL
  = Raise (Exception "No image found") /\
  exists reader,
    ZipReader.__init__ (fun l => l) (fun l => l) guess_type (fun _ => false)
      ["b.png"; "__MACOSX/b.png"; "notes.txt"; "a.png"]%string 1 0 None DIM_2D
      LEXICOGRAPHICAL
    = Ok reader /\
    ILR._source_path reader ≡ₚ ["b.png"; "a.png"]%string.
Proof.
  intros guess_type. split.
  - apply (proj1 (zip_reader_keeps_the_images (fun l => l) (fun l => l) guess_type
                    (fun _ => false) ["__MACOSX/b.png"; "notes.txt"]%string
                    1 0 None DIM_2D LEXICOGRAPHICAL (or_introl eq_refl))).
    intros f Hf. apply list_elem_of_In in Hf.
    destruct Hf as [<-|[<-|[]]]; vm_compute; reflexivity.
  - destruct (proj2 (zip_reader_keeps_the_images (fun l => l) (fun l => l) guess_type
                       (fun _ => false)
                       ["b.png"; "__MACOSX/b.png"; "notes.txt"; "a.png"]%string
                       1 0 None DIM_2D LEXICOGRAPHICAL (or_introl eq_refl))
                (ex_intro _ "b.png"%string (conj (list_elem_of_here _ _) eq_refl)))
      as (reader & Hbuilt & Hperm & _).
    exists reader. split; [exact Hbuilt | exact Hperm].
Defined.

Lemma get_mime_classes_witness :
  MediaTypes.get_mime (fun _ => (Some "image/png"%string, None)) (fun _ => false) "a.png"
  = "image"%string.
Proof.
  apply (proj1 (get_mime_classes (fun _ => (Some "image/png"%string, None))
                  (fun _ => false) "a.png")).
  exists "image/png"%string. repeat split.
Defined.
